(** * The clamp-truck job monitor: an executable model and its properties

    This development embeds the monitor of [job_monitor.py], the data-access
    class of [database.py], the domain classes of [models.py], the
    utilities of [helpers.py] and the request handler of [job_manager.py],
    and proves properties of them.

    Conventions of the embedding:
    - Python [int]s (ids, location ids, the clamp bitfield) are [Z].
    - Python [float]s (speeds, coordinates, distances, seconds) are an
      abstract carrier [F] with the operations the code applies to them
      (class [Arith]).  No law of arithmetic is assumed, so every theorem
      holds for IEEE doubles as well as for exact numbers.
    - Timestamps are microseconds since the epoch ([Z]); the monitor keeps
      them as ['%Y-%m-%d %H:%M:%S.%f'] strings, which [strptime] and
      [strftime] map one-to-one to [datetime] values.  [None] is [None].
    - Objects that the code mutates through references (tasks in
      [self.tasks], the last carry and its last trip) are updated in place
      in the list that owns them.
    - A Python exception is a result [Raise e m]: it carries the monitor
      as the statements before the [raise] left it. *)

From Stdlib Require Import ZArith QArith List String Bool Lia Permutation Sorted.
From stdpp Require Import base numbers list sorting.
Import ListNotations.
Local Open Scope string_scope.
Local Open Scope list_scope.
Local Open Scope Z_scope.

(** ** Numbers *)

(** The float operations used by the source. [f0] is Python's [0]. *)
Class Arith (F : Type) := {
  f0 : F;
  fadd : F -> F -> F;                (* x + y *)
  fsub : F -> F -> F;                (* x - y *)
  fdiv : F -> F -> F;                (* x / y *)
  fsq : F -> F;                      (* x ** 2 *)
  fsqrt : F -> F;                    (* math.sqrt *)
  fround2 : F -> F;                  (* round(x, 2) *)
  fof_nat : nat -> F;                (* an int such as len(l) *)
  fgtb : F -> F -> bool;             (* x > y *)
  fgeb : F -> F -> bool;             (* x >= y *)
  total_seconds : Z -> F;            (* timedelta.total_seconds() *)
  timedelta_seconds : F -> Z         (* timedelta(seconds=x), in microseconds *)
}.

(** Exact rational arithmetic, with a fixed-point square root: the
    instance at which the theorems below are exercised. *)
Definition Q_round2 (q : Q) : Q :=
  Qmake ((Qnum q * 200 + Z.pos (Qden q)) / (2 * Z.pos (Qden q))) 100.

Definition Q_sqrt (q : Q) : Q :=
  Qmake (Z.sqrt (Qnum q * 1000000000000 / Z.pos (Qden q))) 1000000.

Definition Q_gtb (x y : Q) : bool := negb (Qle_bool x y).

#[export] Instance Q_Arith : Arith Q := {|
  f0 := 0%Q;
  fadd := Qplus;
  fsub := Qminus;
  fdiv := Qdiv;
  fsq := fun x => Qmult x x;
  fsqrt := Q_sqrt;
  fround2 := Q_round2;
  fof_nat := fun n => inject_Z (Z.of_nat n);
  fgtb := Q_gtb;
  fgeb := fun x y => Qle_bool y x;
  total_seconds := fun us => Qmake us 1000000;
  timedelta_seconds := fun q => (Qnum q * 1000000) / Z.pos (Qden q)
|}.

(** ** Exceptions and basic data *)

Inductive exn : Type :=
| AttributeError (class_name attr : string)
| KeyError (key : string)
| TypeError (what : string)
| IndexError (what : string)
| SystemExit.

Definition Time : Type := Z.

Record Coords (F : Type) := mkCoords { cx : F; cy : F }.
Arguments mkCoords {F} _ _.
Arguments cx {F} _.
Arguments cy {F} _.

(** [x in l] for a list of ints. *)
Definition Z_in (x : Z) (l : list Z) : bool := existsb (Z.eqb x) l.

(** [l[-1]] *)
Definition py_last {A : Type} (what : string) (l : list A) : exn + A :=
  match last l with
  | Some x => inr x
  | None => inl (IndexError what)
  end.

(** [self.carries[-1] = x], [trips[-1] = x]: replace the last element. *)
Definition set_last {A : Type} (x : A) (l : list A) : list A :=
  <[ pred (length l) := x ]> l.

(** ** helpers.py *)

Section Helpers.
Context {F : Type} `{Arith F}.

(** [sum(l)] *)
Definition fsum (l : list F) : F := fold_left fadd l f0.

(** [get_distance(coord1, coord2)]; subscripting [None] raises. *)
Definition get_distance (coord1 coord2 : option (Coords F)) : exn + F :=
  match coord1, coord2 with
  | Some c1, Some c2 =>
      inr (fsqrt (fadd (fsq (fsub (cx c1) (cx c2)))
                       (fsq (fsub (cy c1) (cy c2)))))
  | _, _ => inl (TypeError "'NoneType' object is not subscriptable")
  end.

(** [get_time_delta(prev_loc_time, curr_loc_time)]; [strptime(None)] raises. *)
Definition get_time_delta (prev_loc_time curr_loc_time : option Time) : exn + F :=
  match curr_loc_time, prev_loc_time with
  | Some c, Some p => inr (total_seconds (c - p))
  | _, _ => inl (TypeError "strptime() argument 1 must be str, not None")
  end.
End Helpers.

(** ** models.py *)

Module Trip.
Section Defs.
Context {F : Type} `{Arith F}.

Record t := mk {
  carry_num : Z;
  start_time : option Time;
  finish_time : option Time;
  origin : Z;
  dest : option Z;
  travel_time : F;
  distance : F;
  avg_speed : F;
  speeds : list F;
  latest_coords : option (Coords F)
}.

(** [Trip(carry_num, start_time, start_loc)] *)
Definition __init__ (carry_num : Z) (start_time : option Time) (start_loc : Z) : t :=
  {| carry_num := carry_num; start_time := start_time; finish_time := None;
     origin := start_loc; dest := None; travel_time := f0; distance := f0;
     avg_speed := f0; speeds := []; latest_coords := None |}.

Definition append_speed (speed : F) (self : t) : t :=
  {| carry_num := carry_num self; start_time := start_time self;
     finish_time := finish_time self; origin := origin self; dest := dest self;
     travel_time := travel_time self; distance := distance self;
     avg_speed := avg_speed self; speeds := speeds self ++ [speed];
     latest_coords := latest_coords self |}.

Definition append_coords (coords : option (Coords F)) (self : t) : exn + t :=
  match latest_coords self with
  | Some lc =>
      match get_distance (Some lc) coords with
      | inl e => inl e
      | inr d =>
          inr {| carry_num := carry_num self; start_time := start_time self;
                 finish_time := finish_time self; origin := origin self;
                 dest := dest self; travel_time := travel_time self;
                 distance := fadd (distance self) d;
                 avg_speed := avg_speed self; speeds := speeds self;
                 latest_coords := coords |}
      end
  | None =>
      inr {| carry_num := carry_num self; start_time := start_time self;
             finish_time := finish_time self; origin := origin self;
             dest := dest self; travel_time := travel_time self;
             distance := distance self;
             avg_speed := avg_speed self; speeds := speeds self;
             latest_coords := coords |}
  end.

(** [finished(location, time)].  The average speed and the finish time
    are assigned before the two [strptime] calls, so they survive a
    [TypeError] raised there. *)
Definition finished (location : Z) (time : option Time) (self : t) : (exn * t) + t :=
  let avg := match speeds self with
             | [] => f0
             | _ => fround2 (fdiv (fsum (speeds self))
                                  (fof_nat (length (speeds self))))
             end in
  let self1 := {| carry_num := carry_num self; start_time := start_time self;
                  finish_time := time; origin := origin self; dest := dest self;
                  travel_time := travel_time self; distance := distance self;
                  avg_speed := avg; speeds := speeds self;
                  latest_coords := latest_coords self |} in
  match finish_time self1, start_time self1 with
  | Some f_time, Some s_time =>
      inr {| carry_num := carry_num self1; start_time := start_time self1;
             finish_time := finish_time self1; origin := origin self1;
             dest := Some location;
             travel_time := total_seconds (f_time - s_time);
             distance := distance self1; avg_speed := avg_speed self1;
             speeds := speeds self1; latest_coords := latest_coords self1 |}
  | _, _ => inl (TypeError "strptime() argument 1 must be str, not None", self1)
  end.
End Defs.
Arguments t : clear implicits.
End Trip.

Module Carry.
Section Defs.
Context {F : Type} `{Arith F}.

Record t := mk {
  carry_num : Z;
  start_time : option Time;
  finish_time : option Time;
  unit_count : option nat;
  origin : Z;
  dest : option Z;
  trips : list (Trip.t F);
  stow_time : F;
  dock_time : F;
  total_distance : F;
  avg_trip_distance : F;
  avg_trip_time : F
}.

Definition set_trips (ts : list (Trip.t F)) (self : t) : t :=
  {| carry_num := carry_num self; start_time := start_time self;
     finish_time := finish_time self; unit_count := unit_count self;
     origin := origin self; dest := dest self; trips := ts;
     stow_time := stow_time self; dock_time := dock_time self;
     total_distance := total_distance self;
     avg_trip_distance := avg_trip_distance self;
     avg_trip_time := avg_trip_time self |}.

(** [append_trip(start_time, start_loc)] *)
Definition append_trip (start_time : option Time) (start_loc : Z) (self : t) : t :=
  set_trips (trips self ++ [Trip.__init__ (carry_num self) start_time start_loc]) self.

(** [Carry(carry_num, start_time, start_loc)] *)
Definition __init__ (carry_num : Z) (start_time : option Time) (start_loc : Z) : t :=
  append_trip start_time start_loc
    {| carry_num := carry_num; start_time := start_time; finish_time := None;
       unit_count := None; origin := start_loc; dest := None; trips := [];
       stow_time := f0; dock_time := f0; total_distance := f0;
       avg_trip_distance := f0; avg_trip_time := f0 |}.

Definition add_stow_time (prev_loc_time curr_loc_time : option Time) (self : t) : exn + t :=
  match get_time_delta prev_loc_time curr_loc_time with
  | inl e => inl e
  | inr d =>
      inr {| carry_num := carry_num self; start_time := start_time self;
             finish_time := finish_time self; unit_count := unit_count self;
             origin := origin self; dest := dest self; trips := trips self;
             stow_time := fadd (stow_time self) d; dock_time := dock_time self;
             total_distance := total_distance self;
             avg_trip_distance := avg_trip_distance self;
             avg_trip_time := avg_trip_time self |}
  end.

Definition add_dock_time (prev_loc_time curr_loc_time : option Time) (self : t) : exn + t :=
  match get_time_delta prev_loc_time curr_loc_time with
  | inl e => inl e
  | inr d =>
      inr {| carry_num := carry_num self; start_time := start_time self;
             finish_time := finish_time self; unit_count := unit_count self;
             origin := origin self; dest := dest self; trips := trips self;
             stow_time := stow_time self; dock_time := fadd (dock_time self) d;
             total_distance := total_distance self;
             avg_trip_distance := avg_trip_distance self;
             avg_trip_time := avg_trip_time self |}
  end.

(** The loop of [finished]: both accumulators advance trip by trip. *)
Fixpoint accumulate (ts : list (Trip.t F)) (total_distance travel_time_accumulator : F) : F * F :=
  match ts with
  | [] => (total_distance, travel_time_accumulator)
  | trip :: rest =>
      accumulate rest (fadd total_distance (Trip.distance trip))
                      (fadd travel_time_accumulator (Trip.travel_time trip))
  end.

(** [finished(location, item_count, time)] *)
Definition finished (location : Z) (item_count : nat) (time : option Time) (self : t) : t :=
  let '(total, acc) := accumulate (trips self) (total_distance self) f0 in
  let trip_count := length (trips self) in
  {| carry_num := carry_num self; start_time := start_time self;
     finish_time := time; unit_count := Some item_count;
     origin := origin self; dest := Some location; trips := trips self;
     stow_time := stow_time self; dock_time := dock_time self;
     total_distance := total;
     avg_trip_distance :=
       if (0 <? trip_count)%nat then fdiv total (fof_nat trip_count)
       else avg_trip_distance self;
     avg_trip_time :=
       if (0 <? trip_count)%nat then fdiv acc (fof_nat trip_count)
       else avg_trip_time self |}.
End Defs.
Arguments t : clear implicits.
End Carry.

Module Task.
Section Defs.
Context {F : Type}.

Record t := mk {
  task_id : Z;
  complete : bool;
  model : string;
  item_id : option Z;
  origin : Z;
  dest : Z;
  start_time : option Time;
  finish_time : option Time;
  avg_speed : option F
}.

(** [Task(task_id, model, origin, dest)] *)
Definition __init__ (task_id : Z) (model : string) (origin dest : Z) : t :=
  {| task_id := task_id; complete := false; model := model; item_id := None;
     origin := origin; dest := dest; start_time := None; finish_time := None;
     avg_speed := None |}.
End Defs.
Arguments t : clear implicits.
End Task.

(** ** database.py *)

(** An item as [__get_load_data] and [get_item_data] build it: a fresh
    dict per result row, so no two entries of a sensed-item list are the
    same object. *)
Module Item.
Record t := mk {
  id : Z;
  model : string;
  item_origin : Z;
  serial_lock : Z;
  correct_loc_id : option Z
}.

(** [item['correct_loc_id'] = loc] *)
Definition set_correct_loc_id (loc : Z) (item : t) : t :=
  {| id := id item; model := model item; item_origin := item_origin item;
     serial_lock := serial_lock item; correct_loc_id := Some loc |}.
End Item.

(** A result row of a dictionary cursor: the selected columns only. *)
Definition Row : Type := list (string * Z).

(** [row[key]] *)
Fixpoint row_get (key : string) (row : Row) : exn + Z :=
  match row with
  | [] => inl (KeyError key)
  | (k, v) :: rest => if String.eqb k key then inr v else row_get key rest
  end.

Record Config (F : Type) := mkConfig {
  pickup_check_distance_trigger : F;
  pickup_check_distance_window : F;
  pickup_post_seconds : F;
  drop_check_distance : F;
  drop_pre_seconds : F;
  rfid_wait_timeout : Z;
  activate_queries : bool
}.
Arguments mkConfig {F}.
Arguments pickup_check_distance_trigger {F}.
Arguments pickup_check_distance_window {F}.
Arguments pickup_post_seconds {F}.
Arguments drop_check_distance {F}.
Arguments drop_pre_seconds {F}.
Arguments rfid_wait_timeout {F}.
Arguments activate_queries {F}.

(** The tables the queries of [database.py] read and write. *)
Record AlertRow := mkAlert {
  a_id : Z;
  a_loc_id : Z;
  a_item_id : option Z;
  a_job_id : Z;
  a_timestamp : option Time;
  a_type : string;
  a_active : Z;
  a_correct_loc_id : option Z
}.

Record ItemRow := mkItemRow {
  i_id : Z;
  i_item_tag : Z;
  i_model : string;
  i_curr_loc_id : Z;
  i_serial_lock : Z
}.

Record DetectedRow := mkDetected {
  d_clamp_truck_id : Z;
  d_timestamp : Time;
  d_items_item_tag : Z
}.

Record LocRow (F : Type) := mkLocRow {
  l_truck_id : Z;
  l_geo_feature_id : Z;
  l_x : F;
  l_y : F;
  l_timestamp : Time;
  l_speed : F;
  l_clamp_status : Z
}.
Arguments mkLocRow {F}.
Arguments l_truck_id {F}.
Arguments l_geo_feature_id {F}.
Arguments l_x {F}.
Arguments l_y {F}.
Arguments l_timestamp {F}.
Arguments l_speed {F}.
Arguments l_clamp_status {F}.

Record GeoFeature := mkGeo { g_id : Z; g_type : string }.

Record JobRow := mkJob {
  j_id : Z;
  j_active : Z;
  j_status : Z;
  j_start_time : option Time;
  j_finish_time : option Time;
  j_total_carries : nat;
  j_total_trips : nat
}.

Record JobTaskRow (F : Type) := mkJobTask {
  jt_id : Z;
  jt_job_id : Z;
  jt_task_id : Z;
  jt_item_id : option Z;
  jt_status : Z;
  jt_start_time : option Time;
  jt_finish_time : option Time;
  jt_avg_speed : option F
}.
Arguments mkJobTask {F}.
Arguments jt_id {F}.
Arguments jt_job_id {F}.
Arguments jt_task_id {F}.
Arguments jt_item_id {F}.
Arguments jt_status {F}.
Arguments jt_start_time {F}.
Arguments jt_finish_time {F}.
Arguments jt_avg_speed {F}.

Record TaskRow := mkTaskRow {
  t_id : Z;
  t_model : string;
  t_origin : Z;
  t_destination : Z;
  t_task_list_id : Z
}.

(** A row of [get_loc_data]: location, coordinates, speed, clamp status
    and the type of the geo-feature. *)
Module Loc.
Record t (F : Type) := mk {
  geo_feature_id : Z;
  x : F;
  y : F;
  timestamp : Time;
  speed : F;
  clamp_status : Z;
  type : string
}.
Arguments mk {F}.
Arguments geo_feature_id {F}.
Arguments x {F}.
Arguments y {F}.
Arguments timestamp {F}.
Arguments speed {F}.
Arguments clamp_status {F}.
Arguments type {F}.
End Loc.

(** A row of [get_task_data]. *)
Record TaskData := mkTaskData {
  td_id : Z; td_model : string; td_origin : Z; td_dest : Z
}.

Module Database.
Section Defs.
Context {F : Type} `{Arith F}.

(** The handler ([job_id], [truck_id], [config], [active]) together
    with the tables behind its cursor. *)
Record t := mk {
  config : Config F;
  job_id : Z;
  truck_id : Z;
  active : bool;
  alerts : list AlertRow;
  next_alert_id : Z;
  items : list ItemRow;
  detected_items : list DetectedRow;
  loc_data : list (LocRow F);
  geo_features : list GeoFeature;
  jobs : list JobRow;
  job_tasks : list (JobTaskRow F);
  tasks : list TaskRow;
  tasks_lists : list Z;
  carries : list (Z * Carry.t F);
  carry_trips : list (Z * Trip.t F)
}.

Definition set_alerts (rows : list AlertRow) (next : Z) (self : t) : t :=
  {| config := config self; job_id := job_id self; truck_id := truck_id self;
     active := active self; alerts := rows; next_alert_id := next;
     items := items self; detected_items := detected_items self;
     loc_data := loc_data self; geo_features := geo_features self;
     jobs := jobs self; job_tasks := job_tasks self; tasks := tasks self;
     tasks_lists := tasks_lists self; carries := carries self;
     carry_trips := carry_trips self |}.

Definition set_items (rows : list ItemRow) (self : t) : t :=
  {| config := config self; job_id := job_id self; truck_id := truck_id self;
     active := active self; alerts := alerts self;
     next_alert_id := next_alert_id self;
     items := rows; detected_items := detected_items self;
     loc_data := loc_data self; geo_features := geo_features self;
     jobs := jobs self; job_tasks := job_tasks self; tasks := tasks self;
     tasks_lists := tasks_lists self; carries := carries self;
     carry_trips := carry_trips self |}.

Definition set_jobs (rows : list JobRow) (self : t) : t :=
  {| config := config self; job_id := job_id self; truck_id := truck_id self;
     active := active self; alerts := alerts self;
     next_alert_id := next_alert_id self;
     items := items self; detected_items := detected_items self;
     loc_data := loc_data self; geo_features := geo_features self;
     jobs := rows; job_tasks := job_tasks self; tasks := tasks self;
     tasks_lists := tasks_lists self; carries := carries self;
     carry_trips := carry_trips self |}.

Definition set_job_tasks (rows : list (JobTaskRow F)) (self : t) : t :=
  {| config := config self; job_id := job_id self; truck_id := truck_id self;
     active := active self; alerts := alerts self;
     next_alert_id := next_alert_id self;
     items := items self; detected_items := detected_items self;
     loc_data := loc_data self; geo_features := geo_features self;
     jobs := jobs self; job_tasks := rows; tasks := tasks self;
     tasks_lists := tasks_lists self; carries := carries self;
     carry_trips := carry_trips self |}.

Definition set_carries (rows : list (Z * Carry.t F))
    (trip_rows : list (Z * Trip.t F)) (self : t) : t :=
  {| config := config self; job_id := job_id self; truck_id := truck_id self;
     active := active self; alerts := alerts self;
     next_alert_id := next_alert_id self;
     items := items self; detected_items := detected_items self;
     loc_data := loc_data self; geo_features := geo_features self;
     jobs := jobs self; job_tasks := job_tasks self; tasks := tasks self;
     tasks_lists := tasks_lists self; carries := rows;
     carry_trips := trip_rows |}.

(** [UPDATE alerts SET active = 0 WHERE job_id = .. AND <cond>] *)
Definition deactivate (cond : AlertRow -> bool) (self : t) : t :=
  set_alerts
    (map (fun a =>
            if (a_job_id a =? job_id self) && cond a
            then {| a_id := a_id a; a_loc_id := a_loc_id a;
                    a_item_id := a_item_id a; a_job_id := a_job_id a;
                    a_timestamp := a_timestamp a; a_type := a_type a;
                    a_active := 0; a_correct_loc_id := a_correct_loc_id a |}
            else a)
         (alerts self))
    (next_alert_id self) self.

Definition is_job_active (self : t) : bool :=
  match List.find (fun j => j_id j =? job_id self) (jobs self) with
  | None => false
  | Some job => j_active job =? 1
  end.

Definition get_task_data (self : t) : list TaskData :=
  flat_map (fun jt =>
    flat_map (fun j =>
      flat_map (fun tk =>
        flat_map (fun tl =>
          flat_map (fun o =>
            flat_map (fun d =>
              if (jt_job_id jt =? j_id j) && (jt_task_id jt =? t_id tk)
                 && (t_task_list_id tk =? tl) && (t_origin tk =? g_id o)
                 && (t_destination tk =? g_id d)
                 && (jt_job_id jt =? job_id self)
              then [ {| td_id := jt_id jt; td_model := t_model tk;
                        td_origin := t_origin tk;
                        td_dest := t_destination tk |} ]
              else [])
              (geo_features self))
            (geo_features self))
          (tasks_lists self))
        (tasks self))
      (jobs self))
    (job_tasks self).

(** [ORDER BY timestamp ASC] *)
Definition timestamp_asc (a b : Loc.t F) : Prop :=
  Loc.timestamp a <= Loc.timestamp b.

#[global] Instance timestamp_asc_dec a b : Decision (timestamp_asc a b) :=
  Z_le_dec (Loc.timestamp a) (Loc.timestamp b).

Definition order_by_timestamp_asc (rows : list (Loc.t F)) : list (Loc.t F) :=
  merge_sort timestamp_asc rows.

Definition get_loc_data (curr_loc_time : Time) (self : t) : list (Loc.t F) :=
  order_by_timestamp_asc
    (flat_map (fun l =>
       flat_map (fun gf =>
         if (l_geo_feature_id l =? g_id gf) && (l_truck_id l =? truck_id self)
            && (curr_loc_time <? l_timestamp l)
         then [ {| Loc.geo_feature_id := l_geo_feature_id l;
                   Loc.x := l_x l; Loc.y := l_y l;
                   Loc.timestamp := l_timestamp l; Loc.speed := l_speed l;
                   Loc.clamp_status := l_clamp_status l;
                   Loc.type := g_type gf |} ]
         else [])
         (geo_features self))
       (loc_data self)).

Definition has_active_alerts (self : t) : bool :=
  existsb (fun a => (a_job_id a =? job_id self) && (a_active a =? 1)
                    && negb (String.eqb (a_type a) "clamps_closed_event")
                    && negb (String.eqb (a_type a) "clamps_closed_warning"))
          (alerts self).

Definition loc_has_active_dl_alerts (loc_id : Z) (self : t) : bool :=
  existsb (fun a => (a_job_id a =? job_id self) && (a_active a =? 1)
                    && String.eqb (a_type a) "drop_location"
                    && (a_loc_id a =? loc_id))
          (alerts self).

(** [GROUP BY item.id]: one row per item id. *)
Fixpoint group_by_id (seen : list Z) (rows : list ItemRow) : list ItemRow :=
  match rows with
  | [] => []
  | r :: rest =>
      if Z_in (i_id r) seen then group_by_id seen rest
      else r :: group_by_id (i_id r :: seen) rest
  end.

Definition item_of_row (item : ItemRow) : Item.t :=
  {| Item.id := i_id item; Item.model := i_model item;
     Item.item_origin := i_curr_loc_id item;
     Item.serial_lock := i_serial_lock item;
     Item.correct_loc_id := None |}.

(** [__get_load_data(min_time, max_time)].  The bounded wait on the
    RFID timestamp that precedes the query only delays it. *)
Definition __get_load_data (min_time max_time : Time) (self : t) : list Item.t :=
  map item_of_row
    (group_by_id []
       (flat_map (fun d =>
          flat_map (fun item =>
            if (d_items_item_tag d =? i_item_tag item)
               && (d_clamp_truck_id d =? truck_id self)
               && (min_time <=? d_timestamp d) && (d_timestamp d <=? max_time)
            then [item] else [])
            (items self))
          (detected_items self))).

(** [ORDER BY timestamp DESC] *)
Definition timestamp_desc (a b : LocRow F) : Prop :=
  l_timestamp b <= l_timestamp a.

#[global] Instance timestamp_desc_dec a b : Decision (timestamp_desc a b) :=
  Z_le_dec (l_timestamp b) (l_timestamp a).

Definition order_by_timestamp_desc (rows : list (LocRow F)) : list (LocRow F) :=
  merge_sort timestamp_desc rows.

(** The rows of the query of [__get_load_data_inside_circle]. *)
Definition loc_data_between (min_time max_time : Time) (self : t) : list (LocRow F) :=
  order_by_timestamp_desc
    (List.filter (fun l => (l_truck_id l =? truck_id self)
                           && (min_time <=? l_timestamp l)
                           && (l_timestamp l <=? max_time))
                 (loc_data self)).

(** The loop of [__get_load_data_inside_circle] over the rows. *)
Fixpoint scan_circle (event_coords : option (Coords F)) (window : F)
    (rows : list (LocRow F)) (load_query_start_time : Time) : exn + Time :=
  match rows with
  | [] => inr load_query_start_time
  | location :: rest =>
      match get_distance event_coords
              (Some (mkCoords (l_x location) (l_y location))) with
      | inl e => inl e
      | inr pickup_distance =>
          if fgeb pickup_distance window then inr (l_timestamp location)
          else scan_circle event_coords window rest load_query_start_time
      end
  end.

(** The time window of [__get_load_data_inside_circle]:
    [(load_query_start_time, load_query_end_time)]. *)
Definition load_window (event_coords : option (Coords F))
    (event_time : option Time) (self : t) : exn + (Time * Time) :=
  match event_time with
  | None => inl (TypeError "strptime() argument 1 must be str, not None")
  | Some max_time =>
      let min_time := max_time - 60 * 1000000 in
      let rows := loc_data_between min_time max_time self in
      let load_query_end_time :=
        max_time + timedelta_seconds (pickup_post_seconds (config self)) in
      match scan_circle event_coords
              (pickup_check_distance_window (config self)) rows min_time with
      | inl e => inl e
      | inr load_query_start_time =>
          inr (load_query_start_time, load_query_end_time)
      end
  end.

Definition __get_load_data_inside_circle (event_coords : option (Coords F))
    (event_time : option Time) (self : t) : exn + list Item.t :=
  match load_window event_coords event_time self with
  | inl e => inl e
  | inr (start, finish) => inr (__get_load_data start finish self)
  end.

Definition get_drop_data (drop_time max_time : option Time) (self : t)
    : exn + list Item.t :=
  match drop_time, max_time with
  | Some query_drop_time, Some query_end_time =>
      let query_start_time :=
        query_drop_time - timedelta_seconds (drop_pre_seconds (config self)) in
      inr (__get_load_data query_start_time query_end_time self)
  | _, _ => inl (TypeError "strptime() argument 1 must be str, not None")
  end.

Definition get_pickup_data (pickup_coords : option (Coords F))
    (pickup_time : option Time) (self : t) : exn + list Z :=
  match __get_load_data_inside_circle pickup_coords pickup_time self with
  | inl e => inl e
  | inr inner_pickup_items => inr (map Item.id inner_pickup_items)
  end.

Definition get_item_data (item_ids : list Z) (self : t) : list Item.t :=
  match item_ids with
  | [] => []
  | _ => map item_of_row
           (List.filter (fun item => Z_in (i_id item) item_ids) (items self))
  end.

Definition save_item_loc (item : Item.t) (loc : Z) (self : t) : t :=
  if active self then
    set_items
      (map (fun r =>
              if i_id r =? Item.id item
              then {| i_id := i_id r; i_item_tag := i_item_tag r;
                      i_model := i_model r; i_curr_loc_id := loc;
                      i_serial_lock := i_serial_lock r |}
              else r)
           (items self)) self
  else self.

(** The rows of the [INSERT] of [create_alert], numbered from [next]. *)
Fixpoint alert_rows (alert_loc : Z) (alert_type : string)
    (event_time : option Time) (job : Z) (next : Z)
    (wrong_items : list Item.t) : list AlertRow :=
  match wrong_items with
  | [] => []
  | item :: rest =>
      {| a_id := next; a_loc_id := alert_loc; a_item_id := Some (Item.id item);
         a_job_id := job; a_timestamp := event_time; a_type := alert_type;
         a_active := 1; a_correct_loc_id := Item.correct_loc_id item |}
      :: alert_rows alert_loc alert_type event_time job (next + 1) rest
  end.

Definition create_alert (alert_loc : Z) (alert_type : string)
    (wrong_items : option (list Item.t)) (event_time : option Time)
    (self : t) : t :=
  let rows :=
    match wrong_items with
    | None | Some [] =>
        [ {| a_id := next_alert_id self; a_loc_id := alert_loc;
             a_item_id := None; a_job_id := job_id self;
             a_timestamp := event_time; a_type := alert_type;
             a_active := 1; a_correct_loc_id := None |} ]
    | Some l =>
        alert_rows alert_loc alert_type event_time (job_id self)
                   (next_alert_id self) l
    end in
  if active self then
    set_alerts (alerts self ++ rows)
               (next_alert_id self + Z.of_nat (length rows)) self
  else self.

(** [get_model_alerts(item)]: the query selects [a.id] alone, so each
    row of the result is the dict [{'id': ...}]. *)
Definition get_model_alerts (item : Item.t) (self : t) : list Row :=
  flat_map (fun a =>
    flat_map (fun i =>
      if match a_item_id a with
         | Some iid => iid =? i_id i
         | None => false
         end
         && (a_job_id a =? job_id self) && (a_active a =? 1)
         && (a_loc_id a =? Item.item_origin item)
         && String.eqb (i_model i) (Item.model item)
      then [ [("id", a_id a)] ] else [])
      (items self))
    (alerts self).

Definition cancel_alert (alert_id : Z) (self : t) : t :=
  if negb (active self) then self
  else deactivate (fun a => a_id a =? alert_id) self.

Definition cancel_alerts (alert_type : string) (self : t) : t :=
  if negb (active self) then self
  else deactivate (fun a => String.eqb (a_type a) alert_type) self.

Definition cancel_item_alerts (items : list Item.t) (self : t) : t :=
  if negb (active self) then self
  else fold_left
         (fun db item =>
            deactivate (fun a => match a_item_id a with
                                 | Some iid => iid =? Item.id item
                                 | None => false
                                 end) db)
         items self.

Definition cancel_model_alerts (model : string) (loc_id : Z) (self : t) : t :=
  if negb (active self) then self
  else deactivate
         (fun a => (a_loc_id a =? loc_id)
                   && existsb (fun i => match a_item_id a with
                                        | Some iid => iid =? i_id i
                                        | None => false
                                        end && String.eqb (i_model i) model)
                              (items self))
         self.

Definition cancel_remaining_tasks_alert (loc_id : Z) (self : t) : t :=
  if active self then
    deactivate (fun a => String.eqb (a_type a) "remaining_tasks"
                         && (a_loc_id a =? loc_id)) self
  else self.

Definition save_job (start_time finish_time : Time)
    (carries : list (Carry.t F)) (self : t) : t :=
  let trip_count :=
    fold_left (fun n carry => (n + length (Carry.trips carry))%nat) carries 0%nat in
  if active self then
    set_jobs
      (map (fun j =>
              if j_id j =? job_id self
              then {| j_id := j_id j; j_active := j_active j; j_status := 1;
                      j_start_time := Some start_time;
                      j_finish_time := Some finish_time;
                      j_total_carries := length carries;
                      j_total_trips := trip_count |}
              else j)
           (jobs self)) self
  else self.

Definition save_task (task : Task.t F) (self : t) : t :=
  if active self then
    set_job_tasks
      (map (fun r =>
              if jt_id r =? Task.task_id task
              then {| jt_id := jt_id r; jt_job_id := jt_job_id r;
                      jt_task_id := jt_task_id r;
                      jt_item_id := Task.item_id task; jt_status := 1;
                      jt_start_time := Task.start_time task;
                      jt_finish_time := Task.finish_time task;
                      jt_avg_speed := Task.avg_speed task |}
              else r)
           (job_tasks self)) self
  else self.

(** [__save_trips(carry)] *)
Definition __save_trips (carry : Carry.t F) (self : t) : t :=
  if active self then
    set_carries (carries self)
      (carry_trips self ++ map (fun trip => (job_id self, trip)) (Carry.trips carry))
      self
  else self.

Definition save_carries (carries_ : list (Carry.t F)) (self : t) : t :=
  let self1 :=
    if active self then
      set_carries (carries self ++ map (fun carry => (job_id self, carry)) carries_)
                  (carry_trips self) self
    else self in
  fold_left (fun db carry => __save_trips carry db) carries_ self1.

(** The methods of the class that take no argument and return a
    [bool], by name: what [getattr] finds on a [Database]. *)
Definition nullary_predicate (name : string) : option (t -> bool) :=
  if String.eqb name "is_job_active" then Some is_job_active
  else if String.eqb name "has_active_alerts" then Some has_active_alerts
  else None.
End Defs.
Arguments t : clear implicits.

(** Every method name the class defines. *)
Definition methods : list string :=
  [ "__init__"; "__init_db"; "close_db"; "is_job_active"; "get_task_data";
    "get_loc_data"; "has_active_alerts"; "loc_has_active_dl_alerts";
    "__wait_for_rfid_data"; "__get_load_data"; "__get_load_data_inside_circle";
    "get_drop_data"; "get_pickup_data"; "get_item_data"; "save_item_loc";
    "create_alert"; "get_model_alerts"; "cancel_alert"; "cancel_alerts";
    "cancel_item_alerts"; "cancel_model_alerts"; "cancel_remaining_tasks_alert";
    "save_job"; "save_task"; "save_carries"; "__save_trips" ].
End Database.

(** ** job_monitor.py *)

(** [enumerate(l)]: each element with its position, which identifies the
    object when the code mutates it through a reference. *)
Definition enumerate {A : Type} (l : list A) : list (nat * A) :=
  combine (seq 0 (length l)) l.

Module JobMonitor.
Section Defs.
Context {F : Type} `{Arith F}.

(** What the monitor makes observable: its log lines (by their fixed
    text), the writing calls on the database handler, and, as a ghost
    event, each entry into [check_job], which logs nothing unless the
    job completes. *)
Inductive Event : Type :=
| Log (msg : string)
| Call (method : string)
| DB_save_item_loc (item : Item.t) (loc : Z)
| DB_save_task (task : Task.t F)
| DB_create_alert (loc : Z) (alert_type : string)
    (wrong_items : option (list Item.t)) (event_time : option Time)
| DB_cancel_alert (alert_id : Z)
| DB_cancel_alerts (alert_type : string)
| DB_cancel_item_alerts (items : list Item.t)
| DB_cancel_remaining_tasks_alert (loc : Z)
| DB_save_carries (carries : list (Carry.t F))
| DB_save_job (start_time finish_time : Time) (carries : list (Carry.t F))
| DB_close_db.

Definition __NOE_loc : Z := 79.

Record t := mk {
  config : Config F;
  db_connection : Database.t F;
  now : Time;                      (* the reading of [self.now()] *)
  trace : list Event;
  curr_loc_id : option Z;
  curr_loc_type : option string;
  curr_loc_time : option Time;
  curr_loc_coords : option (Coords F);
  prev_loc_time : option Time;
  pickup_check : bool;
  correct_origins : list Z;
  correct_dests : list Z;
  pickup_history : list Z;
  drop_history : list Z;
  latest_pickup_item_ids : list Z;
  tasks : list (Task.t F);
  task_completion_times : list (option Time);
  speed_accumulator : list F;
  carries : list (Carry.t F);
  job_start_time : Time;
  previous_clamp_status : Z
}.

(** *** Field updates *)

Definition set_db (db : Database.t F) (m : t) : t :=
  {| config := config m; db_connection := db; now := now m; trace := trace m;
     curr_loc_id := curr_loc_id m; curr_loc_type := curr_loc_type m;
     curr_loc_time := curr_loc_time m; curr_loc_coords := curr_loc_coords m;
     prev_loc_time := prev_loc_time m; pickup_check := pickup_check m;
     correct_origins := correct_origins m; correct_dests := correct_dests m;
     pickup_history := pickup_history m; drop_history := drop_history m;
     latest_pickup_item_ids := latest_pickup_item_ids m; tasks := tasks m;
     task_completion_times := task_completion_times m;
     speed_accumulator := speed_accumulator m; carries := carries m;
     job_start_time := job_start_time m;
     previous_clamp_status := previous_clamp_status m |}.

Definition set_trace (tr : list Event) (m : t) : t :=
  {| config := config m; db_connection := db_connection m; now := now m;
     trace := tr;
     curr_loc_id := curr_loc_id m; curr_loc_type := curr_loc_type m;
     curr_loc_time := curr_loc_time m; curr_loc_coords := curr_loc_coords m;
     prev_loc_time := prev_loc_time m; pickup_check := pickup_check m;
     correct_origins := correct_origins m; correct_dests := correct_dests m;
     pickup_history := pickup_history m; drop_history := drop_history m;
     latest_pickup_item_ids := latest_pickup_item_ids m; tasks := tasks m;
     task_completion_times := task_completion_times m;
     speed_accumulator := speed_accumulator m; carries := carries m;
     job_start_time := job_start_time m;
     previous_clamp_status := previous_clamp_status m |}.

(** The assignments of [set_loc_data]. *)
Definition set_loc (loc : Loc.t F) (m : t) : t :=
  {| config := config m; db_connection := db_connection m; now := now m;
     trace := trace m;
     curr_loc_id := Some (Loc.geo_feature_id loc);
     curr_loc_type := Some (Loc.type loc);
     curr_loc_time := Some (Loc.timestamp loc);
     curr_loc_coords := Some (mkCoords (Loc.x loc) (Loc.y loc));
     prev_loc_time := curr_loc_time m; pickup_check := pickup_check m;
     correct_origins := correct_origins m; correct_dests := correct_dests m;
     pickup_history := pickup_history m; drop_history := drop_history m;
     latest_pickup_item_ids := latest_pickup_item_ids m; tasks := tasks m;
     task_completion_times := task_completion_times m;
     speed_accumulator := speed_accumulator m ++ [Loc.speed loc];
     carries := carries m;
     job_start_time := job_start_time m;
     previous_clamp_status := previous_clamp_status m |}.

Definition set_pickup_check (b : bool) (m : t) : t :=
  {| config := config m; db_connection := db_connection m; now := now m;
     trace := trace m;
     curr_loc_id := curr_loc_id m; curr_loc_type := curr_loc_type m;
     curr_loc_time := curr_loc_time m; curr_loc_coords := curr_loc_coords m;
     prev_loc_time := prev_loc_time m; pickup_check := b;
     correct_origins := correct_origins m; correct_dests := correct_dests m;
     pickup_history := pickup_history m; drop_history := drop_history m;
     latest_pickup_item_ids := latest_pickup_item_ids m; tasks := tasks m;
     task_completion_times := task_completion_times m;
     speed_accumulator := speed_accumulator m; carries := carries m;
     job_start_time := job_start_time m;
     previous_clamp_status := previous_clamp_status m |}.

(** [correct_origins], [correct_dests] and [tasks] together: they are
    filled by [set_tasks] and emptied by [check_job]. *)
Definition set_task_lists (origins dests : list Z) (ts : list (Task.t F)) (m : t) : t :=
  {| config := config m; db_connection := db_connection m; now := now m;
     trace := trace m;
     curr_loc_id := curr_loc_id m; curr_loc_type := curr_loc_type m;
     curr_loc_time := curr_loc_time m; curr_loc_coords := curr_loc_coords m;
     prev_loc_time := prev_loc_time m; pickup_check := pickup_check m;
     correct_origins := origins; correct_dests := dests;
     pickup_history := pickup_history m; drop_history := drop_history m;
     latest_pickup_item_ids := latest_pickup_item_ids m; tasks := ts;
     task_completion_times := task_completion_times m;
     speed_accumulator := speed_accumulator m; carries := carries m;
     job_start_time := job_start_time m;
     previous_clamp_status := previous_clamp_status m |}.

Definition set_tasks_field (ts : list (Task.t F)) (m : t) : t :=
  set_task_lists (correct_origins m) (correct_dests m) ts m.

Definition set_correct_dests (dests : list Z) (m : t) : t :=
  set_task_lists (correct_origins m) dests (tasks m) m.

Definition set_histories (pickups drops ids : list Z) (m : t) : t :=
  {| config := config m; db_connection := db_connection m; now := now m;
     trace := trace m;
     curr_loc_id := curr_loc_id m; curr_loc_type := curr_loc_type m;
     curr_loc_time := curr_loc_time m; curr_loc_coords := curr_loc_coords m;
     prev_loc_time := prev_loc_time m; pickup_check := pickup_check m;
     correct_origins := correct_origins m; correct_dests := correct_dests m;
     pickup_history := pickups; drop_history := drops;
     latest_pickup_item_ids := ids; tasks := tasks m;
     task_completion_times := task_completion_times m;
     speed_accumulator := speed_accumulator m; carries := carries m;
     job_start_time := job_start_time m;
     previous_clamp_status := previous_clamp_status m |}.

Definition set_latest_pickup_item_ids (ids : list Z) (m : t) : t :=
  set_histories (pickup_history m) (drop_history m) ids m.

Definition set_speed_state (times : list (option Time)) (acc : list F) (m : t) : t :=
  {| config := config m; db_connection := db_connection m; now := now m;
     trace := trace m;
     curr_loc_id := curr_loc_id m; curr_loc_type := curr_loc_type m;
     curr_loc_time := curr_loc_time m; curr_loc_coords := curr_loc_coords m;
     prev_loc_time := prev_loc_time m; pickup_check := pickup_check m;
     correct_origins := correct_origins m; correct_dests := correct_dests m;
     pickup_history := pickup_history m; drop_history := drop_history m;
     latest_pickup_item_ids := latest_pickup_item_ids m; tasks := tasks m;
     task_completion_times := times;
     speed_accumulator := acc; carries := carries m;
     job_start_time := job_start_time m;
     previous_clamp_status := previous_clamp_status m |}.

Definition set_carries (cs : list (Carry.t F)) (m : t) : t :=
  {| config := config m; db_connection := db_connection m; now := now m;
     trace := trace m;
     curr_loc_id := curr_loc_id m; curr_loc_type := curr_loc_type m;
     curr_loc_time := curr_loc_time m; curr_loc_coords := curr_loc_coords m;
     prev_loc_time := prev_loc_time m; pickup_check := pickup_check m;
     correct_origins := correct_origins m; correct_dests := correct_dests m;
     pickup_history := pickup_history m; drop_history := drop_history m;
     latest_pickup_item_ids := latest_pickup_item_ids m; tasks := tasks m;
     task_completion_times := task_completion_times m;
     speed_accumulator := speed_accumulator m; carries := cs;
     job_start_time := job_start_time m;
     previous_clamp_status := previous_clamp_status m |}.

Definition set_previous_clamp_status (status : Z) (m : t) : t :=
  {| config := config m; db_connection := db_connection m; now := now m;
     trace := trace m;
     curr_loc_id := curr_loc_id m; curr_loc_type := curr_loc_type m;
     curr_loc_time := curr_loc_time m; curr_loc_coords := curr_loc_coords m;
     prev_loc_time := prev_loc_time m; pickup_check := pickup_check m;
     correct_origins := correct_origins m; correct_dests := correct_dests m;
     pickup_history := pickup_history m; drop_history := drop_history m;
     latest_pickup_item_ids := latest_pickup_item_ids m; tasks := tasks m;
     task_completion_times := task_completion_times m;
     speed_accumulator := speed_accumulator m; carries := carries m;
     job_start_time := job_start_time m;
     previous_clamp_status := status |}.

(** *** The monad of monitor methods *)

Inductive result (A : Type) : Type :=
| Ok (a : A) (m : t)
| Raise (e : exn) (m : t).
Arguments Ok {A}.
Arguments Raise {A}.

Definition M (A : Type) : Type := t -> result A.

Definition ret {A : Type} (a : A) : M A := fun m => Ok a m.

Definition bind {A B : Type} (c : M A) (k : A -> M B) : M B :=
  fun m => match c m with
           | Ok a m' => k a m'
           | Raise e m' => Raise e m'
           end.

Definition raise {A : Type} (e : exn) : M A := fun m => Raise e m.
Definition get : M t := fun m => Ok m m.
Definition modify (f : t -> t) : M unit := fun m => Ok tt (f m).

(** Lift a computation that either raises or returns. *)
Definition lift {A : Type} (r : exn + A) : M A :=
  match r with
  | inl e => raise e
  | inr a => ret a
  end.

Definition emit (e : Event) : M unit :=
  modify (fun m => set_trace (trace m ++ [e]) m).

(** A writing call on the handler: recorded, then applied to the tables. *)
Definition db_write (e : Event) (f : Database.t F -> Database.t F) : M unit :=
  modify (fun m => set_db (f (db_connection m)) (set_trace (trace m ++ [e]) m)).

(** The final state of a run, however it ended. *)
Definition state_of {A : Type} (r : result A) : t :=
  match r with
  | Ok _ m => m
  | Raise _ m => m
  end.

Notation "'let*' x ':=' c 'in' k" := (bind c (fun x => k))
  (at level 10, x name, c at level 100, k at level 200).
Notation "c >> k" := (bind c (fun _ => k))
  (at level 90, right associativity).

(** [if b: c] *)
Definition when (b : bool) (c : M unit) : M unit :=
  if b then c else ret tt.

(** *** Small methods *)

Definition clamp_check_enabled (m : t) : bool :=
  match curr_loc_type m with
  | Some ty => negb (String.eqb ty "aisle") && negb (String.eqb ty "charging")
  | None => true
  end.

Definition has_active_tasks (m : t) : bool :=
  existsb (fun task => negb (Task.complete task)) (tasks m).

Definition get_task_avg_speed (m : t) : F :=
  match speed_accumulator m with
  | [] => f0
  | _ => fround2 (fdiv (fsum (speed_accumulator m))
                       (fof_nat (length (speed_accumulator m))))
  end.

Definition set_loc_data (loc : Loc.t F) : M unit := modify (set_loc loc).

(** [set_tasks()], called by [__init__] only. *)
Definition set_tasks : M unit :=
  let* m := get in
  let rows := Database.get_task_data (db_connection m) in
  modify (set_task_lists
            (correct_origins m ++ map td_origin rows)
            (correct_dests m ++ map td_dest rows)
            (tasks m ++ map (fun task => Task.__init__ (td_id task) (td_model task)
                                           (td_origin task) (td_dest task)) rows))
  >> emit (Log "tasks").

(** [JobMonitor(job_id, truck_id, config)]: the fields as [__init__]
    assigns them, then [set_tasks()].  [db] is the handler that
    [Database(job_id, truck_id, config)] returns. *)
Definition __init__ (db : Database.t F) (clock : Time) : t :=
  state_of
    (set_tasks
       {| config := Database.config db; db_connection := db; now := clock;
          trace := [];
          curr_loc_id := None; curr_loc_type := None; curr_loc_time := None;
          curr_loc_coords := None; prev_loc_time := None;
          pickup_check := false;
          correct_origins := []; correct_dests := [];
          pickup_history := []; drop_history := [];
          latest_pickup_item_ids := []; tasks := [];
          task_completion_times := []; speed_accumulator := [];
          carries := []; job_start_time := clock;
          previous_clamp_status := 0 |}).

(** [is_job_active()]: [sys.exit()] once the job is deactivated. *)
Definition is_job_active : M unit :=
  let* m := get in
  if Database.is_job_active (db_connection m) then ret tt
  else emit (Log "DEACTIVATED") >> emit DB_close_db >> raise SystemExit.

Definition event_distance_check (threshold : F)
    (clamp_event_coords : option (Coords F)) : M bool :=
  let* m := get in
  let* distance := lift (get_distance (curr_loc_coords m) clamp_event_coords) in
  ret (fgtb distance threshold).

Definition create_alert (alert_type : string) (loc_id : Z)
    (wrong_items : option (list Item.t)) : M unit :=
  let* m := get in
  db_write (DB_create_alert loc_id alert_type wrong_items (curr_loc_time m))
           (Database.create_alert loc_id alert_type wrong_items (curr_loc_time m))
  >> emit (Log "alert created").

(** [self.carries[-1]] *)
Definition last_carry : M (Carry.t F) :=
  let* m := get in lift (py_last "carries" (carries m)).

(** Assign through [self.carries[-1]]. *)
Definition put_last_carry (carry : Carry.t F) : M unit :=
  modify (fun m => set_carries (set_last carry (carries m)) m).

Definition update_carry_times : M unit :=
  let* m := get in
  match prev_loc_time m with
  | None => ret tt
  | Some _ =>
      if match curr_loc_type m with
         | Some ty => String.eqb ty "stow"
         | None => false
         end
      then let* carry := last_carry in
           let* carry' := lift (Carry.add_stow_time (prev_loc_time m) (curr_loc_time m) carry) in
           put_last_carry carry'
      else if match curr_loc_type m with
              | Some ty => String.eqb ty "dock" || String.eqb ty "dockOS"
              | None => false
              end
      then let* carry := last_carry in
           let* carry' := lift (Carry.add_dock_time (prev_loc_time m) (curr_loc_time m) carry) in
           put_last_carry carry'
      else ret tt
  end.

Definition should_check_item_at_drop (item : Item.t) (m : t) : bool :=
  if Z_in (Item.id item) (latest_pickup_item_ids m) then true
  else
    let item_origin := Item.item_origin item in
    if negb (Z_in item_origin (correct_origins m))
       && Database.loc_has_active_dl_alerts item_origin (db_connection m)
    then false
    else Z_in item_origin (pickup_history m).

Definition check_pickup (curr_pickup_coords : option (Coords F))
    (curr_pickup_time : option Time) : M unit :=
  emit (Log "checking pickup load") >>
  let* m := get in
  let* fire := (if pickup_check m
           then event_distance_check (pickup_check_distance_trigger (config m))
                                     curr_pickup_coords
           else ret false) in
  let* pickup_data := (if fire
                  then lift (Database.get_pickup_data curr_pickup_coords
                               curr_pickup_time (db_connection m))
                  else ret []) in
  modify (set_pickup_check false) >>
  modify (fun m => set_latest_pickup_item_ids
                     (latest_pickup_item_ids m ++ pickup_data) m).

(** *** Trips, carries and tasks *)

(** [self.carries[-1].trips[-1].finished(location, event_time)]: the
    trip keeps what [finished] assigned to it before a [TypeError]. *)
Definition finish_last_trip (location : Z) (event_time : option Time) : M unit :=
  let* carry := last_carry in
  let* trip := lift (py_last "trips" (Carry.trips carry)) in
  match Trip.finished location event_time trip with
  | inr trip' =>
      put_last_carry (Carry.set_trips (set_last trip' (Carry.trips carry)) carry)
  | inl (e, trip') =>
      put_last_carry (Carry.set_trips (set_last trip' (Carry.trips carry)) carry)
      >> raise e
  end.

Definition finalize_trip (location : Z) (event_time : option Time)
    (carry_finished : bool) : M unit :=
  let* m := get in
  match last (carries m) with
  | None => ret tt
  | Some carry =>
      match last (Carry.trips carry) with
      | None => ret tt
      | Some trip =>
          if (Trip.origin trip =? location) && negb carry_finished then ret tt
          else
            finish_last_trip location event_time >>
            let* m1 := get in
            when (has_active_tasks m1 && negb carry_finished)
                 (let* carry1 := last_carry in
                  put_last_carry (Carry.append_trip event_time location carry1))
      end
  end.

Definition finalize_carry (location : Z) (event_time : option Time)
    (correct_item_count : nat) : M unit :=
  let* m := get in
  match last (carries m) with
  | Some carry =>
      put_last_carry (Carry.finished location correct_item_count event_time carry)
  | None => ret tt
  end >>
  let* m1 := get in
  when (has_active_tasks m1)
       (modify (fun m => set_carries
                  (carries m ++ [Carry.__init__ (Z.of_nat (length (carries m)) + 1)
                                            event_time location]) m)).

(** [finalize_task(task, item)], as the new value of the task object. *)
Definition finalize_task (task : Task.t F) (item : Item.t) (m : t) : Task.t F :=
  {| Task.task_id := Task.task_id task;
     Task.complete := true;
     Task.model := Task.model task;
     Task.item_id := Some (Item.id item);
     Task.origin := Task.origin task;
     Task.dest := Task.dest task;
     Task.start_time :=
       match last (task_completion_times m) with
       | None => Some (job_start_time m)
       | Some time => time
       end;
     Task.finish_time := curr_loc_time m;
     Task.avg_speed := Some (get_task_avg_speed m) |}.

Definition check_remaining_tasks (drop_location : Z) : M unit :=
  let* m := get in
  let incomplete_tasks :=
    List.filter (fun task => negb (Task.complete task)
                             && (Task.dest task =? drop_location)) (tasks m) in
  match incomplete_tasks with
  | _ :: _ =>
      create_alert "remaining_tasks" drop_location None >>
      emit (Log "incomplete tasks")
  | [] =>
      db_write (DB_cancel_remaining_tasks_alert drop_location)
               (Database.cancel_remaining_tasks_alert drop_location)
  end.

Definition check_job : M unit :=
  emit (Call "check_job") >>
  let* m := get in
  match tasks m with
  | [] => ret tt
  | _ :: _ =>
      if has_active_tasks m || Database.has_active_alerts (db_connection m)
      then ret tt
      else
        emit (Log "job completed") >>
        emit (Log "TASKS") >>
        emit (Log "CARRIES") >>
        db_write (DB_save_carries (carries m)) (Database.save_carries (carries m)) >>
        db_write (DB_save_job (job_start_time m) (now m) (carries m))
                 (Database.save_job (job_start_time m) (now m) (carries m)) >>
        modify (set_task_lists [] [] [])
  end.

(** *** Drop validation *)

(** The three local lists of [check_drop]. *)
Record Labels := mkLabels {
  correct_items : list Item.t;
  wrong_items : list Item.t;
  returned_items : list Item.t
}.

Definition no_labels : Labels :=
  {| correct_items := []; wrong_items := []; returned_items := [] |}.

Definition add_correct (item : Item.t) (l : Labels) : Labels :=
  {| correct_items := correct_items l ++ [item];
     wrong_items := wrong_items l; returned_items := returned_items l |}.

Definition add_wrong (item : Item.t) (l : Labels) : Labels :=
  {| correct_items := correct_items l;
     wrong_items := wrong_items l ++ [item]; returned_items := returned_items l |}.

Definition add_returned (item : Item.t) (l : Labels) : Labels :=
  {| correct_items := correct_items l;
     wrong_items := wrong_items l; returned_items := returned_items l ++ [item] |}.

(** [task.item_id == item['id']] *)
Definition bound_to (item : Item.t) (task : Task.t F) : bool :=
  match Task.item_id task with
  | Some i => i =? Item.id item
  | None => false
  end.

Definition set_item_id (i : Z) (task : Task.t F) : Task.t F :=
  {| Task.task_id := Task.task_id task; Task.complete := Task.complete task;
     Task.model := Task.model task; Task.item_id := Some i;
     Task.origin := Task.origin task; Task.dest := Task.dest task;
     Task.start_time := Task.start_time task;
     Task.finish_time := Task.finish_time task;
     Task.avg_speed := Task.avg_speed task |}.

(** [correction_task.item_id = item['id']; correction_task.complete = True] *)
Definition complete_with (item : Item.t) (task : Task.t F) : Task.t F :=
  {| Task.task_id := Task.task_id task; Task.complete := true;
     Task.model := Task.model task; Task.item_id := Some (Item.id item);
     Task.origin := Task.origin task; Task.dest := Task.dest task;
     Task.start_time := Task.start_time task;
     Task.finish_time := Task.finish_time task;
     Task.avg_speed := Task.avg_speed task |}.

(** [model_tasks], each task with its position in [self.tasks]. *)
Definition model_tasks (item : Item.t) (m : t) : list (nat * Task.t F) :=
  List.filter (fun '(_, task) => String.eqb (Task.model task) (Item.model item))
              (enumerate (tasks m)).

(** The loop that looks for an alert with [correct_loc_id == drop_location]. *)
Fixpoint find_alert (drop_location : Z) (alerts : list Row) : exn + option Row :=
  match alerts with
  | [] => inr None
  | alert :: rest =>
      match row_get "correct_loc_id" alert with
      | inl e => inl e
      | inr loc =>
          if loc =? drop_location then inr (Some alert)
          else find_alert drop_location rest
      end
  end.

Definition check_alleged_wrong_item (item : Item.t) (drop_location : Z)
    (labels : Labels) : M Labels :=
  if negb (Item.serial_lock item =? 0) then ret (add_wrong item labels)
  else
    let* m := get in
    let task_completed_by_item :=
      List.find (fun '(_, task) => Task.complete task && bound_to item task)
                (model_tasks item m) in
    let alerts := Database.get_model_alerts item (db_connection m) in
    match task_completed_by_item, alerts with
    | None, _ | Some _, [] => ret (add_wrong item labels)
    | Some (i, prior), first_alert :: _ =>
        let* choice :=
          (if negb (Task.origin prior =? drop_location) then
             let correction_task :=
               List.find (fun '(_, task) => (Task.dest task =? drop_location)
                                            && negb (Task.complete task))
                         (model_tasks item m) in
             let* alert_to_cancel := lift (find_alert drop_location alerts) in
             match correction_task, alert_to_cancel with
             | Some c, Some a => ret (Some (Some c, a))
             | _, _ => ret None
             end
           else ret (Some (None, first_alert))) in
        match choice with
        | None => ret (add_wrong item labels)
        | Some (correction_task, alert_to_cancel) =>
            let* new_item_id := lift (row_get "item_id" alert_to_cancel) in
            let prior' := set_item_id new_item_id prior in
            modify (fun m => set_tasks_field (<[ i := prior' ]> (tasks m)) m) >>
            db_write (DB_save_task prior') (Database.save_task prior') >>
            let* labels' :=
              (match correction_task with
               | Some (j, correction) =>
                   let correction' := complete_with item correction in
                   modify (fun m => set_tasks_field
                                      (<[ j := correction' ]> (tasks m)) m) >>
                   db_write (DB_save_task correction')
                            (Database.save_task correction') >>
                   ret (add_correct item labels)
               | None => ret (add_returned item labels)
               end) in
            let* alert_id := lift (row_get "id" alert_to_cancel) in
            db_write (DB_cancel_alert alert_id) (Database.cancel_alert alert_id) >>
            ret labels'
        end
    end.

(** The condition of the first branch of the task scan in [check_drop]. *)
Definition matches_task (item : Item.t) (drop_location : Z) (task : Task.t F) : bool :=
  String.eqb (Item.model item) (Task.model task)
  && (Item.serial_lock item =? 0)
  && (Item.item_origin item =? Task.origin task)
  && (drop_location =? Task.dest task).

(** The condition of its [else] branch. *)
Definition matches_task_NOE (item : Item.t) (drop_location : Z) (task : Task.t F) : bool :=
  String.eqb (Item.model item) (Task.model task)
  && (Item.serial_lock item =? 0)
  && (Item.item_origin item =? Task.origin task)
  && (drop_location =? __NOE_loc).

(** The scan over [tasks_to_check]: the task at which the loop breaks,
    and whether it broke in the NOE branch. *)
Fixpoint scan_tasks (item : Item.t) (drop_location : Z)
    (tasks_to_check : list (nat * Task.t F)) : option (nat * Task.t F * bool) :=
  match tasks_to_check with
  | [] => None
  | (i, task) :: rest =>
      if matches_task item drop_location task then Some (i, task, false)
      else if matches_task_NOE item drop_location task then Some (i, task, true)
      else scan_tasks item drop_location rest
  end.

(** [tasks_to_check = [t for t in self.tasks if not t.complete]] *)
Definition open_tasks (m : t) : list (nat * Task.t F) :=
  List.filter (fun '(_, task) => negb (Task.complete task)) (enumerate (tasks m)).

(** One iteration of the loop over the sensed items. *)
Definition classify_item (drop_location : Z) (labels : Labels) (item : Item.t)
    : M Labels :=
  let* m := get in
  if negb (should_check_item_at_drop item m) then ret labels
  else
    match scan_tasks item drop_location (open_tasks m) with
    | Some (i, task, noe) =>
        when noe (emit (Log "Finalising the NOE location drop")) >>
        db_write (DB_save_item_loc item drop_location)
                 (Database.save_item_loc item drop_location) >>
        let task' := finalize_task task item m in
        modify (fun m => set_tasks_field (<[ i := task' ]> (tasks m)) m) >>
        db_write (DB_save_task task') (Database.save_task task') >>
        ret (add_correct item labels)
    | None =>
        if negb (Item.item_origin item =? drop_location)
        then check_alleged_wrong_item item drop_location labels
        else ret (add_returned item labels)
    end.

Fixpoint classify_items (drop_location : Z) (sensed_items : list Item.t)
    (labels : Labels) : M Labels :=
  match sensed_items with
  | [] => ret labels
  | item :: rest =>
      let* labels' := classify_item drop_location labels item in
      classify_items drop_location rest labels'
  end.

(** The condition under which a wrong item reserves a task. *)
Definition reserves (wrong_item : Item.t) (task : Task.t F) : bool :=
  String.eqb (Item.model wrong_item) (Task.model task)
  && (Item.serial_lock wrong_item =? 0)
  && (Item.item_origin wrong_item =? Task.origin task).

(** The loop that gives every wrong item its [correct_loc_id]. *)
Fixpoint assign_correct_locs (incomplete_tasks : list (Task.t F))
    (checked_tasks : list Z) (wrong_items : list Item.t) : list Item.t :=
  match wrong_items with
  | [] => []
  | wrong_item :: rest =>
      let tasks_to_check :=
        List.filter (fun task => negb (Z_in (Task.task_id task) checked_tasks))
                    incomplete_tasks in
      match List.find (reserves wrong_item) tasks_to_check with
      | Some task =>
          Item.set_correct_loc_id (Task.dest task) wrong_item
          :: assign_correct_locs incomplete_tasks
               (checked_tasks ++ [Task.task_id task]) rest
      | None =>
          Item.set_correct_loc_id (Item.item_origin wrong_item) wrong_item
          :: assign_correct_locs incomplete_tasks checked_tasks rest
      end
  end.

(** A non-empty list is true. *)
Definition truthy {A : Type} (l : list A) : bool :=
  match l with
  | [] => false
  | _ :: _ => true
  end.

(** The end of [check_drop]: trip, carry, remaining tasks, job. *)
Definition finish_drop (drop_location : Z)
    (correct wrong returned : list Item.t) : M unit :=
  let* m := get in
  when ((truthy correct || truthy wrong || truthy returned)
        && Z_in drop_location (correct_dests m))
       (finalize_trip drop_location (curr_loc_time m) (truthy correct)) >>
  when (truthy correct)
       (db_write (DB_cancel_item_alerts correct)
                 (Database.cancel_item_alerts correct) >>
        finalize_carry drop_location (curr_loc_time m) (length correct) >>
        check_remaining_tasks drop_location) >>
  check_job >>
  modify (set_latest_pickup_item_ids []).

(** [check_drop] after the classification of the sensed items. *)
Definition after_classification (drop_location : Z) (labels : Labels) : M unit :=
  let* m := get in
  let incomplete_tasks :=
    List.filter (fun task => negb (Task.complete task)) (tasks m) in
  let correct := correct_items labels in
  let returned := returned_items labels in
  let wrong := assign_correct_locs incomplete_tasks [] (wrong_items labels) in
  when (truthy correct && Z_in drop_location (correct_dests m))
       (modify (set_speed_state (task_completion_times m ++ [curr_loc_time m]) [])) >>
  when (truthy returned)
       (db_write (DB_cancel_item_alerts returned)
                 (Database.cancel_item_alerts returned)) >>
  when (truthy wrong)
       (let alert_type := if Z_in drop_location (correct_dests m)
                          then "drop_items" else "drop_location" in
        emit (Log "wrong items in drop location") >>
        create_alert alert_type drop_location (Some wrong)) >>
  finish_drop drop_location correct wrong returned.

Definition check_drop (drop_location : Z) (sensed_items : list Item.t) : M unit :=
  emit (Log "checking drop load") >>
  emit (Log "Pickup set") >>
  emit (Log "Sensed items at drop") >>
  let* labels := classify_items drop_location sensed_items no_labels in
  after_classification drop_location labels.

(** *** The run loop *)

(** The local variables of [run]. *)
Record Locals := mkLocals {
  curr_pickup_coords : option (Coords F);
  curr_pickup_time : option Time;
  curr_drop_coords : option (Coords F);
  curr_drop_time : option Time;
  loc_data_start_time : Time;
  drop_check : bool;
  active_pickup_event : bool
}.

(** Their values when [run] starts. *)
Definition initial_locals (m : t) : Locals :=
  {| curr_pickup_coords := None; curr_pickup_time := None;
     curr_drop_coords := None; curr_drop_time := None;
     loc_data_start_time := job_start_time m;
     drop_check := false; active_pickup_event := false |}.

(** The truth value of an int. *)
Definition nonzero (z : Z) : bool := negb (z =? 0).

(** The two assignments of [run] that detect the clamp edges. *)
Definition drop_signal (previous_clamp_status current_clamp_status : Z) : bool :=
  if negb (nonzero (Z.land previous_clamp_status 0x40))
     && nonzero (Z.land current_clamp_status 0x40)
  then true else false.

Definition pickup_signal (previous_clamp_status current_clamp_status : Z) : bool :=
  if nonzero (Z.land previous_clamp_status 0x80)
     && negb (nonzero (Z.land current_clamp_status 0x80))
  then true else false.

(** [self.db_connection.<name>()] for a method without argument that
    returns a [bool]: the attribute is looked up on the handler. *)
Definition call_db_predicate (name : string) : M bool :=
  let* m := get in
  match Database.nullary_predicate name with
  | Some method => ret (method (db_connection m))
  | None => raise (AttributeError "Database" name)
  end.

(** The conditional expression that appends [__NOE_loc] to
    [correct_dests]; its condition is evaluated first, left to right.
    [call] is the way a predicate of the handler is called by name. *)
Definition append_NOE_dest_with (call : string -> M bool) : M unit :=
  let* cannot_place := call "has_cannot_place_alerts" in
  let* cond := (if cannot_place then ret true
                else call "has_Damaged_Item_alerts") in
  when cond (modify (fun m => set_correct_dests (correct_dests m ++ [__NOE_loc]) m)).

Definition append_NOE_dest : M unit := append_NOE_dest_with call_db_predicate.

(** [if pickup_signal: ...].  [loc_id] is [self.curr_loc_id], which
    [set_loc_data] has just assigned. *)
Definition on_pickup_signal (loc_id : Z) (locals : Locals) : M Locals :=
  emit (Log "PICKUP") >>
  let* m := get in
  if clamp_check_enabled m then
    modify (fun m => set_histories (pickup_history m ++ [loc_id]) (drop_history m)
                                   (latest_pickup_item_ids m) m) >>
    let clamp_warning_name :=
      if Z_in loc_id (correct_origins m) then "clamps_closed_event"
      else "clamps_closed_warning" in
    when (has_active_tasks m && negb (Z_in loc_id (correct_dests m)))
         (create_alert clamp_warning_name loc_id None) >>
    emit (Log "Initializing pickup distance check") >>
    modify (set_pickup_check true) >>
    let locals1 :=
      {| curr_pickup_coords := curr_loc_coords m;
         curr_pickup_time := curr_loc_time m;
         curr_drop_coords := curr_drop_coords locals;
         curr_drop_time := curr_drop_time locals;
         loc_data_start_time := loc_data_start_time locals;
         drop_check := drop_check locals;
         active_pickup_event := active_pickup_event locals |} in
    if Z_in loc_id (correct_origins m) then
      db_write (DB_cancel_alerts "clamps_closed_warning")
               (Database.cancel_alerts "clamps_closed_warning") >>
      finalize_trip loc_id (curr_loc_time m) false >>
      ret {| curr_pickup_coords := curr_pickup_coords locals1;
             curr_pickup_time := curr_pickup_time locals1;
             curr_drop_coords := curr_drop_coords locals1;
             curr_drop_time := curr_drop_time locals1;
             loc_data_start_time := loc_data_start_time locals1;
             drop_check := drop_check locals1;
             active_pickup_event := true |}
    else ret locals1
  else ret locals.

(** [if drop_signal: ...] *)
Definition on_drop_signal (loc_id : Z) (locals : Locals) : M Locals :=
  emit (Log "DROP") >>
  let* m := get in
  if clamp_check_enabled m && negb (drop_check locals) then
    check_pickup (curr_pickup_coords locals) (curr_pickup_time locals) >>
    modify (fun m => set_histories (pickup_history m) (drop_history m ++ [loc_id])
                                   (latest_pickup_item_ids m) m) >>
    emit (Log "Initializing drop distance check") >>
    append_NOE_dest >>
    let* m1 := get in
    when (Z_in loc_id (correct_dests m1))
         (db_write (DB_cancel_alerts "clamps_closed_warning")
                   (Database.cancel_alerts "clamps_closed_warning")) >>
    ret {| curr_pickup_coords := curr_pickup_coords locals;
           curr_pickup_time := curr_pickup_time locals;
           curr_drop_coords := curr_loc_coords m;
           curr_drop_time := curr_loc_time m;
           loc_data_start_time := loc_data_start_time locals;
           drop_check := true;
           active_pickup_event := active_pickup_event locals |}
  else ret locals.

(** [if drop_check and self.event_distance_check(...): ...] *)
Definition on_drop_distance (locals : Locals) : M Locals :=
  let* m := get in
  let* fire := (if drop_check locals
                then event_distance_check (drop_check_distance (config m))
                                          (curr_drop_coords locals)
                else ret false) in
  if fire then
    let* sensed_items :=
      lift (Database.get_drop_data (curr_drop_time locals) (curr_loc_time m)
                                   (db_connection m)) in
    let* drop_location := lift (py_last "drop_history" (drop_history m)) in
    check_drop drop_location sensed_items >>
    ret {| curr_pickup_coords := curr_pickup_coords locals;
           curr_pickup_time := curr_pickup_time locals;
           curr_drop_coords := curr_drop_coords locals;
           curr_drop_time := curr_drop_time locals;
           loc_data_start_time := loc_data_start_time locals;
           drop_check := false;
           active_pickup_event := active_pickup_event locals |}
  else ret locals.

(** [if active_pickup_event and self.event_distance_check(...): ...] *)
Definition on_pickup_distance (locals : Locals) : M Locals :=
  let* m := get in
  let* fire := (if active_pickup_event locals
                then event_distance_check
                       (pickup_check_distance_trigger (config m))
                       (curr_pickup_coords locals)
                else ret false) in
  if fire then
    db_write (DB_cancel_alerts "clamps_closed_event")
             (Database.cancel_alerts "clamps_closed_event") >>
    ret {| curr_pickup_coords := curr_pickup_coords locals;
           curr_pickup_time := curr_pickup_time locals;
           curr_drop_coords := curr_drop_coords locals;
           curr_drop_time := curr_drop_time locals;
           loc_data_start_time := loc_data_start_time locals;
           drop_check := drop_check locals;
           active_pickup_event := false |}
  else ret locals.

(** [self.carries[-1].trips[-1].append_speed(..)] and [.append_coords(..)] *)
Definition record_movement (loc : Loc.t F) : M unit :=
  let* m := get in
  let* carry := last_carry in
  let* trip := lift (py_last "trips" (Carry.trips carry)) in
  let trip1 := Trip.append_speed (Loc.speed loc) trip in
  put_last_carry (Carry.set_trips (set_last trip1 (Carry.trips carry)) carry) >>
  let* trip2 := lift (Trip.append_coords (curr_loc_coords m) trip1) in
  put_last_carry (Carry.set_trips (set_last trip2 (Carry.trips carry)) carry).

(** [if pickup_signal: ...] followed by [if drop_signal: ...] *)
Definition dispatch_signals (pickup drop : bool) (loc_id : Z) (locals : Locals)
    : M Locals :=
  let* locals1 := (if pickup then on_pickup_signal loc_id locals else ret locals) in
  if drop then on_drop_signal loc_id locals1 else ret locals1.

(** The body of [for loc in loc_data]. *)
Definition process_loc (loc : Loc.t F) (locals : Locals) : M Locals :=
  set_loc_data loc >>
  let loc_id := Loc.geo_feature_id loc in
  let* m := get in
  when (negb (truthy (carries m)))
       (modify (set_carries
                  (carries m ++ [Carry.__init__ 1 (curr_loc_time m) loc_id]))) >>
  update_carry_times >>
  record_movement loc >>
  let current_clamp_status := Loc.clamp_status loc in
  let drop := drop_signal (previous_clamp_status m) current_clamp_status in
  let pickup := pickup_signal (previous_clamp_status m) current_clamp_status in
  modify (set_previous_clamp_status current_clamp_status) >>
  let* locals2 := dispatch_signals pickup drop loc_id locals in
  let* locals3 := on_drop_distance locals2 in
  on_pickup_distance locals3.

Fixpoint process_all (loc_data : list (Loc.t F)) (locals : Locals) : M Locals :=
  match loc_data with
  | [] => ret locals
  | loc :: rest =>
      let* locals' := process_loc loc locals in
      process_all rest locals'
  end.

(** One iteration of [while True]. *)
Definition tick (locals : Locals) : M Locals :=
  is_job_active >>
  let* m := get in
  let loc_data :=
    Database.get_loc_data (loc_data_start_time locals) (db_connection m) in
  let* locals' := process_all loc_data locals in
  let* m' := get in
  ret (match loc_data, curr_loc_time m' with
       | _ :: _, Some time =>
           {| curr_pickup_coords := curr_pickup_coords locals';
              curr_pickup_time := curr_pickup_time locals';
              curr_drop_coords := curr_drop_coords locals';
              curr_drop_time := curr_drop_time locals';
              loc_data_start_time := time;
              drop_check := drop_check locals';
              active_pickup_event := active_pickup_event locals' |}
       | _, _ => locals'
       end).

(** *** scenario_player.py: the other driver of the monitor *)

Record ScenarioEvent := mkScenarioEvent {
  ev_type : string;
  ev_location : Z;
  ev_items : list Z
}.

Definition simulate_pickup (event : ScenarioEvent) : M unit :=
  emit (Log "Simulating pickup event") >>
  modify (fun m => set_histories (pickup_history m ++ [ev_location event])
                                 (drop_history m) (latest_pickup_item_ids m) m) >>
  let* m := get in
  when (Z_in (ev_location event) (correct_origins m))
       (finalize_trip (ev_location event) (curr_loc_time m) false) >>
  modify (fun m => set_latest_pickup_item_ids
                     (latest_pickup_item_ids m ++ ev_items event) m).

Definition simulate_drop (event : ScenarioEvent) : M unit :=
  emit (Log "Simulating drop event") >>
  modify (fun m => set_histories (pickup_history m)
                                 (drop_history m ++ [ev_location event])
                                 (latest_pickup_item_ids m) m) >>
  let* m := get in
  let sensed_items := Database.get_item_data (ev_items event) (db_connection m) in
  let* drop_location := lift (py_last "drop_history" (drop_history m)) in
  check_drop drop_location sensed_items.

Definition set_curr_loc_time (time : option Time) (m : t) : t :=
  {| config := config m; db_connection := db_connection m; now := now m;
     trace := trace m;
     curr_loc_id := curr_loc_id m; curr_loc_type := curr_loc_type m;
     curr_loc_time := time; curr_loc_coords := curr_loc_coords m;
     prev_loc_time := prev_loc_time m; pickup_check := pickup_check m;
     correct_origins := correct_origins m; correct_dests := correct_dests m;
     pickup_history := pickup_history m; drop_history := drop_history m;
     latest_pickup_item_ids := latest_pickup_item_ids m; tasks := tasks m;
     task_completion_times := task_completion_times m;
     speed_accumulator := speed_accumulator m; carries := carries m;
     job_start_time := job_start_time m;
     previous_clamp_status := previous_clamp_status m |}.

(** The body of the loop of [ScenarioPlayer.run]; [get_curr_time()]
    reads the clock. *)
Definition play_event (event : ScenarioEvent) : M unit :=
  modify (fun m => set_curr_loc_time (Some (now m)) m) >>
  if String.eqb (ev_type event) "pickup" then simulate_pickup event
  else if String.eqb (ev_type event) "drop" then simulate_drop event
  else emit (Log "Unrecognized event").

(** The first statement of [ScenarioPlayer.run]. *)
Definition start_scenario (initial_location : Z) : M unit :=
  modify (fun m => set_carries
                     (carries m ++ [Carry.__init__ 1 (Some (now m)) initial_location]) m).

(** *** Operations on a constructed monitor *)

(** The store and the clock change under the monitor: other writers
    insert location samples and RFID detections, time passes. *)
Definition set_environment (db : Database.t F) (time : Time) (m : t) : t :=
  {| config := config m; db_connection := db; now := time;
     trace := trace m;
     curr_loc_id := curr_loc_id m; curr_loc_type := curr_loc_type m;
     curr_loc_time := curr_loc_time m; curr_loc_coords := curr_loc_coords m;
     prev_loc_time := prev_loc_time m; pickup_check := pickup_check m;
     correct_origins := correct_origins m; correct_dests := correct_dests m;
     pickup_history := pickup_history m; drop_history := drop_history m;
     latest_pickup_item_ids := latest_pickup_item_ids m; tasks := tasks m;
     task_completion_times := task_completion_times m;
     speed_accumulator := speed_accumulator m; carries := carries m;
     job_start_time := job_start_time m;
     previous_clamp_status := previous_clamp_status m |}.

(** What can happen to a monitor once [__init__] has returned: an
    iteration of [run], or of its loop over the samples, the methods
    the two drivers call, and a change of the environment. *)
Inductive Op : Type :=
| OpTick
| OpProcessLoc (loc : Loc.t F)
| OpCheckPickup (coords : option (Coords F)) (time : option Time)
| OpCheckDrop (drop_location : Z) (sensed_items : list Item.t)
| OpFinalizeTrip (location : Z) (event_time : option Time) (carry_finished : bool)
| OpFinalizeCarry (location : Z) (event_time : option Time) (count : nat)
| OpCheckRemainingTasks (drop_location : Z)
| OpCreateAlert (alert_type : string) (loc_id : Z) (wrong_items : option (list Item.t))
| OpCheckJob
| OpIsJobActive
| OpStartScenario (initial_location : Z)
| OpPlayEvent (event : ScenarioEvent)
| OpEnvironment (db : Database.t F) (time : Time).

(** The monitor and the locals of [run] after an operation, whether it
    returned or raised. *)
Definition run_op (op : Op) (st : Locals * t) : Locals * t :=
  let '(locals, m) := st in
  let keep {A : Type} (r : result A) : Locals * t := (locals, state_of r) in
  let locals_of (r : result Locals) : Locals * t :=
    match r with
    | Ok locals' m' => (locals', m')
    | Raise _ m' => (locals, m')
    end in
  match op with
  | OpTick => locals_of (tick locals m)
  | OpProcessLoc loc => locals_of (process_loc loc locals m)
  | OpCheckPickup coords time => keep (check_pickup coords time m)
  | OpCheckDrop drop_location sensed_items =>
      keep (check_drop drop_location sensed_items m)
  | OpFinalizeTrip location event_time carry_finished =>
      keep (finalize_trip location event_time carry_finished m)
  | OpFinalizeCarry location event_time count =>
      keep (finalize_carry location event_time count m)
  | OpCheckRemainingTasks drop_location =>
      keep (check_remaining_tasks drop_location m)
  | OpCreateAlert alert_type loc_id wrong_items =>
      keep (create_alert alert_type loc_id wrong_items m)
  | OpCheckJob => keep (check_job m)
  | OpIsJobActive => keep (is_job_active m)
  | OpStartScenario initial_location => keep (start_scenario initial_location m)
  | OpPlayEvent event => keep (play_event event m)
  | OpEnvironment db time => (locals, set_environment db time m)
  end.

Definition run_ops (ops : list Op) (st : Locals * t) : Locals * t :=
  fold_left (fun st op => run_op op st) ops st.

(** The states a monitor goes through after its construction. *)
Inductive reachable : Locals * t -> Prop :=
| reachable_init (db : Database.t F) (clock : Time) :
    reachable (initial_locals (__init__ db clock), __init__ db clock)
| reachable_op (op : Op) (st : Locals * t) :
    reachable st -> reachable (run_op op st).
End Defs.
Arguments t : clear implicits.
Arguments Event : clear implicits.
Arguments Op : clear implicits.
Arguments Ok {F A}.
Arguments Raise {F A}.
End JobMonitor.

(** ** job_manager.py *)

Module JobManager.

Record ClampDriver := mkClampDriver { cd_id : Z; cd_clamp_id : Z }.

(** The tables behind the manager's cursor.  A row of [jobs] comes with
    its [driver_id], the column that only the manager reads. *)
Record Tables (F : Type) := mkTables {
  jobs : list (JobRow * Z);
  clamp_driver : list ClampDriver;
  job_tasks : list (JobTaskRow F)
}.
Arguments mkTables {F}.
Arguments jobs {F}.
Arguments clamp_driver {F}.
Arguments job_tasks {F}.

(** What becomes of the handle that [connect_to_db] returns. *)
Inductive Handle : Type := NotOpened | LeftOpen | Closed.

(** The reply of [start_job], by its message. *)
Inductive Reply : Type :=
| Started                 (* success: 'Job .. has been started' *)
| MissingJobId            (* error: 'Missing data: job_id=..' *)
| MissingTruckId          (* error: 'Missing data: truck_id=..' *)
| TruckHasActiveTasks     (* error: 'Cannot start job .. as truck .. has active tasks' *)
| UnexpectedException.    (* error: 'Unexpected exception when starting job ..' *)

Section Defs.
Context {F : Type}.

(** [d.get(key)] *)
Fixpoint dict_get (key : string) (d : Row) : option Z :=
  match d with
  | [] => None
  | (k, v) :: rest => if String.eqb k key then Some v else dict_get key rest
  end.

(** [get_job_truck(job_id, cursor)]: [fetchone] on the join. *)
Definition get_job_truck (job_id : Z) (tb : Tables F) : option Z :=
  match flat_map (fun '(j, driver_id) =>
          flat_map (fun d =>
            if (driver_id =? cd_id d) && (j_id j =? job_id)
            then [cd_clamp_id d] else [])
            (clamp_driver tb))
          (jobs tb) with
  | truck_id :: _ => Some truck_id
  | [] => None
  end.

(** [check_for_active_tasks(truck_id, cursor)]: whether [fetchall] on
    the join returns a row. *)
Definition check_for_active_tasks (truck_id : Z) (tb : Tables F) : bool :=
  match flat_map (fun jt =>
          flat_map (fun '(job, driver_id) =>
            flat_map (fun cd =>
              if (jt_job_id jt =? j_id job) && (driver_id =? cd_id cd)
                 && (j_active job =? 1) && (cd_clamp_id cd =? truck_id)
                 && (jt_status jt =? 0)
              then [(jt_id jt, jt_status jt)] else [])
              (clamp_driver tb))
            (jobs tb))
          (job_tasks tb) with
  | _ :: _ => true
  | [] => false
  end.

Definition set_active (active : Z) (j : JobRow) : JobRow :=
  {| j_id := j_id j; j_active := active; j_status := j_status j;
     j_start_time := j_start_time j; j_finish_time := j_finish_time j;
     j_total_carries := j_total_carries j; j_total_trips := j_total_trips j |}.

Definition set_jobs (rows : list (JobRow * Z)) (tb : Tables F) : Tables F :=
  {| jobs := rows; clamp_driver := clamp_driver tb; job_tasks := job_tasks tb |}.

(** [stop_previous_job_monitor(truck_id, db_handle, cursor)]: the
    [UPDATE] on the join changes the rows of [jobs] that have a partner. *)
Definition stop_previous_job_monitor (truck_id : Z) (tb : Tables F) : Tables F :=
  set_jobs
    (map (fun '(j, driver_id) =>
            if existsb (fun d => (driver_id =? cd_id d)
                                 && (cd_clamp_id d =? truck_id)
                                 && (j_active j =? 1))
                       (clamp_driver tb)
            then (set_active 0 j, driver_id)
            else (j, driver_id))
         (jobs tb))
    tb.

(** The [UPDATE] of [start_job_monitor(job_id, truck_id, ..)]; the
    monitor it then constructs and starts is [JobMonitor(job_id, truck_id,
    CONFIG)]. *)
Definition start_job_monitor (job_id truck_id : Z) (tb : Tables F)
    : Tables F * (Z * Z) :=
  (set_jobs
     (map (fun '(j, driver_id) =>
             if j_id j =? job_id then (set_active 1 j, driver_id)
             else (j, driver_id))
          (jobs tb))
     tb,
   (job_id, truck_id)).

(** What a request leaves behind. *)
Record Outcome := mkOutcome {
  reply : Reply;
  tables : Tables F;
  handle : Handle;
  monitor : option (Z * Z)     (* the arguments of the [JobMonitor] started *)
}.

(** [start_job()], on the JSON body of the request: an object with int
    values, or no object.  The database answers every statement; a
    connection or a statement that failed would end in the reply
    [UnexpectedException]. *)
Definition start_job (job_data : option Row) (tb : Tables F) : Outcome :=
  match job_data with
  | None =>
      (* [job_data.get] on [None] raises, and the handler catches it *)
      mkOutcome UnexpectedException tb NotOpened None
  | Some job_data =>
      match dict_get "job_id" job_data with
      | None | Some 0 =>
          (* [if not job_id]: nothing is opened yet *)
          mkOutcome MissingJobId tb NotOpened None
      | Some job_id =>
          match get_job_truck job_id tb with
          | None | Some 0 =>
              (* [if not truck_id]: returns without [db_handle.close()] *)
              mkOutcome MissingTruckId tb LeftOpen None
          | Some truck_id =>
              if check_for_active_tasks truck_id tb
              then mkOutcome TruckHasActiveTasks tb Closed None
              else
                let tb1 := stop_previous_job_monitor truck_id tb in
                let '(tb2, started) := start_job_monitor job_id truck_id tb1 in
                mkOutcome Started tb2 Closed (Some started)
          end
      end
  end.
End Defs.
End JobManager.

(** * Properties *)

(** ** Vocabulary of the specification *)

Section Vocabulary.
Context {F : Type} `{Arith F}.

(** [delta_seconds(t_early, t_late)] *)
Definition delta_seconds (t_early t_late : Time) : F :=
  total_seconds (t_late - t_early).

(** The mean of a list of numbers. *)
Definition mean (l : list F) : F := fdiv (fsum l) (fof_nat (length l)).

(** A carry on which [finished] has not been called: it comes from the
    constructor, and since then it has received trips and stow or dock
    time, and its trips have changed in place. *)
Inductive open_carry : Carry.t F -> Prop :=
| open_init carry_num start_time start_loc :
    open_carry (Carry.__init__ carry_num start_time start_loc)
| open_append_trip start_time start_loc c :
    open_carry c -> open_carry (Carry.append_trip start_time start_loc c)
| open_add_stow_time prev curr c c' :
    open_carry c -> Carry.add_stow_time prev curr c = inr c' -> open_carry c'
| open_add_dock_time prev curr c c' :
    open_carry c -> Carry.add_dock_time prev curr c = inr c' -> open_carry c'
| open_trips_changed ts c :
    open_carry c -> length ts = length (Carry.trips c) ->
    open_carry (Carry.set_trips ts c).
End Vocabulary.

(** ** Trips and carries *)

Section Models.
Context {F : Type} `{Arith F}.

Lemma accumulate_fold (ts : list (Trip.t F)) (d a : F) :
  Carry.accumulate ts d a =
  (fold_left fadd (map Trip.distance ts) d,
   fold_left fadd (map Trip.travel_time ts) a).
Proof.
  revert d a. induction ts as [|trip ts IH]; intros d a; simpl.
  - reflexivity.
  - apply IH.
Qed.

Lemma open_carry_fresh (c : Carry.t F) :
  open_carry c -> Carry.total_distance c = f0 /\ Carry.trips c <> [].
Proof.
  induction 1 as [n st sl | st sl c Hc [IHd IHt] | p q c c' Hc [IHd IHt] E
                 | p q c c' Hc [IHd IHt] E | ts c Hc [IHd IHt] Hlen].
  - split; [reflexivity | discriminate].
  - split; [exact IHd |].
    unfold Carry.append_trip; simpl. intros E.
    apply app_eq_nil in E. destruct E as [_ E]. discriminate.
  - unfold Carry.add_stow_time in E.
    destruct (get_time_delta p q); [discriminate |].
    injection E as <-. simpl. auto.
  - unfold Carry.add_dock_time in E.
    destruct (get_time_delta p q); [discriminate |].
    injection E as <-. simpl. auto.
  - split; [exact IHd |]. simpl. intros ->. simpl in Hlen.
    destruct (Carry.trips c); [congruence | discriminate].
Qed.

Lemma positive_length {A : Type} (l : list A) :
  l <> [] -> (0 <? length l)%nat = true.
Proof. destruct l; [congruence | reflexivity]. Qed.

(** C9. A carry finalized once from its open state has as total
    distance the sum of its trips' distances, as average trip distance
    that total divided by the number of trips, and as average trip time
    the sum of the trips' travel times divided by their number; a
    finalized trip has as travel time the seconds between its start and
    its finish, and as average speed the mean of its speeds rounded to
    two decimals when it has recorded any. *)
Theorem C9_finalized_aggregates
    (c : Carry.t F) (location : Z) (item_count : nat) (time : option Time)
    (trip trip' : Trip.t F) (trip_location : Z) (trip_time : option Time) :
  open_carry c ->
  Trip.finished trip_location trip_time trip = inr trip' ->
  let c' := Carry.finished location item_count time c in
  let n := fof_nat (length (Carry.trips c')) in
  (Carry.total_distance c' = fsum (map Trip.distance (Carry.trips c'))
   /\ Carry.avg_trip_distance c' = fdiv (Carry.total_distance c') n
   /\ Carry.avg_trip_time c' = fdiv (fsum (map Trip.travel_time (Carry.trips c'))) n)
  /\ (exists start finish,
        Trip.start_time trip' = Some start
        /\ Trip.finish_time trip' = Some finish
        /\ Trip.travel_time trip' = delta_seconds start finish)
  /\ (Trip.speeds trip' <> [] ->
      Trip.avg_speed trip' = fround2 (mean (Trip.speeds trip'))).
Proof.
  intros Hopen Hfin c' n.
  destruct (open_carry_fresh c Hopen) as [Hd Hts].
  split; [| split].
  - subst c' n. unfold Carry.finished.
    rewrite accumulate_fold, Hd. simpl.
    rewrite (positive_length _ Hts). unfold fsum. auto.
  - unfold Trip.finished in Hfin. simpl in Hfin.
    destruct trip_time as [f|]; [| discriminate].
    destruct (Trip.start_time trip) as [s|] eqn:Es; [| discriminate].
    injection Hfin as <-. simpl. exists s, f. auto.
  - unfold Trip.finished in Hfin. simpl in Hfin.
    destruct trip_time as [f|]; [| discriminate].
    destruct (Trip.start_time trip) as [s|]; [| discriminate].
    injection Hfin as <-. simpl.
    destruct (Trip.speeds trip); [congruence | reflexivity].
Qed.
End Models.

(** ** The clamp edge detector *)

Section ClampEdges.

Lemma land_pow2 (z n : Z) :
  0 <= n -> Z.land z (2 ^ n) = if Z.testbit z n then 2 ^ n else 0.
Proof.
  intros Hn. apply Z.bits_inj'. intros k Hk.
  rewrite Z.land_spec, Z.pow2_bits_eqb by lia.
  destruct (Z.eqb_spec n k) as [-> | Hne].
  - destruct (Z.testbit z k); simpl.
    + rewrite Z.pow2_bits_eqb by lia. symmetry. apply Z.eqb_refl.
    + symmetry. apply Z.bits_0.
  - rewrite andb_false_r. destruct (Z.testbit z n).
    + rewrite Z.pow2_bits_eqb by lia. symmetry. now apply Z.eqb_neq.
    + symmetry. apply Z.bits_0.
Qed.

Lemma nonzero_land_0x80 (z : Z) :
  JobMonitor.nonzero (Z.land z 0x80) = Z.testbit z 7.
Proof.
  change 0x80 with (2 ^ 7). rewrite land_pow2 by lia.
  destruct (Z.testbit z 7); reflexivity.
Qed.

Lemma nonzero_land_0x40 (z : Z) :
  JobMonitor.nonzero (Z.land z 0x40) = Z.testbit z 6.
Proof.
  change 0x40 with (2 ^ 6). rewrite land_pow2 by lia.
  destruct (Z.testbit z 6); reflexivity.
Qed.

Lemma pickup_signal_bits (prev curr : Z) :
  JobMonitor.pickup_signal prev curr = true <->
  Z.testbit prev 7 = true /\ Z.testbit curr 7 = false.
Proof.
  unfold JobMonitor.pickup_signal. rewrite !nonzero_land_0x80.
  destruct (Z.testbit prev 7), (Z.testbit curr 7); simpl; intuition congruence.
Qed.

Lemma drop_signal_bits (prev curr : Z) :
  JobMonitor.drop_signal prev curr = true <->
  Z.testbit prev 6 = false /\ Z.testbit curr 6 = true.
Proof.
  unfold JobMonitor.drop_signal. rewrite !nonzero_land_0x40.
  destruct (Z.testbit prev 6), (Z.testbit curr 6); simpl; intuition congruence.
Qed.
End ClampEdges.

(** ** Reasoning about monitor methods *)

Section Steps.
Import JobMonitor.
Context {F : Type} `{Arith F}.

(** A relation between the monitor before and after a method, whether
    the method returns or raises. *)
Variable R : t F -> t F -> Prop.
Hypothesis R_refl : forall m, R m m.
Hypothesis R_trans : forall a b c, R a b -> R b c -> R a c.

Definition steps {A : Type} (c : M A) : Prop :=
  forall m, R m (state_of (c m)).

Lemma steps_ret {A : Type} (a : A) : steps (ret a).
Proof. intros m. apply R_refl. Qed.

Lemma steps_raise {A : Type} (e : exn) : steps (raise (A := A) e).
Proof. intros m. apply R_refl. Qed.

Lemma steps_get : steps get.
Proof. intros m. apply R_refl. Qed.

Lemma steps_lift {A : Type} (r : exn + A) : steps (lift r).
Proof. destruct r; intros m; apply R_refl. Qed.

Lemma steps_bind {A B : Type} (c : M A) (k : A -> M B) :
  steps c -> (forall a, steps (k a)) -> steps (bind c k).
Proof.
  intros Hc Hk m. unfold bind. specialize (Hc m).
  destruct (c m) as [a m' | e m']; simpl in *.
  - eapply R_trans; [exact Hc | apply Hk].
  - exact Hc.
Qed.

Lemma steps_modify (f : t F -> t F) :
  (forall m, R m (f m)) -> steps (modify f).
Proof. intros Hf m. apply Hf. Qed.

Lemma steps_when (b : bool) (c : M unit) : steps c -> steps (when b c).
Proof. intros Hc. destruct b; [exact Hc | apply steps_ret]. Qed.

(** A method that always raises cuts off what follows it. *)
Lemma steps_bind_raises {A B : Type} (c : M A) (k : A -> M B) :
  steps c -> (forall m, exists e m', c m = Raise e m') -> steps (bind c k).
Proof.
  intros Hc Hr m. unfold bind. specialize (Hc m).
  destruct (Hr m) as (e & m' & E). rewrite E in *. exact Hc.
Qed.
End Steps.

(** One step of the proof that a method is in [steps R]; [leaf] settles
    the field updates and events, which depend on [R]. *)
Ltac steps_step leaf :=
  lazymatch goal with
  | |- steps _ (JobMonitor.ret _) => apply steps_ret; solve [eauto with steps]
  | |- steps _ (JobMonitor.raise _) => apply steps_raise; solve [eauto with steps]
  | |- steps _ JobMonitor.get => apply steps_get; solve [eauto with steps]
  | |- steps _ (JobMonitor.lift _) => apply steps_lift; solve [eauto with steps]
  | |- steps _ (JobMonitor.bind _ _) =>
      apply steps_bind; [solve [eauto with steps] | | intros ?]
  | |- steps _ (JobMonitor.when _ _) =>
      apply steps_when; [solve [eauto with steps] |]
  | |- steps _ (JobMonitor.modify _) => apply steps_modify; leaf
  | |- steps _ (JobMonitor.emit _) => apply steps_modify; leaf
  | |- steps _ (JobMonitor.db_write _ _) => apply steps_modify; leaf
  | |- steps _ (if ?b then _ else _) => destruct b
  | |- steps _ (match ?x with _ => _ end) => destruct x
  | |- steps _ (let _ := _ in _) => cbv zeta
  | |- steps _ _ => solve [eauto with steps]
  end.

Ltac steps_auto leaf := repeat (steps_step leaf).

(** ** The task lists are filled once *)

Section TaskLists.
Import JobMonitor.
Context {F : Type} `{Arith F}.

(** Either a method leaves [correct_origins] and [correct_dests] as they
    are and keeps the number of tasks, or it leaves all three empty. *)
Definition lists_kept (m m' : t F) : Prop :=
  (correct_origins m' = correct_origins m
   /\ correct_dests m' = correct_dests m
   /\ length (tasks m') = length (tasks m))
  \/ (tasks m' = [] /\ correct_origins m' = [] /\ correct_dests m' = []).

Lemma lists_kept_refl (m : t F) : lists_kept m m.
Proof. left. auto. Qed.

Lemma lists_kept_trans (a b c : t F) :
  lists_kept a b -> lists_kept b c -> lists_kept a c.
Proof.
  intros [(O1 & D1 & L1) | (T1 & O1 & D1)] [(O2 & D2 & L2) | (T2 & O2 & D2)].
  - left. repeat split; congruence.
  - right. auto.
  - right. rewrite O2, D2, O1, D1. rewrite T1 in L2.
    destruct (tasks c); [auto | discriminate].
  - right. auto.
Qed.
End TaskLists.

Create HintDb steps.
#[export] Hint Resolve lists_kept_refl lists_kept_trans : steps.

Ltac lists_leaf :=
  intros ?;
  first [ left; simpl; rewrite ?length_insert; repeat split; reflexivity
        | right; simpl; repeat split; reflexivity ].

Section TaskListsMethods.
Import JobMonitor.
Context {F : Type} `{Arith F}.

Abbreviation kept := (steps (F := F) lists_kept).

Lemma create_alert_lists ty loc ws : kept (create_alert ty loc ws).
Proof. unfold create_alert. steps_auto lists_leaf. Qed.
Hint Resolve create_alert_lists : steps.

Lemma last_carry_lists : kept (last_carry).
Proof. unfold last_carry. steps_auto lists_leaf. Qed.
Hint Resolve last_carry_lists : steps.

Lemma put_last_carry_lists c : kept (put_last_carry c).
Proof. unfold put_last_carry. steps_auto lists_leaf. Qed.
Hint Resolve put_last_carry_lists : steps.

Lemma update_carry_times_lists : kept (update_carry_times).
Proof. unfold update_carry_times. steps_auto lists_leaf. Qed.
Hint Resolve update_carry_times_lists : steps.

Lemma event_distance_check_lists th co : kept (event_distance_check th co).
Proof. unfold event_distance_check. steps_auto lists_leaf. Qed.
Hint Resolve event_distance_check_lists : steps.

Lemma check_pickup_lists co ti : kept (check_pickup co ti).
Proof. unfold check_pickup. steps_auto lists_leaf. Qed.
Hint Resolve check_pickup_lists : steps.

Lemma finish_last_trip_lists loc ti : kept (finish_last_trip loc ti).
Proof. unfold finish_last_trip. steps_auto lists_leaf. Qed.
Hint Resolve finish_last_trip_lists : steps.

Lemma finalize_trip_lists loc ti cf : kept (finalize_trip loc ti cf).
Proof. unfold finalize_trip. steps_auto lists_leaf. Qed.
Hint Resolve finalize_trip_lists : steps.

Lemma finalize_carry_lists loc ti n : kept (finalize_carry loc ti n).
Proof. unfold finalize_carry. steps_auto lists_leaf. Qed.
Hint Resolve finalize_carry_lists : steps.

Lemma check_remaining_tasks_lists loc : kept (check_remaining_tasks loc).
Proof. unfold check_remaining_tasks. steps_auto lists_leaf. Qed.
Hint Resolve check_remaining_tasks_lists : steps.

Lemma check_job_lists : kept (check_job).
Proof. unfold check_job. steps_auto lists_leaf. Qed.
Hint Resolve check_job_lists : steps.

Lemma is_job_active_lists : kept (is_job_active).
Proof. unfold is_job_active. steps_auto lists_leaf. Qed.
Hint Resolve is_job_active_lists : steps.

Lemma set_loc_data_lists loc : kept (set_loc_data loc).
Proof. unfold set_loc_data. steps_auto lists_leaf. Qed.
Hint Resolve set_loc_data_lists : steps.

Lemma check_alleged_wrong_item_lists item loc labels : kept (check_alleged_wrong_item item loc labels).
Proof. unfold check_alleged_wrong_item. steps_auto lists_leaf. Qed.
Hint Resolve check_alleged_wrong_item_lists : steps.

Lemma classify_item_lists loc labels item : kept (classify_item loc labels item).
Proof. unfold classify_item. steps_auto lists_leaf. Qed.
Hint Resolve classify_item_lists : steps.

Lemma classify_items_lists loc items labels : kept (classify_items loc items labels).
Proof. revert labels. induction items as [|item items IH]; intros labels; simpl; steps_auto lists_leaf. Qed.
Hint Resolve classify_items_lists : steps.

Lemma finish_drop_lists loc co wr re : kept (finish_drop loc co wr re).
Proof. unfold finish_drop. steps_auto lists_leaf. Qed.
Hint Resolve finish_drop_lists : steps.

Lemma after_classification_lists loc labels : kept (after_classification loc labels).
Proof. unfold after_classification. steps_auto lists_leaf. Qed.
Hint Resolve after_classification_lists : steps.

Lemma check_drop_lists loc items : kept (check_drop loc items).
Proof. unfold check_drop. steps_auto lists_leaf. Qed.
Hint Resolve check_drop_lists : steps.

Lemma append_NOE_dest_raises (m : t F) :
  append_NOE_dest m = Raise (AttributeError "Database" "has_cannot_place_alerts") m.
Proof. reflexivity. Qed.

Lemma append_NOE_dest_lists : kept (append_NOE_dest).
Proof. intros m. rewrite append_NOE_dest_raises. apply lists_kept_refl. Qed.
Hint Resolve append_NOE_dest_lists : steps.

(** Were the first predicate defined on the handler and true, the same
    expression would put the NOE location into [correct_dests]. *)
Lemma append_NOE_dest_with_predicate (call : string -> M bool) (m : t F) :
  call "has_cannot_place_alerts" m = Ok true m ->
  append_NOE_dest_with call m
  = Ok tt (set_correct_dests (correct_dests m ++ [__NOE_loc]) m).
Proof.
  intros E. unfold append_NOE_dest_with, bind. rewrite E. reflexivity.
Qed.

Lemma on_pickup_signal_lists loc locals : kept (on_pickup_signal loc locals).
Proof. unfold on_pickup_signal. steps_auto lists_leaf. Qed.
Hint Resolve on_pickup_signal_lists : steps.

Lemma on_drop_signal_lists loc locals : kept (on_drop_signal loc locals).
Proof. unfold on_drop_signal. steps_auto lists_leaf. Qed.
Hint Resolve on_drop_signal_lists : steps.

Lemma on_drop_distance_lists locals : kept (on_drop_distance locals).
Proof. unfold on_drop_distance. steps_auto lists_leaf. Qed.
Hint Resolve on_drop_distance_lists : steps.

Lemma on_pickup_distance_lists locals : kept (on_pickup_distance locals).
Proof. unfold on_pickup_distance. steps_auto lists_leaf. Qed.
Hint Resolve on_pickup_distance_lists : steps.

Lemma record_movement_lists loc : kept (record_movement loc).
Proof. unfold record_movement. steps_auto lists_leaf. Qed.
Hint Resolve record_movement_lists : steps.

Lemma dispatch_signals_lists p d loc locals : kept (dispatch_signals p d loc locals).
Proof. unfold dispatch_signals. steps_auto lists_leaf. Qed.
Hint Resolve dispatch_signals_lists : steps.

Lemma process_loc_lists loc locals : kept (process_loc loc locals).
Proof. unfold process_loc. steps_auto lists_leaf. Qed.
Hint Resolve process_loc_lists : steps.

Lemma process_all_lists locs locals : kept (process_all locs locals).
Proof. revert locals. induction locs as [|loc locs IH]; intros locals; simpl; steps_auto lists_leaf. Qed.
Hint Resolve process_all_lists : steps.

Lemma tick_lists locals : kept (tick locals).
Proof. unfold tick. steps_auto lists_leaf. Qed.
Hint Resolve tick_lists : steps.

Lemma simulate_pickup_lists ev : kept (simulate_pickup ev).
Proof. unfold simulate_pickup. steps_auto lists_leaf. Qed.
Hint Resolve simulate_pickup_lists : steps.

Lemma simulate_drop_lists ev : kept (simulate_drop ev).
Proof. unfold simulate_drop. steps_auto lists_leaf. Qed.
Hint Resolve simulate_drop_lists : steps.

Lemma play_event_lists ev : kept (play_event ev).
Proof. unfold play_event. steps_auto lists_leaf. Qed.
Hint Resolve play_event_lists : steps.

Lemma start_scenario_lists loc : kept (start_scenario loc).
Proof. unfold start_scenario. steps_auto lists_leaf. Qed.
Hint Resolve start_scenario_lists : steps.

Lemma run_op_lists (op : Op F) (st : Locals * t F) :
  lists_kept (snd st) (snd (run_op op st)).
Proof.
  destruct st as [locals m].
  destruct op; unfold run_op.
  all: try match goal with
           | |- context [state_of (?c ?m0)] =>
               let E := fresh in
               assert (E : kept c) by auto with steps; exact (E m0)
           end.
  - pose proof (tick_lists locals m) as E.
    destruct (tick locals m); exact E.
  - pose proof (process_loc_lists loc locals m) as E.
    destruct (process_loc loc locals m); exact E.
  - left. simpl. auto.
Qed.

Lemma run_ops_lists (ops : list (Op F)) (st : Locals * t F) :
  lists_kept (snd st) (snd (run_ops ops st)).
Proof.
  revert st. induction ops as [|op ops IH]; intros st; simpl.
  - apply lists_kept_refl.
  - eapply lists_kept_trans; [apply run_op_lists | apply IH].
Qed.

(** After [__init__], a monitor without tasks has no correct origin and
    no correct destination. *)
Definition lists_follow_tasks (m : t F) : Prop :=
  tasks m = [] -> correct_origins m = [] /\ correct_dests m = [].

Lemma lists_kept_follow (m m' : t F) :
  lists_kept m m' -> lists_follow_tasks m -> lists_follow_tasks m'.
Proof.
  intros [(O & D & L) | (T & O & D)] Hm E; [| auto].
  rewrite O, D. apply Hm. rewrite E in L.
  destruct (tasks m); [reflexivity | discriminate].
Qed.

Lemma init_follows (db : Database.t F) (clock : Time) :
  lists_follow_tasks (__init__ db clock).
Proof.
  unfold lists_follow_tasks, __init__, set_tasks, bind, get, modify, emit; simpl.
  destruct (Database.get_task_data db); [auto | discriminate].
Qed.

Lemma reachable_follows (st : Locals * t F) :
  reachable st -> lists_follow_tasks (snd st).
Proof.
  induction 1 as [db clock | op st Hst IH].
  - apply init_follows.
  - eapply lists_kept_follow; [apply run_op_lists | exact IH].
Qed.

End TaskListsMethods.

(** ** What a method adds to the trace *)

Section Traces.
Import JobMonitor.
Context {F : Type} `{Arith F}.

(** The trace grows by events that all satisfy [p]. *)
Definition trace_grows (p : Event F -> bool) (m m' : t F) : Prop :=
  exists tr, trace m' = trace m ++ tr /\ forallb p tr = true.

Lemma trace_grows_refl p (m : t F) : trace_grows p m m.
Proof. exists []. split; [symmetry; apply app_nil_r | reflexivity]. Qed.

Lemma trace_grows_trans p (a b c : t F) :
  trace_grows p a b -> trace_grows p b c -> trace_grows p a c.
Proof.
  intros (tr1 & E1 & P1) (tr2 & E2 & P2). exists (tr1 ++ tr2). split.
  - rewrite E2, E1. symmetry. apply app_assoc.
  - rewrite forallb_app, P1, P2. reflexivity.
Qed.

(** An alert that carries a list of items. *)
Definition is_item_alert (e : Event F) : bool :=
  match e with
  | DB_create_alert _ _ (Some _) _ => true
  | _ => false
  end.

(** Neither the log line of a drop signal nor an alert with items. *)
Definition quiet (e : Event F) : bool :=
  match e with
  | Log msg => negb (String.eqb msg "DROP")
  | DB_create_alert _ _ (Some _) _ => false
  | _ => true
  end.

Lemma quiet_no_item_alert (tr : list (Event F)) :
  forallb quiet tr = true -> List.filter is_item_alert tr = [].
Proof.
  induction tr as [|e tr IH]; simpl; [reflexivity |].
  intros E. apply andb_prop in E. destruct E as [Q E].
  rewrite (IH E). destruct e; try reflexivity.
  match type of Q with
  | quiet (DB_create_alert _ _ ?ws _) = _ => destruct ws
  end; [discriminate Q | reflexivity].
Qed.

Lemma quiet_no_drop_log (tr : list (Event F)) :
  forallb quiet tr = true -> ~ In (Log "DROP") tr.
Proof.
  induction tr as [|e tr IH]; simpl; [tauto |].
  intros E. apply andb_prop in E. destruct E as [Q E].
  intros [-> | Hin]; [discriminate Q | exact (IH E Hin)].
Qed.
End Traces.

#[export] Hint Resolve trace_grows_refl trace_grows_trans : steps.

Ltac quiet_leaf :=
  intros ?;
  first [ exists []; split; [simpl; rewrite app_nil_r; reflexivity | reflexivity]
        | eexists [_]; split; reflexivity ].

Section QuietMethods.
Import JobMonitor.
Context {F : Type} `{Arith F}.

Abbreviation silent := (steps (F := F) (trace_grows quiet)).

Lemma last_carry_quiet : silent last_carry.
Proof. unfold last_carry. steps_auto quiet_leaf. Qed.
Hint Resolve last_carry_quiet : steps.

Lemma finish_last_trip_quiet loc ti : silent (finish_last_trip loc ti).
Proof. unfold finish_last_trip, put_last_carry. steps_auto quiet_leaf. Qed.
Hint Resolve finish_last_trip_quiet : steps.

Lemma finalize_trip_quiet loc ti cf : silent (finalize_trip loc ti cf).
Proof. unfold finalize_trip, put_last_carry. steps_auto quiet_leaf. Qed.
Hint Resolve finalize_trip_quiet : steps.

Lemma finalize_carry_quiet loc ti n : silent (finalize_carry loc ti n).
Proof. unfold finalize_carry, put_last_carry. steps_auto quiet_leaf. Qed.
Hint Resolve finalize_carry_quiet : steps.

Lemma create_alert_quiet ty loc : silent (create_alert ty loc None).
Proof. unfold create_alert. steps_auto quiet_leaf. Qed.
Hint Resolve create_alert_quiet : steps.

Lemma check_remaining_tasks_quiet loc : silent (check_remaining_tasks loc).
Proof. unfold check_remaining_tasks. steps_auto quiet_leaf. Qed.
Hint Resolve check_remaining_tasks_quiet : steps.

Lemma check_job_quiet : silent check_job.
Proof. unfold check_job. steps_auto quiet_leaf. Qed.
Hint Resolve check_job_quiet : steps.

Lemma finish_drop_quiet loc co wr re : silent (finish_drop loc co wr re).
Proof. unfold finish_drop. steps_auto quiet_leaf. Qed.

Lemma on_pickup_signal_quiet loc locals : silent (on_pickup_signal loc locals).
Proof. unfold on_pickup_signal. steps_auto quiet_leaf. Qed.

Lemma on_drop_signal_logs loc locals (m : t F) :
  exists tr, trace (state_of (on_drop_signal loc locals m))
             = trace m ++ Log "DROP" :: tr.
Proof.
  unfold on_drop_signal.
  match goal with
  | |- context [bind (emit ?e) ?k] => set (rest := k)
  end.
  assert (Hrest : steps (trace_grows (fun _ => true)) (rest tt)).
  { subst rest. cbv beta.
    unfold check_pickup, event_distance_check, append_NOE_dest,
      append_NOE_dest_with, call_db_predicate.
    steps_auto ltac:(intros ?; first
      [ exists []; split; [simpl; rewrite app_nil_r; reflexivity | reflexivity]
      | eexists [_]; split; reflexivity ]). }
  unfold bind at 1. simpl.
  destruct (Hrest (set_trace (trace m ++ [Log "DROP"]) m)) as (tr & E & _).
  exists tr. rewrite E. simpl. rewrite <- app_assoc. reflexivity.
Qed.
End QuietMethods.

#[export] Hint Resolve last_carry_quiet finish_last_trip_quiet finalize_trip_quiet
  finalize_carry_quiet create_alert_quiet check_remaining_tasks_quiet
  check_job_quiet finish_drop_quiet : steps.

(** ** Trips close at a different location, or with the carry *)

Section TripClosure.
Import JobMonitor.
Context {F : Type} `{Arith F}.

End TripClosure.

(** ** The signals of a sample *)

Section Signals.
Import JobMonitor.
Context {F : Type} `{Arith F}.

Lemma on_pickup_signal_logs loc locals (m : t F) :
  exists tr, trace (state_of (on_pickup_signal loc locals m))
             = trace m ++ Log "PICKUP" :: tr
             /\ ~ In (Log "DROP") tr.
Proof.
  unfold on_pickup_signal.
  match goal with
  | |- context [bind (emit ?e) ?k] => set (rest := k)
  end.
  assert (Hrest : steps (trace_grows quiet) (rest tt)).
  { subst rest. cbv beta. steps_auto quiet_leaf. }
  unfold bind at 1. simpl.
  destruct (Hrest (set_trace (trace m ++ [Log "PICKUP"]) m)) as (tr & E & Q).
  exists tr. rewrite E. simpl. rewrite <- app_assoc.
  split; [reflexivity | now apply quiet_no_drop_log].
Qed.


Lemma check_pickup_disarmed coords time (m : t F) :
  pickup_check m = false -> exists m', check_pickup coords time m = Ok tt m'.
Proof.
  intros E. unfold check_pickup, bind, emit, modify, get, ret. simpl.
  rewrite E. simpl. eexists. reflexivity.
Qed.

(** C6. The class [Database] defines neither [has_cannot_place_alerts]
    nor [has_Damaged_Item_alerts], so a drop signal handled where items
    can be, with no drop validation pending, never returns: unless the
    pickup flush before it raises, it ends in the [AttributeError] of
    the first of these two calls. *)
Theorem C6_drop_signal_branch_raises
    (loc_id : Z) (locals : Locals) (m : t F) :
  clamp_check_enabled m = true ->
  drop_check locals = false ->
  Database.nullary_predicate (F := F) "has_cannot_place_alerts" = None
  /\ Database.nullary_predicate (F := F) "has_Damaged_Item_alerts" = None
  /\ ~ In "has_cannot_place_alerts" Database.methods
  /\ ~ In "has_Damaged_Item_alerts" Database.methods
  /\ exists e m',
       on_drop_signal loc_id locals m = Raise e m'
       /\ (pickup_check m = false ->
           e = AttributeError "Database" "has_cannot_place_alerts").
Proof.
  intros Hc Hd.
  split; [reflexivity |]. split; [reflexivity |].
  split; [simpl; intuition discriminate |].
  split; [simpl; intuition discriminate |].
  unfold on_drop_signal. unfold bind at 1. simpl.
  unfold bind at 1. simpl.
  replace (clamp_check_enabled (set_trace (trace m ++ [Log "DROP"]) m))
    with (clamp_check_enabled m) by reflexivity.
  rewrite Hc, Hd. simpl.
  unfold bind at 1.
  destruct (check_pickup _ _ _) as [[] m1 | e m1] eqn:E.
  - eexists _, _. split; [reflexivity | reflexivity].
  - eexists _, _. split; [reflexivity |].
    intros Hp.
    destruct (check_pickup_disarmed (curr_pickup_coords locals)
                (curr_pickup_time locals)
                (set_trace (trace m ++ [Log "DROP"]) m) Hp) as (m' & E').
    congruence.
Qed.
End Signals.

(** ** The RFID window of a pickup *)

Section PickupWindow.
Context {F : Type} `{Arith F}.

(** A location row at least [window] away from [coords]. *)
Definition far_from (coords : Coords F) (window : F) (row : LocRow F) : bool :=
  match get_distance (Some coords) (Some (mkCoords (l_x row) (l_y row))) with
  | inr pickup_distance => fgeb pickup_distance window
  | inl _ => false
  end.

#[local] Instance timestamp_desc_total : Total (Database.timestamp_desc (F := F)).
Proof. intros a b. unfold Database.timestamp_desc. lia. Qed.

#[local] Instance timestamp_desc_trans : Transitive (Database.timestamp_desc (F := F)).
Proof. intros a b c. unfold Database.timestamp_desc. lia. Qed.

(** On rows in descending order the scan stops at the latest far row. *)
Lemma scan_circle_latest (coords : Coords F) (window : F)
    (rows : list (LocRow F)) (default : Time) :
  StronglySorted Database.timestamp_desc rows ->
  exists start,
    Database.scan_circle (Some coords) window rows default = inr start
    /\ ((exists row, In row rows /\ far_from coords window row = true
                     /\ start = l_timestamp row
                     /\ forall row', In row' rows ->
                                     far_from coords window row' = true ->
                                     l_timestamp row' <= start)
        \/ ((forall row, In row rows -> far_from coords window row = false)
            /\ start = default)).
Proof.
  induction 1 as [|row rows Hsorted IH Hall]; simpl.
  - exists default. split; [reflexivity |]. right. split; [tauto | reflexivity].
  - destruct (fgeb _ window) eqn:Efar.
    + exists (l_timestamp row). split; [reflexivity |]. left.
      exists row. split; [now left |].
      split; [unfold far_from; simpl; exact Efar |].
      split; [reflexivity |].
      intros row' [<- | Hin] _; [lia |].
      rewrite Forall_forall in Hall. apply (Hall row').
      apply list_elem_of_In. exact Hin.
    + destruct IH as (start & Escan & Hstart).
      exists start. split; [exact Escan |].
      destruct Hstart as [(r & Hin & Hfar & Es & Hmax) | (Hnone & Es)].
      * left. exists r. split; [now right |]. split; [exact Hfar |].
        split; [exact Es |].
        intros row' [<- | Hin'] Hfar'.
        -- unfold far_from in Hfar'. simpl in Hfar'. congruence.
        -- now apply Hmax.
      * right. split; [| exact Es].
        intros row' [<- | Hin']; [exact Efar | now apply Hnone].
Qed.

Lemma loc_data_between_In (db : Database.t F) (min_time max_time : Time)
    (row : LocRow F) :
  In row (Database.loc_data_between min_time max_time db) <->
  In row (Database.loc_data db)
  /\ l_truck_id row = Database.truck_id db
  /\ min_time <= l_timestamp row <= max_time.
Proof.
  unfold Database.loc_data_between, Database.order_by_timestamp_desc.
  assert (P := merge_sort_Permutation Database.timestamp_desc
                 (List.filter (fun l => (l_truck_id l =? Database.truck_id db)
                                        && (min_time <=? l_timestamp l)
                                        && (l_timestamp l <=? max_time))
                              (Database.loc_data db))).
  split.
  - intros Hin. apply (Permutation_in _ P) in Hin.
    apply filter_In in Hin. destruct Hin as [Hin Hc].
    apply andb_prop in Hc. destruct Hc as [Hc H3].
    apply andb_prop in Hc. destruct Hc as [H1 H2].
    split; [exact Hin |]. lia.
  - intros (Hin & Ht & Hlo & Hhi).
    apply (Permutation_in _ (Permutation_sym P)).
    apply filter_In. split; [exact Hin |].
    apply andb_true_intro. split; [apply andb_true_intro; split |]; lia.
Qed.

End PickupWindow.

(** ** Classification of a sensed item *)

Section FirstSuch.
Context {A : Type}.

(** [x], at position [i], is the first element of [l] that satisfies [P]. *)
Definition first_such (P : A -> bool) (l : list A) (i : nat) (x : A) : Prop :=
  l !! i = Some x /\ P x = true
  /\ forall j y, (j < i)%nat -> l !! j = Some y -> P y = false.

Lemma first_such_unique (P : A -> bool) (l : list A) (i j : nat) (x y : A) :
  first_such P l i x -> first_such P l j y -> i = j /\ x = y.
Proof.
  intros (Li & Pi & Hi) (Lj & Pj & Hj).
  destruct (Nat.lt_trichotomy i j) as [Hlt | [-> | Hgt]].
  - rewrite (Hj i x Hlt Li) in Pi. discriminate.
  - split; [reflexivity | congruence].
  - rewrite (Hi j y Hgt Lj) in Pj. discriminate.
Qed.

Lemma first_such_exists (P : A -> bool) (l : list A) :
  (exists x, In x l /\ P x = true) -> exists i x, first_such P l i x.
Proof.
  induction l as [|a l IH]; intros (x & Hin & Px); [destruct Hin |].
  destruct (P a) eqn:Pa.
  - exists 0%nat, a. repeat split; [exact Pa |]. intros j y Hj. lia.
  - destruct IH as (i & z & Li & Pz & Hz).
    { destruct Hin as [-> | Hin]; [congruence | eauto]. }
    exists (S i), z. repeat split; [exact Li | exact Pz |].
    intros [|j] y Hj Hy; simpl in Hy.
    + injection Hy as <-. exact Pa.
    + apply (Hz j y); [lia | exact Hy].
Qed.

Lemma first_such_weaken (P Q : A -> bool) (l : list A) (i : nat) (x : A) :
  (forall y, P y = Q y) -> first_such P l i x -> first_such Q l i x.
Proof.
  intros E (Li & Px & Hx). repeat split; [exact Li | now rewrite <- E |].
  intros j y Hj Hy. rewrite <- E. eauto.
Qed.

Lemma enumerate_from_In (l : list A) (n i : nat) (x : A) :
  In (i, x) (combine (seq n (length l)) l) <->
  exists k, i = (n + k)%nat /\ l !! k = Some x.
Proof.
  revert n. induction l as [|a l IH]; intros n; simpl.
  - split; [tauto | intros (k & _ & E); discriminate].
  - rewrite IH. split.
    + intros [E | (k & -> & Hk)].
      * injection E as <- <-. exists 0%nat. split; [lia | reflexivity].
      * exists (S k). split; [lia | exact Hk].
    + intros ([|k] & -> & Hk); simpl in Hk.
      * left. injection Hk as <-. f_equal. lia.
      * right. exists k. split; [lia | exact Hk].
Qed.

Lemma enumerate_In (l : list A) (i : nat) (x : A) :
  In (i, x) (enumerate l) <-> l !! i = Some x.
Proof.
  unfold enumerate. rewrite enumerate_from_In. split.
  - intros (k & -> & Hk). exact Hk.
  - intros Hi. exists i. auto.
Qed.

Lemma In_lookup (l : list A) (x : A) : In x l -> exists i, l !! i = Some x.
Proof.
  intros Hin. apply list_elem_of_In in Hin.
  apply list_elem_of_lookup in Hin. exact Hin.
Qed.
End FirstSuch.

Section Classification.
Import JobMonitor.
Context {F : Type} `{Arith F}.

(** An open task that asks for this item at this drop location. *)
Definition wants (item : Item.t) (drop_location : Z) (task : Task.t F) : bool :=
  negb (Task.complete task) && matches_task item drop_location task.

(** An open task that takes this item at this drop location: one that
    asks for it here, or, at the NOE location, one that asks for it
    anywhere. *)
Definition takes (item : Item.t) (drop_location : Z) (task : Task.t F) : bool :=
  negb (Task.complete task)
  && (matches_task item drop_location task
      || matches_task_NOE item drop_location task).

Lemma takes_wants_away_from_NOE item drop_location (task : Task.t F) :
  drop_location <> __NOE_loc ->
  takes item drop_location task = wants item drop_location task.
Proof.
  intros Hne. unfold takes, wants, matches_task_NOE.
  apply Z.eqb_neq in Hne. rewrite Hne, !andb_false_r, orb_false_r. reflexivity.
Qed.

Lemma scan_tasks_first item drop_location (l : list (Task.t F)) (n : nat) :
  match scan_tasks item drop_location
          (List.filter (fun '(_, task) => negb (Task.complete task))
                       (combine (seq n (length l)) l)) with
  | Some (i, task, noe) =>
      exists k, i = (n + k)%nat
                /\ first_such (takes item drop_location) l k task
                /\ noe = negb (matches_task item drop_location task)
  | None => forall task, In task l -> takes item drop_location task = false
  end.
Proof.
  revert n. induction l as [|t l IH]; intros n; simpl.
  - intros task [].
  - specialize (IH (S n)).
    destruct (Task.complete t) eqn:Ec; simpl.
    + destruct (scan_tasks _ _ _) as [[[i task] noe] |].
      * destruct IH as (k & -> & (Lk & Pk & Hk) & En).
        exists (S k). split; [lia |]. split; [| exact En].
        repeat split; [exact Lk | exact Pk |].
        intros [|j] y Hj Hy; simpl in Hy.
        -- injection Hy as <-. unfold takes. rewrite Ec. reflexivity.
        -- apply (Hk j y); [lia | exact Hy].
      * intros task [<- | Hin]; [| now apply IH].
        unfold takes. rewrite Ec. reflexivity.
    + destruct (matches_task item drop_location t) eqn:Em.
      * exists 0%nat. split; [lia |]. split; [| now rewrite Em].
        repeat split; [unfold takes; now rewrite Ec, Em |].
        intros j y Hj. lia.
      * destruct (matches_task_NOE item drop_location t) eqn:En.
        -- exists 0%nat. split; [lia |]. split; [| now rewrite Em].
           repeat split; [unfold takes; now rewrite Ec, Em, En |].
           intros j y Hj. lia.
        -- destruct (scan_tasks _ _ _) as [[[i task] noe] |].
           ++ destruct IH as (k & -> & (Lk & Pk & Hk) & E).
              exists (S k). split; [lia |]. split; [| exact E].
              repeat split; [exact Lk | exact Pk |].
              intros [|j] y Hj Hy; simpl in Hy.
              ** injection Hy as <-. unfold takes. now rewrite Ec, Em, En.
              ** apply (Hk j y); [lia | exact Hy].
           ++ intros task [<- | Hin]; [| now apply IH].
              unfold takes. now rewrite Ec, Em, En.
Qed.

Lemma save_item_loc_stored (item : Item.t) (loc : Z) (db : Database.t F) :
  Database.active db = true ->
  forall row, In row (Database.items (Database.save_item_loc item loc db)) ->
              i_id row = Item.id item -> i_curr_loc_id row = loc.
Proof.
  intros Ha row Hin Hid. unfold Database.save_item_loc in Hin.
  rewrite Ha in Hin. simpl in Hin. apply in_map_iff in Hin.
  destruct Hin as (r & <- & _).
  destruct (i_id r =? Item.id item) eqn:E; simpl in *.
  - reflexivity.
  - apply Z.eqb_neq in E. contradiction.
Qed.

Lemma save_task_keeps_items (task : Task.t F) (db : Database.t F) :
  Database.items (Database.save_task task db) = Database.items db.
Proof. unfold Database.save_task. destruct (Database.active db); reflexivity. Qed.

(** C1, as the code has it. A sensed item that passes the drop filter
    while an open task asks for it at the drop location is labeled
    correct.  The task bound to it is the first open task that takes it:
    the first that asks for it at this location, except at the NOE
    location 79, where it is the first open task of its model and
    origin whatever its destination.  That task is completed with the
    item's id and the current location time as finish time, and
    [save_item_loc] and [save_task] are called, which, unless the
    handler runs dry, store the drop location as the item's location. *)
Theorem C1_matching_item_is_correct
    (drop_location : Z) (labels : Labels) (item : Item.t) (m : t F) :
  should_check_item_at_drop item m = true ->
  (exists task, In task (tasks m) /\ wants item drop_location task = true) ->
  exists i task m',
    first_such (takes item drop_location) (tasks m) i task
    /\ (drop_location <> __NOE_loc ->
        first_such (wants item drop_location) (tasks m) i task)
    /\ classify_item drop_location labels item m
       = Ok (add_correct item labels) m'
    /\ let task' := finalize_task task item m in
       tasks m' = <[ i := task' ]> (tasks m)
       /\ Task.complete task' = true
       /\ Task.item_id task' = Some (Item.id item)
       /\ Task.finish_time task' = curr_loc_time m
       /\ trace m'
          = trace m
            ++ (if matches_task item drop_location task then []
                else [Log "Finalising the NOE location drop"])
            ++ [DB_save_item_loc item drop_location; DB_save_task task']
       /\ db_connection m'
          = Database.save_task task'
              (Database.save_item_loc item drop_location (db_connection m))
       /\ (Database.active (db_connection m) = true ->
           forall row, In row (Database.items (db_connection m')) ->
                       i_id row = Item.id item ->
                       i_curr_loc_id row = drop_location).
Proof.
  intros Hcheck (wanted & Hin & Hw).
  pose proof (scan_tasks_first item drop_location (tasks m) 0) as Hscan.
  unfold classify_item, bind, get. rewrite Hcheck. simpl.
  unfold open_tasks, enumerate.
  destruct (scan_tasks _ _ _) as [[[i task] noe] |].
  - destruct Hscan as (k & -> & Hfirst & ->). simpl.
    exists k, task.
    destruct (matches_task item drop_location task) eqn:Em; simpl;
      eexists; (split; [exact Hfirst |]);
      (split; [intros Hne; eapply first_such_weaken; [| exact Hfirst];
               intros y; now apply takes_wants_away_from_NOE |]);
      (split; [reflexivity |]); simpl;
      repeat split; try reflexivity;
      try (rewrite <- !app_assoc; reflexivity);
      intros Ha row Hrow Hid;
      rewrite save_task_keeps_items in Hrow;
      eapply save_item_loc_stored; eauto.
  - exfalso. specialize (Hscan wanted Hin).
    unfold wants in Hw. unfold takes in Hscan.
    apply andb_prop in Hw. destruct Hw as [Ho Hm].
    rewrite Ho, Hm in Hscan. discriminate.
Qed.
End Classification.

(** ** The alleged-wrong swap *)

Section Swap.
Import JobMonitor.
Context {F : Type} `{Arith F}.

(** A search through the tasks of one kind, as [check_alleged_wrong_item]
    does it on [model_tasks], finds the first task of the list that is of
    that kind and is sought. *)
Lemma find_filter_first (kind sought : Task.t F -> bool)
    (l : list (Task.t F)) (n : nat) :
  match List.find (fun '(_, task) => sought task)
          (List.filter (fun '(_, task) => kind task)
                       (combine (seq n (length l)) l)) with
  | Some (i, task) =>
      exists k, i = (n + k)%nat
                /\ first_such (fun task => kind task && sought task) l k task
  | None => forall task, In task l -> kind task && sought task = false
  end.
Proof.
  revert n. induction l as [|t l IH]; intros n; simpl.
  - intros task [].
  - specialize (IH (S n)).
    destruct (kind t) eqn:Ek; simpl.
    + destruct (sought t) eqn:Es.
      * exists 0%nat. split; [lia |].
        repeat split; [now rewrite Ek, Es |]. intros j y Hj. lia.
      * destruct (List.find _ _) as [[i task] |].
        -- destruct IH as (k & -> & Lk & Pk & Hk).
           exists (S k). split; [lia |].
           repeat split; [exact Lk | exact Pk |].
           intros [|j] y Hj Hy; simpl in Hy.
           ++ injection Hy as <-. now rewrite Ek, Es.
           ++ apply (Hk j y); [lia | exact Hy].
        -- intros task [<- | Hin]; [now rewrite Ek, Es | now apply IH].
    + destruct (List.find _ _) as [[i task] |].
      * destruct IH as (k & -> & Lk & Pk & Hk).
        exists (S k). split; [lia |].
        repeat split; [exact Lk | exact Pk |].
        intros [|j] y Hj Hy; simpl in Hy.
        -- injection Hy as <-. now rewrite Ek.
        -- apply (Hk j y); [lia | exact Hy].
      * intros task [<- | Hin]; [now rewrite Ek | now apply IH].
Qed.

(** Every row of [get_model_alerts] has the one column [id]. *)
Lemma get_model_alerts_rows (item : Item.t) (db : Database.t F) (row : Row) :
  In row (Database.get_model_alerts item db) -> exists a, row = [("id", a)].
Proof.
  unfold Database.get_model_alerts. intros Hin.
  apply in_flat_map in Hin. destruct Hin as (a & _ & Hin).
  apply in_flat_map in Hin. destruct Hin as (i & _ & Hin).
  destruct (_ && _) in Hin; [| destruct Hin].
  destruct Hin as [<- | []]. eauto.
Qed.

(** A complete task of the item's model that is bound to the item. *)
Definition consumed_by (item : Item.t) (task : Task.t F) : bool :=
  String.eqb (Task.model task) (Item.model item)
  && (Task.complete task && bound_to item task).

(** An item that is serial-locked, or that no complete task of its model
    is bound to, or that no active alert matches, is confirmed wrong, and
    nothing else changes. *)
Lemma swap_confirms_wrong
    (item : Item.t) (drop_location : Z) (labels : Labels) (m : t F) :
  Item.serial_lock item <> 0
  \/ (forall task, In task (tasks m) -> consumed_by item task = false)
  \/ Database.get_model_alerts item (db_connection m) = [] ->
  check_alleged_wrong_item item drop_location labels m
  = Ok (add_wrong item labels) m.
Proof.
  intros Hcase. unfold check_alleged_wrong_item.
  destruct (Item.serial_lock item =? 0) eqn:El; simpl; [| reflexivity].
  apply Z.eqb_eq in El.
  pose proof (find_filter_first
                (fun task => String.eqb (Task.model task) (Item.model item))
                (fun task => Task.complete task && bound_to item task)
                (tasks m) 0) as Hfind.
  unfold bind at 1. simpl. unfold model_tasks, enumerate.
  destruct (List.find _ _) as [[i prior] |]; [| reflexivity].
  destruct Hcase as [Hl | [Hnone | Hempty]].
  - contradiction.
  - destruct Hfind as (k & _ & Lk & Pk & _).
    assert (Hin : In prior (tasks m)).
    { apply list_elem_of_In. apply list_elem_of_lookup. eauto. }
    specialize (Hnone prior Hin). unfold consumed_by in Hnone. congruence.
  - rewrite Hempty. reflexivity.
Qed.

(** C2, as the code runs. Once the item is not serial-locked, a
    complete task of its model is bound to it and an active alert matches
    its model at its origin, the swap never takes place: reading
    [correct_loc_id] (prior origin other than the drop location) or
    [item_id] (prior origin equal to it) from a row of [get_model_alerts]
    raises [KeyError], and the monitor is left as it was. *)
Theorem C2_swap_raises_KeyError
    (item : Item.t) (drop_location : Z) (labels : Labels) (m : t F) :
  Item.serial_lock item = 0 ->
  (exists task, In task (tasks m) /\ consumed_by item task = true) ->
  Database.get_model_alerts item (db_connection m) <> [] ->
  exists i prior,
    first_such (consumed_by item) (tasks m) i prior
    /\ check_alleged_wrong_item item drop_location labels m
       = Raise (KeyError (if Task.origin prior =? drop_location
                          then "item_id" else "correct_loc_id")) m.
Proof.
  intros Hlock (task & Hin & Hc) Halerts.
  pose proof (find_filter_first
                (fun task => String.eqb (Task.model task) (Item.model item))
                (fun task => Task.complete task && bound_to item task)
                (tasks m) 0) as Hfind.
  unfold check_alleged_wrong_item. rewrite Hlock. simpl.
  unfold bind at 1. simpl. unfold model_tasks, enumerate.
  destruct (List.find _ _) as [[i prior] |].
  - destruct Hfind as (k & -> & Hfirst). exists k, prior.
    split; [exact Hfirst |].
    destruct (Database.get_model_alerts item (db_connection m))
      as [|first_alert rest] eqn:Ea; [congruence |].
    destruct (get_model_alerts_rows item (db_connection m) first_alert)
      as (a & ->); [rewrite Ea; now left |].
    destruct (Task.origin prior =? drop_location); reflexivity.
  - specialize (Hfind task Hin). unfold consumed_by in Hc. congruence.
Qed.
End Swap.

(** ** Wrong items: their correct location and their alert *)

Section WrongItems.
Import JobMonitor.
Context {F : Type} `{Arith F}.

(** The ids of the tasks handed out so far. *)
Fixpoint ids_of (picks : list (option (Task.t F))) : list Z :=
  match picks with
  | [] => []
  | Some task :: rest => Task.task_id task :: ids_of rest
  | None :: rest => ids_of rest
  end.

(** A task that no wrong item has reserved yet and that matches this one. *)
Definition free_for (reserved : list Z) (wrong_item : Item.t) (task : Task.t F) : bool :=
  negb (Z_in (Task.task_id task) reserved) && reserves wrong_item task.

(** The location a wrong item is sent to. *)
Definition advised (wrong_item : Item.t) (pick : option (Task.t F)) : Z :=
  match pick with
  | Some task => Task.dest task
  | None => Item.item_origin wrong_item
  end.

Lemma Z_in_In (z : Z) (l : list Z) : Z_in z l = true <-> In z l.
Proof.
  unfold Z_in. rewrite existsb_exists. split.
  - intros (y & Hin & E). apply Z.eqb_eq in E. now subst.
  - intros Hin. exists z. split; [exact Hin | apply Z.eqb_refl].
Qed.

Lemma find_filter_plain {A : Type} (kind sought : A -> bool) (l : list A) :
  match List.find sought (List.filter kind l) with
  | Some x => exists i, first_such (fun y => kind y && sought y) l i x
  | None => forall y, In y l -> kind y && sought y = false
  end.
Proof.
  induction l as [|a l IH]; simpl.
  - intros y [].
  - destruct (kind a) eqn:Ek; simpl.
    + destruct (sought a) eqn:Es.
      * exists 0%nat. repeat split; [now rewrite Ek, Es |]. intros j y Hj. lia.
      * destruct (List.find _ _) as [x |].
        -- destruct IH as (i & Li & Pi & Hi). exists (S i).
           repeat split; [exact Li | exact Pi |].
           intros [|j] y Hj Hy; simpl in Hy.
           ++ injection Hy as <-. now rewrite Ek, Es.
           ++ apply (Hi j y); [lia | exact Hy].
        -- intros y [<- | Hin]; [now rewrite Ek, Es | now apply IH].
    + destruct (List.find _ _) as [x |].
      * destruct IH as (i & Li & Pi & Hi). exists (S i).
        repeat split; [exact Li | exact Pi |].
        intros [|j] y Hj Hy; simpl in Hy.
        -- injection Hy as <-. now rewrite Ek.
        -- apply (Hi j y); [lia | exact Hy].
      * intros y [<- | Hin]; [now rewrite Ek | now apply IH].
Qed.

Lemma ids_of_app (p q : list (option (Task.t F))) :
  ids_of (p ++ q) = ids_of p ++ ids_of q.
Proof.
  induction p as [|[task |] p IH]; simpl; [reflexivity | now rewrite IH | exact IH].
Qed.

(** The loop of [check_drop] over the wrong items, started with the
    reservations [checked]. *)
Lemma assign_correct_locs_picks (ts : list (Task.t F)) (ws : list Item.t) :
  forall checked : list Z,
  exists picks : list (option (Task.t F)),
    length picks = length ws
    /\ (forall k w pick,
          ws !! k = Some w -> picks !! k = Some pick ->
          assign_correct_locs ts checked ws !! k
          = Some (Item.set_correct_loc_id (advised w pick) w)
          /\ match pick with
             | Some task =>
                 exists i,
                   first_such (free_for (checked ++ ids_of (take k picks)) w) ts i task
             | None =>
                 forall task, In task ts ->
                   free_for (checked ++ ids_of (take k picks)) w task = false
             end)
    /\ (NoDup checked -> NoDup (checked ++ ids_of picks)).
Proof.
  induction ws as [|w ws IH]; intros checked.
  - exists []. split; [reflexivity |]. split.
    + intros k w pick Hk. discriminate.
    + simpl. now rewrite app_nil_r.
  - simpl.
    pose proof (find_filter_plain
                  (fun task : Task.t F => negb (Z_in (Task.task_id task) checked))
                  (reserves w) ts) as Hfind.
    destruct (List.find _ _) as [task |].
    + destruct (IH (checked ++ [Task.task_id task])) as (picks & Hlen & Hk & Hnd).
      exists (Some task :: picks). split; [simpl; now rewrite Hlen |]. split.
      * intros [|k] w' pick Hw Hp; simpl in Hw, Hp.
        -- injection Hw as <-. injection Hp as <-. simpl.
           split; [reflexivity |]. now rewrite app_nil_r.
        -- destruct (Hk k w' pick Hw Hp) as [E Hpick]. split; [exact E |].
           simpl. now rewrite <- app_assoc in Hpick.
      * intros Hc. simpl.
        replace (checked ++ Task.task_id task :: ids_of picks)
          with ((checked ++ [Task.task_id task]) ++ ids_of picks)
          by (now rewrite <- app_assoc).
        apply Hnd. apply NoDup_app. split; [exact Hc |]. split.
        -- intros z Hz Hz'. apply list_elem_of_In in Hz, Hz'.
           destruct Hz' as [<- | []].
           destruct Hfind as (i & _ & Pi & _).
           apply andb_prop in Pi. destruct Pi as [Pi _].
           apply negb_true_iff in Pi.
           apply Z_in_In in Hz. congruence.
        -- apply NoDup_singleton.
    + destruct (IH checked) as (picks & Hlen & Hk & Hnd).
      exists (None :: picks). split; [simpl; now rewrite Hlen |]. split.
      * intros [|k] w' pick Hw Hp; simpl in Hw, Hp.
        -- injection Hw as <-. injection Hp as <-. simpl.
           split; [reflexivity |]. now rewrite app_nil_r.
        -- exact (Hk k w' pick Hw Hp).
      * exact Hnd.
Qed.

Lemma truthy_assign (ts : list (Task.t F)) (checked : list Z) (ws : list Item.t) :
  truthy (assign_correct_locs ts checked ws) = truthy ws.
Proof.
  destruct ws as [|w ws]; simpl; [reflexivity |].
  destruct (List.find _ _); reflexivity.
Qed.

End WrongItems.

(** ** The end of a drop validation *)

Ltac grows_leaf :=
  intros ?;
  first [ exists []; split; [simpl; rewrite app_nil_r; reflexivity | reflexivity]
        | eexists [_]; split; reflexivity ].

Section DropEnd.
Import JobMonitor.
Context {F : Type} `{Arith F}.

Abbreviation grows := (steps (F := F) (trace_grows (fun _ => true))).

Lemma create_alert_grows ty loc ws : grows (create_alert ty loc ws).
Proof. unfold create_alert. steps_auto grows_leaf. Qed.
Hint Resolve create_alert_grows : steps.

Lemma finalize_trip_grows loc ti cf : grows (finalize_trip loc ti cf).
Proof.
  unfold finalize_trip, finish_last_trip, last_carry, put_last_carry.
  steps_auto grows_leaf.
Qed.
Hint Resolve finalize_trip_grows : steps.

Lemma finalize_carry_grows loc ti n : grows (finalize_carry loc ti n).
Proof. unfold finalize_carry, put_last_carry. steps_auto grows_leaf. Qed.
Hint Resolve finalize_carry_grows : steps.

Lemma check_remaining_tasks_grows loc : grows (check_remaining_tasks loc).
Proof. unfold check_remaining_tasks. steps_auto grows_leaf. Qed.
Hint Resolve check_remaining_tasks_grows : steps.

Lemma check_alleged_wrong_item_grows item loc labels :
  grows (check_alleged_wrong_item item loc labels).
Proof. unfold check_alleged_wrong_item. steps_auto grows_leaf. Qed.
Hint Resolve check_alleged_wrong_item_grows : steps.

Lemma classify_item_grows loc labels item : grows (classify_item loc labels item).
Proof. unfold classify_item. steps_auto grows_leaf. Qed.
Hint Resolve classify_item_grows : steps.

Lemma classify_items_grows loc items labels : grows (classify_items loc items labels).
Proof.
  revert labels. induction items as [|item items IH]; intros labels; simpl;
    steps_auto grows_leaf.
Qed.
Hint Resolve classify_items_grows : steps.

Lemma bind_Ok {A B : Type} (c : M (F := F) A) (k : A -> M B) (m m' : t F) (b : B) :
  bind c k m = Ok b m' -> exists a m1, c m = Ok a m1 /\ k a m1 = Ok b m'.
Proof.
  unfold bind. destruct (c m) as [a m1 | e m1]; [eauto | discriminate].
Qed.

(** [check_job] always returns; it logs its entry and leaves the pickup
    set alone. *)
Lemma check_job_returns (m : t F) :
  exists m' tr,
    check_job m = Ok tt m'
    /\ trace m' = trace m ++ Call "check_job" :: tr
    /\ latest_pickup_item_ids m' = latest_pickup_item_ids m.
Proof.
  unfold check_job, bind, emit, modify, get, ret. simpl.
  destruct (tasks m) as [|task rest]; simpl.
  - eexists _, []. repeat split.
  - destruct (_ || _).
    + eexists _, []. repeat split.
    + eexists _, _. split; [reflexivity |]. simpl.
      split; [| reflexivity]. rewrite <- !app_assoc. reflexivity.
Qed.

Lemma finish_drop_Ok loc co wr re (m m' : t F) :
  finish_drop loc co wr re m = Ok tt m' ->
  latest_pickup_item_ids m' = []
  /\ exists tr, trace m' = trace m ++ tr /\ In (Call "check_job") tr.
Proof.
  unfold finish_drop. intros E.
  apply bind_Ok in E. destruct E as (mg & m1 & E0 & E).
  injection E0 as <- <-.
  apply bind_Ok in E. destruct E as ([] & m2 & E1 & E).
  apply bind_Ok in E. destruct E as ([] & m3 & E2 & E).
  apply bind_Ok in E. destruct E as ([] & m4 & E3 & E).
  injection E as <-.
  destruct (check_job_returns m3) as (m4' & tr3 & E3' & T3 & _).
  rewrite E3' in E3. injection E3 as <-.
  assert (G1 : trace_grows (fun _ => true) m m2).
  { assert (S : grows (when ((truthy co || truthy wr || truthy re)
                             && Z_in loc (correct_dests m))
                         (finalize_trip loc (curr_loc_time m) (truthy co))))
      by steps_auto grows_leaf.
    specialize (S m). rewrite E1 in S. exact S. }
  assert (G2 : trace_grows (fun _ => true) m2 m3).
  { assert (S : grows (when (truthy co)
                         (bind (db_write (DB_cancel_item_alerts co)
                                  (Database.cancel_item_alerts co))
                            (fun _ => bind (finalize_carry loc (curr_loc_time m)
                                              (length co))
                                        (fun _ => check_remaining_tasks loc)))))
      by steps_auto grows_leaf.
    specialize (S m2). rewrite E2 in S. exact S. }
  destruct G1 as (tr1 & T1 & _). destruct G2 as (tr2 & T2 & _).
  split; [reflexivity |].
  exists (tr1 ++ tr2 ++ Call "check_job" :: tr3). simpl. split.
  - rewrite T3, T2, T1. rewrite <- !app_assoc. reflexivity.
  - apply in_or_app. right. apply in_or_app. right. now left.
Qed.

Lemma after_classification_Ok (drop_location : Z) (labels : Labels) (m m' : t F) :
  after_classification drop_location labels m = Ok tt m' ->
  latest_pickup_item_ids m' = []
  /\ exists tr, trace m' = trace m ++ tr /\ In (Call "check_job") tr.
Proof.
  intros E. unfold after_classification in E.
  apply bind_Ok in E. destruct E as (mg & m3 & E0 & E).
  injection E0 as <- <-. cbv zeta in E.
  apply bind_Ok in E. destruct E as ([] & m4 & E1 & E).
  apply bind_Ok in E. destruct E as ([] & m5 & E2 & E).
  apply bind_Ok in E. destruct E as ([] & m6 & E3 & E).
  destruct (finish_drop_Ok _ _ _ _ _ _ E) as (Hids & tr & T & Hin).
  split; [exact Hids |].
  assert (S1 : trace_grows (fun _ => true) m m4).
  { match type of E1 with
    | ?c m = _ => assert (S : grows c) by steps_auto grows_leaf;
                  specialize (S m); rewrite E1 in S; exact S
    end. }
  assert (S2 : trace_grows (fun _ => true) m4 m5).
  { match type of E2 with
    | ?c m4 = _ => assert (S : grows c) by steps_auto grows_leaf;
                   specialize (S m4); rewrite E2 in S; exact S
    end. }
  assert (S3 : trace_grows (fun _ => true) m5 m6).
  { match type of E3 with
    | ?c m5 = _ => assert (S : grows c) by steps_auto grows_leaf;
                   specialize (S m5); rewrite E3 in S; exact S
    end. }
  destruct S1 as (t1 & T1 & _), S2 as (t2 & T2 & _), S3 as (t3 & T3 & _).
  exists (t1 ++ t2 ++ t3 ++ tr). split.
  - rewrite T, T3, T2, T1. rewrite <- !app_assoc. reflexivity.
  - do 3 (apply in_or_app; right). exact Hin.
Qed.

(** Whenever [check_drop] returns, it has called [check_job] and the
    pickup set is empty. *)
Lemma check_drop_Ok (drop_location : Z) (sensed_items : list Item.t) (m m' : t F) :
  check_drop drop_location sensed_items m = Ok tt m' ->
  latest_pickup_item_ids m' = []
  /\ exists tr, trace m' = trace m ++ tr /\ In (Call "check_job") tr.
Proof.
  intros E. unfold check_drop in E.
  apply bind_Ok in E. destruct E as ([] & m1 & E1 & E).
  apply bind_Ok in E. destruct E as ([] & m2 & E2 & E).
  apply bind_Ok in E. destruct E as ([] & m3 & E3 & E).
  apply bind_Ok in E. destruct E as (labels & m4 & E4 & E).
  injection E1 as <-. injection E2 as <-. injection E3 as <-.
  match type of E4 with
  | _ _ _ _ ?m3 = _ =>
      pose proof (classify_items_grows drop_location sensed_items no_labels m3) as S
  end.
  rewrite E4 in S. simpl in S. destruct S as (tc & Tc & _).
  destruct (after_classification_Ok _ _ _ _ E) as (Hids & tr & T & Hin).
  split; [exact Hids |].
  eexists. split.
  - rewrite T, Tc. simpl. rewrite <- !app_assoc. reflexivity.
  - do 4 (apply in_or_app; right). exact Hin.
Qed.

Lemma should_check_ignores_trace item (tr : list (Event F)) (m : t F) :
  should_check_item_at_drop item (set_trace tr m) = should_check_item_at_drop item m.
Proof. reflexivity. Qed.

Lemma classify_items_discarded (drop_location : Z) (sensed_items : list Item.t)
    (labels : Labels) (m : t F) :
  (forall item, In item sensed_items -> should_check_item_at_drop item m = false) ->
  classify_items drop_location sensed_items labels m = Ok labels m.
Proof.
  induction sensed_items as [|item items IH]; intros Hall; simpl; [reflexivity |].
  unfold bind at 1. unfold classify_item. unfold bind at 1. simpl.
  rewrite (Hall item) by now left. simpl.
  apply IH. intros item' Hin. apply Hall. now right.
Qed.

(** A drop validation in which no sensed item passes the filter, and so
    one without sensed items, returns with the pickup set empty and
    [check_job] called. *)
Lemma check_drop_nothing_to_check (drop_location : Z)
    (sensed_items : list Item.t) (m : t F) :
  (forall item, In item sensed_items -> should_check_item_at_drop item m = false) ->
  exists m',
    check_drop drop_location sensed_items m = Ok tt m'
    /\ latest_pickup_item_ids m' = []
    /\ exists tr, trace m' = trace m ++ tr /\ In (Call "check_job") tr.
Proof.
  intros Hall.
  assert (E : exists m', check_drop drop_location sensed_items m = Ok tt m').
  { unfold check_drop. unfold bind at 1. simpl. unfold bind at 1. simpl.
    unfold bind at 1. simpl. unfold bind at 1.
    rewrite classify_items_discarded by exact Hall.
    unfold after_classification, finish_drop. simpl.
    unfold bind, when, get, modify, ret. simpl.
    match goal with
    | |- context [check_job ?m0] =>
        destruct (check_job_returns m0) as (m' & tr & -> & _)
    end.
    eexists. reflexivity. }
  destruct E as (m' & E). exists m'. split; [exact E |].
  exact (check_drop_Ok _ _ _ _ E).
Qed.
End DropEnd.

(** * The scenarios of the specification, run on the model *)

Section Scenarios.
Import JobMonitor.

Lemma reachable_run_ops {F : Type} `{Arith F} (ops : list (Op F)) (st : Locals * t F) :
  reachable st -> reachable (run_ops ops st).
Proof.
  revert st. induction ops as [|op ops IH]; intros st Hst; simpl.
  - exact Hst.
  - apply IH. apply reachable_op. exact Hst.
Qed.

Definition ex_config : Config Q :=
  {| pickup_check_distance_trigger := 5%Q; pickup_check_distance_window := 3%Q;
     pickup_post_seconds := 2%Q; drop_check_distance := 5%Q;
     drop_pre_seconds := 2%Q; rfid_wait_timeout := 10;
     activate_queries := true |}.

(** Job 1 of truck 1: one task per destination in [dests], each for one
    unit of model A from location 1; items 7 and 8 of model A lie at
    location 1. *)
Definition ex_db_with (activate_queries : bool) (dests : list Z) : Database.t Q :=
  {| Database.config := ex_config; Database.job_id := 1; Database.truck_id := 1;
     Database.active := activate_queries;
     Database.alerts := []; Database.next_alert_id := 1;
     Database.items := [mkItemRow 7 107 "A" 1 0; mkItemRow 8 108 "A" 1 0];
     Database.detected_items := []; Database.loc_data := [];
     Database.geo_features :=
       [mkGeo 1 "stow"; mkGeo 2 "dock"; mkGeo 3 "dock"; mkGeo 5 "dock";
        mkGeo 79 "stow"];
     Database.jobs := [mkJob 1 1 0 None None 0 0];
     Database.job_tasks :=
       imap (fun k _ => mkJobTask (11 + Z.of_nat k) 1 (21 + Z.of_nat k)
                                  None 0 None None None) dests;
     Database.tasks :=
       imap (fun k d => mkTaskRow (21 + Z.of_nat k) "A" 1 d 1) dests;
     Database.tasks_lists := [1];
     Database.carries := []; Database.carry_trips := [] |}.

Definition ex_db (dests : list Z) : Database.t Q := ex_db_with true dests.

Definition ex_monitor (dests : list Z) : Locals * t Q :=
  (initial_locals (__init__ (ex_db dests) 0), __init__ (ex_db dests) 0).

Definition ex_pickup (location : Z) (items : list Z) : Op Q :=
  OpPlayEvent {| ev_type := "pickup"; ev_location := location; ev_items := items |}.

Definition ex_drop (location : Z) (items : list Z) : Op Q :=
  OpPlayEvent {| ev_type := "drop"; ev_location := location; ev_items := items |}.

(** Items 7 and 8 have been picked up at location 1. *)
Definition ex_loaded (dests : list Z) : Locals * t Q :=
  run_ops [OpStartScenario 1; ex_pickup 1 [7; 8]] (ex_monitor dests).

(** The same with a handler that runs dry. *)
Definition ex_loaded_dry (dests : list Z) : Locals * t Q :=
  run_ops [OpStartScenario 1; ex_pickup 1 [7; 8]]
          (initial_locals (__init__ (ex_db_with false dests) 0),
           __init__ (ex_db_with false dests) 0).

(** Tasks 1 -> 2 and 1 -> 5.  Both items were dropped at 2: item 7
    closed the first task, item 8 raised an alert that sends it to 5.
    Then the driver picked item 7 up again at 2. *)
Definition ex_swap : Locals * t Q :=
  run_ops [ex_drop 2 [7; 8]; ex_pickup 2 [7]] (ex_loaded [2; 5]).

(** What the RFID reader senses when item 7 is then dropped at 5. *)
Definition ex_swap_sensed : list Item.t :=
  Database.get_item_data [7] (db_connection (snd ex_swap)).

Definition ex_item7 : Item.t :=
  {| Item.id := 7; Item.model := "A"; Item.item_origin := 1;
     Item.serial_lock := 0; Item.correct_loc_id := None |}.

Definition ex_item7_at_2 : Item.t :=
  {| Item.id := 7; Item.model := "A"; Item.item_origin := 2;
     Item.serial_lock := 0; Item.correct_loc_id := None |}.

(** One task 1 -> 2.  Both items were dropped at 2, the alert for item 8
    kept the job open, and the alert has since been cancelled in the
    store. *)
Definition ex_unblocked : Locals * t Q :=
  let st := run_ops [ex_drop 2 [7; 8]] (ex_loaded [2]) in
  run_op (OpEnvironment
            (Database.cancel_alerts "drop_items" (db_connection (snd st))) 10)
         st.

(** A first location sample, at the stow location 1, with the
    clamps-closed bit set. *)
Definition ex_sample : Loc.t Q :=
  {| Loc.geo_feature_id := 1; Loc.x := 0%Q; Loc.y := 0%Q; Loc.timestamp := 1000000;
     Loc.speed := 1%Q; Loc.clamp_status := 0x40; Loc.type := "stow" |}.

Lemma ex_loaded_reachable dests : reachable (ex_loaded dests).
Proof.
  unfold ex_loaded, ex_monitor.
  exact (reachable_run_ops _ _ (reachable_init _ _)).
Qed.

Lemma ex_swap_reachable : reachable ex_swap.
Proof.
  unfold ex_swap.
  exact (reachable_run_ops _ _ (ex_loaded_reachable _)).
Qed.

Lemma ex_unblocked_reachable : reachable ex_unblocked.
Proof.
  unfold ex_unblocked. cbv zeta.
  exact (reachable_op _ _ (reachable_run_ops _ _ (ex_loaded_reachable _))).
Qed.

Example ex_swap_sensed_is_item7 : ex_swap_sensed = [ex_item7_at_2].
Proof. vm_compute. reflexivity. Qed.

(** The first scenario of the specification: the one task is closed by
    item 7, the store has the item at 2, the only carry counts one unit,
    no alert exists and the job is complete. *)
Example ex_happy_path :
  let m := snd (run_ops [ex_drop 2 [7]]
                        (run_ops [OpStartScenario 1; ex_pickup 1 [7]] (ex_monitor [2]))) in
  (tasks m, correct_origins m, correct_dests m,
   Database.alerts (db_connection m),
   map i_curr_loc_id (Database.items (db_connection m)),
   map jt_item_id (Database.job_tasks (db_connection m)),
   map Carry.unit_count (carries m), latest_pickup_item_ids m)
  = ([], [], [], [], [2; 1], [Some 7], [Some 1%nat], []).
Proof. vm_compute. reflexivity. Qed.

(** The second scenario: dropped at 3, item 7 raises a [drop_location]
    alert that sends it to 2, and the task stays open. *)
Example ex_wrong_destination :
  let m := snd (run_ops [ex_drop 3 [7]]
                        (run_ops [OpStartScenario 1; ex_pickup 1 [7]] (ex_monitor [2]))) in
  (map Task.complete (tasks m),
   map (fun a => (a_type a, a_loc_id a, a_item_id a, a_correct_loc_id a, a_active a))
       (Database.alerts (db_connection m)))
  = ([false], [("drop_location", 3, Some 7, Some 2, 1)]).
Proof. vm_compute. reflexivity. Qed.

(** Location rows of truck 1 at 30 s, 50 s, 70 s and 90 s, at 9, 10, 4 and
    1 metres from the origin, and a row of truck 2. *)
Definition ex_tracks : Database.t Q :=
  {| Database.config := ex_config; Database.job_id := 1; Database.truck_id := 1;
     Database.active := true; Database.alerts := []; Database.next_alert_id := 1;
     Database.items := []; Database.detected_items := [];
     Database.loc_data :=
       [mkLocRow 1 1 10%Q 0%Q 50000000 1%Q 0; mkLocRow 1 1 1%Q 0%Q 90000000 1%Q 0;
        mkLocRow 1 1 4%Q 0%Q 70000000 1%Q 0; mkLocRow 2 1 9%Q 0%Q 95000000 1%Q 0;
        mkLocRow 1 1 9%Q 0%Q 30000000 1%Q 0];
     Database.geo_features := []; Database.jobs := []; Database.job_tasks := [];
     Database.tasks := []; Database.tasks_lists := [];
     Database.carries := []; Database.carry_trips := [] |}.

(** A pickup at the origin at 100 s, with a window radius of 3 metres and
    2 seconds after the pickup: the window runs from 70 s to 102 s. *)
Example ex_window :
  Database.load_window (Some (mkCoords 0%Q 0%Q)) (Some 100000000) ex_tracks
  = inr (70000000, 102000000).
Proof. vm_compute. reflexivity. Qed.

(** The first sample with a drop signal ends the run loop. *)
Example ex_sample_raises :
  exists m',
    process_loc ex_sample (fst (ex_monitor [2])) (snd (ex_monitor [2]))
    = Raise (AttributeError "Database" "has_cannot_place_alerts") m'.
Proof. eexists. vm_compute. reflexivity. Qed.
End Scenarios.

(** * The properties at the scenarios *)

Section AsStated.
Import JobMonitor.
Context {F : Type} `{Arith F}.

(** C1 as the specification words it: the task bound to the item is the
    first open task that asks for the item at the drop location, and the
    store holds the drop location as the item's location afterwards. *)
Definition C1_as_stated (drop_location : Z) (labels : Labels) (item : Item.t)
    (m : t F) : Prop :=
  should_check_item_at_drop item m = true ->
  forall i task,
    first_such (wants item drop_location) (tasks m) i task ->
    exists m' task',
      classify_item drop_location labels item m = Ok (add_correct item labels) m'
      /\ tasks m' !! i = Some task'
      /\ Task.complete task' = true
      /\ Task.item_id task' = Some (Item.id item)
      /\ forall row, In row (Database.items (db_connection m')) ->
                     i_id row = Item.id item -> i_curr_loc_id row = drop_location.

Lemma reachable_pair (st : Locals * t F) : reachable st -> reachable (fst st, snd st).
Proof. destruct st. exact (fun r => r). Qed.
End AsStated.

Section AtTheScenarios.
Import JobMonitor.

(** The tasks 1 -> 2 and 1 -> 79 as [set_tasks] builds them. *)
Definition ex_task_to_2 : Task.t Q := Task.__init__ 11 "A" 1 2.
Definition ex_task_to_NOE : Task.t Q := Task.__init__ 12 "A" 1 79.

(** The task 1 -> 2 once item 7 has closed it. *)
Definition ex_task_closed : Task.t Q :=
  {| Task.task_id := 11; Task.complete := true; Task.model := "A";
     Task.item_id := Some 7; Task.origin := 1; Task.dest := 2;
     Task.start_time := Some 0; Task.finish_time := Some 0;
     Task.avg_speed := Some 0%Q |}.

(** With tasks 1 -> 2 and 1 -> 79 open, item 7 from location 1 is dropped
    at the NOE location 79: the task to 79 asks for it there, yet the scan
    stops at the task to 2, which comes first, and the task to 79 stays
    open.  And with a handler that runs dry, item 7 dropped at 2 closes
    the task 1 -> 2 while the store still has it at location 1. *)
Lemma C1_counterexample :
  ~ C1_as_stated 79 no_labels ex_item7 (snd (ex_loaded [2; 79]))
  /\ ~ C1_as_stated 2 no_labels ex_item7 (snd (ex_loaded_dry [2])).
Proof.
  split.
  - intros Hs.
    assert (Hc : should_check_item_at_drop ex_item7 (snd (ex_loaded [2; 79])) = true)
      by (vm_compute; reflexivity).
    assert (Hf : first_such (wants ex_item7 79) (tasks (snd (ex_loaded [2; 79])))
                   1 ex_task_to_NOE).
    { split; [vm_compute; reflexivity |]. split; [vm_compute; reflexivity |].
      intros j y Hj Hy. assert (j = 0%nat) by lia. subst j.
      vm_compute in Hy. injection Hy as <-. vm_compute. reflexivity. }
    destruct (Hs Hc 1%nat ex_task_to_NOE Hf) as (m' & task' & E & L & C & _).
    vm_compute in E. injection E as <-.
    vm_compute in L. injection L as <-.
    discriminate C.
  - intros Hs.
    assert (Hc : should_check_item_at_drop ex_item7 (snd (ex_loaded_dry [2])) = true)
      by (vm_compute; reflexivity).
    assert (Hf : first_such (wants ex_item7 2) (tasks (snd (ex_loaded_dry [2])))
                   0 ex_task_to_2).
    { split; [vm_compute; reflexivity |]. split; [vm_compute; reflexivity |].
      intros j y Hj. lia. }
    destruct (Hs Hc 0%nat ex_task_to_2 Hf) as (m' & task' & E & _ & _ & _ & S).
    vm_compute in E. injection E as <-.
    specialize (S (mkItemRow 7 107 "A" 1 0)).
    assert (Hrow : i_curr_loc_id (mkItemRow 7 107 "A" 1 0) = 2).
    { apply S; [vm_compute; left; reflexivity | reflexivity]. }
    discriminate Hrow.
Qed.

Lemma C1_witness :
  should_check_item_at_drop ex_item7 (snd (ex_loaded [2; 5])) = true
  /\ (exists task, In task (tasks (snd (ex_loaded [2; 5])))
                   /\ wants ex_item7 2 task = true)
  /\ exists m',
       classify_item 2 no_labels ex_item7 (snd (ex_loaded [2; 5]))
       = Ok (add_correct ex_item7 no_labels) m'.
Proof.
  assert (H1 : should_check_item_at_drop ex_item7 (snd (ex_loaded [2; 5])) = true)
    by (vm_compute; reflexivity).
  assert (H2 : exists task, In task (tasks (snd (ex_loaded [2; 5])))
                            /\ wants ex_item7 2 task = true).
  { exists ex_task_to_2. split; [vm_compute; left; reflexivity | vm_compute; reflexivity]. }
  split; [exact H1 |]. split; [exact H2 |].
  destruct (C1_matching_item_is_correct 2 no_labels ex_item7
              (snd (ex_loaded [2; 5])) H1 H2)
    as (i & task & m' & _ & _ & E & _).
  exists m'. exact E.
Defined.

Lemma C2_witness :
  Item.serial_lock ex_item7_at_2 = 0
  /\ (exists task, In task (tasks (snd ex_swap))
                   /\ consumed_by ex_item7_at_2 task = true)
  /\ Database.get_model_alerts ex_item7_at_2 (db_connection (snd ex_swap)) <> []
  /\ exists key,
       check_alleged_wrong_item ex_item7_at_2 5 no_labels (snd ex_swap)
       = Raise (KeyError key) (snd ex_swap).
Proof.
  assert (H1 : Item.serial_lock ex_item7_at_2 = 0) by reflexivity.
  assert (H2 : exists task, In task (tasks (snd ex_swap))
                            /\ consumed_by ex_item7_at_2 task = true).
  { exists ex_task_closed.
    split; [vm_compute; left; reflexivity | vm_compute; reflexivity]. }
  assert (H3 : Database.get_model_alerts ex_item7_at_2 (db_connection (snd ex_swap))
               <> []) by (vm_compute; discriminate).
  split; [exact H1 |]. split; [exact H2 |]. split; [exact H3 |].
  destruct (C2_swap_raises_KeyError ex_item7_at_2 5 no_labels (snd ex_swap) H1 H2 H3)
    as (i & prior & _ & E).
  eexists. exact E.
Defined.


Lemma C6_witness :
  clamp_check_enabled (set_loc ex_sample (snd (ex_monitor [2]))) = true
  /\ drop_check (fst (ex_monitor [2])) = false
  /\ exists e m',
       on_drop_signal 1 (fst (ex_monitor [2]))
         (set_loc ex_sample (snd (ex_monitor [2])))
       = Raise e m'.
Proof.
  assert (H1 : clamp_check_enabled (set_loc ex_sample (snd (ex_monitor [2]))) = true)
    by reflexivity.
  assert (H2 : drop_check (fst (ex_monitor [2])) = false) by reflexivity.
  split; [exact H1 |]. split; [exact H2 |].
  destruct (C6_drop_signal_branch_raises 1 (fst (ex_monitor [2]))
              (set_loc ex_sample (snd (ex_monitor [2]))) H1 H2)
    as (_ & _ & _ & _ & e & m' & E & _).
  exists e, m'. exact E.
Defined.


(** A trip that recorded the speeds 1 and 2, and its value once it is
    finished at location 2 after five seconds. *)
Definition ex_trip : Trip.t Q :=
  Trip.append_speed 2%Q (Trip.append_speed 1%Q (Trip.__init__ 1 (Some 0) 1)).

Definition ex_trip_finished : Trip.t Q :=
  {| Trip.carry_num := 1; Trip.start_time := Some 0;
     Trip.finish_time := Some 5000000; Trip.origin := 1; Trip.dest := Some 2;
     Trip.travel_time := total_seconds 5000000; Trip.distance := 0%Q;
     Trip.avg_speed := fround2 (fdiv (fsum [1%Q; 2%Q]) (fof_nat 2));
     Trip.speeds := [1%Q; 2%Q]; Trip.latest_coords := None |}.

Lemma C9_witness :
  open_carry (Carry.__init__ (F := Q) 1 (Some 0) 1)
  /\ Trip.finished 2 (Some 5000000) ex_trip = inr ex_trip_finished
  /\ Carry.avg_trip_time (Carry.finished 2 1 (Some 5000000) (Carry.__init__ 1 (Some 0) 1))
     = fdiv (fsum (map Trip.travel_time
                     (Carry.trips (Carry.finished (F := Q) 2 1 (Some 5000000)
                                     (Carry.__init__ 1 (Some 0) 1)))))
            (fof_nat 1)
  /\ Trip.avg_speed ex_trip_finished = fround2 (mean [1%Q; 2%Q]).
Proof.
  assert (H1 : open_carry (Carry.__init__ (F := Q) 1 (Some 0) 1)) by constructor.
  assert (H2 : Trip.finished 2 (Some 5000000) ex_trip = inr ex_trip_finished)
    by reflexivity.
  split; [exact H1 |]. split; [exact H2 |].
  destruct (C9_finalized_aggregates (Carry.__init__ 1 (Some 0) 1) 2 1 (Some 5000000)
              ex_trip ex_trip_finished 2 (Some 5000000) H1 H2)
    as ((_ & _ & E) & _ & S).
  split; [exact E |]. apply S. discriminate.
Defined.

(** C10, at the third scenario of the specification. When item 7, which
    had closed the task 1 -> 2, is dropped at 5, the swap reads
    [correct_loc_id] from a row that has only [id]: [check_drop] ends in
    that [KeyError], having logged its three opening lines and no more;
    [check_job] is not called and the pickup set still holds item 7. *)
Theorem C10_check_drop_aborts_in_the_swap :
  reachable ex_swap
  /\ latest_pickup_item_ids (snd ex_swap) = [7]
  /\ exists m',
       check_drop 5 ex_swap_sensed (snd ex_swap)
       = Raise (KeyError "correct_loc_id") m'
       /\ latest_pickup_item_ids m' = [7]
       /\ trace m'
          = trace (snd ex_swap)
            ++ [Log "checking drop load"; Log "Pickup set";
                Log "Sensed items at drop"]
       /\ ~ In (Call "check_job")
               [Log (F := Q) "checking drop load"; Log "Pickup set";
                Log "Sensed items at drop"].
Proof.
  split; [exact ex_swap_reachable |].
  split; [vm_compute; reflexivity |].
  eexists. split; [vm_compute; reflexivity |].
  split; [vm_compute; reflexivity |].
  split; [vm_compute; reflexivity |].
  simpl. intuition discriminate.
Qed.
End AtTheScenarios.

(** * Further properties of the code *)

(** ** The handler's writes *)

Section HandlerWrites.
Context {F : Type} `{Arith F}.

Lemma save_trips_dry (carries_ : list (Carry.t F)) (db : Database.t F) :
  Database.active db = false ->
  fold_left (fun db carry => Database.__save_trips carry db) carries_ db = db.
Proof.
  intros Ha. induction carries_ as [|carry rest IH]; simpl; [reflexivity |].
  unfold Database.__save_trips at 2. rewrite Ha. exact IH.
Qed.

Lemma cancel_item_alerts_dry (items : list Item.t) (db : Database.t F) :
  Database.active db = false -> Database.cancel_item_alerts items db = db.
Proof. intros Ha. unfold Database.cancel_item_alerts. now rewrite Ha. Qed.

Lemma handler_dry (db : Database.t F) :
  Database.active db = false ->
  (forall item loc, Database.save_item_loc item loc db = db)
  /\ (forall loc ty ws time, Database.create_alert loc ty ws time db = db)
  /\ (forall alert_id, Database.cancel_alert alert_id db = db)
  /\ (forall ty, Database.cancel_alerts ty db = db)
  /\ (forall items, Database.cancel_item_alerts items db = db)
  /\ (forall model loc, Database.cancel_model_alerts model loc db = db)
  /\ (forall loc, Database.cancel_remaining_tasks_alert loc db = db)
  /\ (forall start finish carries, Database.save_job start finish carries db = db)
  /\ (forall task, Database.save_task task db = db)
  /\ (forall carries, Database.save_carries carries db = db).
Proof.
  intros Ha.
  repeat split; intros;
    try (unfold Database.save_item_loc, Database.create_alert,
           Database.cancel_alert, Database.cancel_alerts,
           Database.cancel_model_alerts, Database.cancel_remaining_tasks_alert,
           Database.save_job, Database.save_task;
         rewrite Ha; reflexivity).
  - now apply cancel_item_alerts_dry.
  - unfold Database.save_carries. rewrite Ha. now apply save_trips_dry.
Qed.

(** X1. A handler built with [activate_queries] false changes no table:
    each of its ten writing methods returns it as it was. *)
Theorem X1_dry_run_changes_nothing (db : Database.t F) :
  Database.active db = false ->
  (forall item loc, Database.save_item_loc item loc db = db)
  /\ (forall loc ty ws time, Database.create_alert loc ty ws time db = db)
  /\ (forall alert_id, Database.cancel_alert alert_id db = db)
  /\ (forall ty, Database.cancel_alerts ty db = db)
  /\ (forall items, Database.cancel_item_alerts items db = db)
  /\ (forall model loc, Database.cancel_model_alerts model loc db = db)
  /\ (forall loc, Database.cancel_remaining_tasks_alert loc db = db)
  /\ (forall start finish carries, Database.save_job start finish carries db = db)
  /\ (forall task, Database.save_task task db = db)
  /\ (forall carries, Database.save_carries carries db = db).
Proof. apply handler_dry. Qed.

(** The rows that [create_alert] builds for a non-empty list. *)
Lemma alert_rows_lookup loc ty time job (items : list Item.t) :
  forall (next : Z) (k : nat) (row : AlertRow),
    Database.alert_rows loc ty time job next items !! k = Some row ->
    exists item,
      items !! k = Some item
      /\ row = {| a_id := next + Z.of_nat k; a_loc_id := loc;
                  a_item_id := Some (Item.id item); a_job_id := job;
                  a_timestamp := time; a_type := ty; a_active := 1;
                  a_correct_loc_id := Item.correct_loc_id item |}.
Proof.
  induction items as [|item items IH]; intros next k row Hk; [discriminate |].
  destruct k as [|k]; simpl in Hk.
  - injection Hk as <-. exists item. split; [reflexivity |].
    now rewrite Z.add_0_r.
  - destruct (IH (next + 1) k row Hk) as (item' & Hi & ->).
    exists item'. split; [exact Hi |]. f_equal. lia.
Qed.

Lemma alert_rows_length loc ty time job (items : list Item.t) (next : Z) :
  length (Database.alert_rows loc ty time job next items) = length items.
Proof.
  revert next. induction items as [|item items IH]; intros next; simpl;
    [reflexivity | now rewrite IH].
Qed.

(** The number of rows one call of [create_alert] inserts. *)
Definition alert_count (wrong_items : option (list Item.t)) : nat :=
  match wrong_items with
  | None | Some [] => 1
  | Some l => length l
  end.

Lemma create_alert_appends
    (loc : Z) (ty : string) (wrong_items : option (list Item.t))
    (time : option Time) (db : Database.t F) :
  Database.active db = true ->
  exists new,
    Database.alerts (Database.create_alert loc ty wrong_items time db)
    = Database.alerts db ++ new
    /\ length new = alert_count wrong_items
    /\ Database.next_alert_id (Database.create_alert loc ty wrong_items time db)
       = Database.next_alert_id db + Z.of_nat (alert_count wrong_items)
    /\ forall k row,
         new !! k = Some row ->
         a_id row = Database.next_alert_id db + Z.of_nat k
         /\ a_active row = 1 /\ a_loc_id row = loc /\ a_type row = ty
         /\ a_job_id row = Database.job_id db /\ a_timestamp row = time
         /\ match wrong_items with
            | None | Some [] => a_item_id row = None /\ a_correct_loc_id row = None
            | Some l =>
                exists item, l !! k = Some item
                             /\ a_item_id row = Some (Item.id item)
                             /\ a_correct_loc_id row = Item.correct_loc_id item
            end.
Proof.
  intros Ha. unfold Database.create_alert. rewrite Ha.
  destruct wrong_items as [[|item items] |]; simpl.
  - eexists. split; [reflexivity |]. split; [reflexivity |].
    split; [reflexivity |].
    intros [|k] row Hk; [| discriminate]. injection Hk as <-. simpl.
    rewrite Z.add_0_r. auto 10.
  - eexists. split; [reflexivity |]. simpl. rewrite alert_rows_length.
    split; [reflexivity |]. split; [reflexivity |].
    intros k row Hk.
    change ({| a_id := Database.next_alert_id db; a_loc_id := loc;
               a_item_id := Some (Item.id item);
               a_job_id := Database.job_id db; a_timestamp := time;
               a_type := ty; a_active := 1;
               a_correct_loc_id := Item.correct_loc_id item |}
            :: Database.alert_rows loc ty time (Database.job_id db)
                 (Database.next_alert_id db + 1) items)
      with (Database.alert_rows loc ty time (Database.job_id db)
              (Database.next_alert_id db) (item :: items)) in Hk.
    destruct (alert_rows_lookup _ _ _ _ _ _ _ _ Hk) as (it & Hi & ->). simpl.
    repeat split; try reflexivity. exists it. auto.
  - eexists. split; [reflexivity |]. split; [reflexivity |].
    split; [reflexivity |].
    intros [|k] row Hk; [| discriminate]. injection Hk as <-. simpl.
    rewrite Z.add_0_r. auto 10.
Qed.

(** X2. On a writing handler [create_alert] keeps the alerts it finds
    and appends its own: one row per wrong item, with the item's id and
    [correct_loc_id], or a single row without item when the list is
    missing or empty.  The new rows are active, belong to the job, and are
    numbered from the next free alert id on. *)
Theorem X2_create_alert_rows
    (loc : Z) (ty : string) (wrong_items : option (list Item.t))
    (time : option Time) (db : Database.t F) :
  Database.active db = true ->
  exists new,
    Database.alerts (Database.create_alert loc ty wrong_items time db)
    = Database.alerts db ++ new
    /\ length new = alert_count wrong_items
    /\ Database.next_alert_id (Database.create_alert loc ty wrong_items time db)
       = Database.next_alert_id db + Z.of_nat (alert_count wrong_items)
    /\ forall k row,
         new !! k = Some row ->
         a_id row = Database.next_alert_id db + Z.of_nat k
         /\ a_active row = 1 /\ a_loc_id row = loc /\ a_type row = ty
         /\ a_job_id row = Database.job_id db /\ a_timestamp row = time
         /\ match wrong_items with
            | None | Some [] => a_item_id row = None /\ a_correct_loc_id row = None
            | Some l =>
                exists item, l !! k = Some item
                             /\ a_item_id row = Some (Item.id item)
                             /\ a_correct_loc_id row = Item.correct_loc_id item
            end.
Proof. apply create_alert_appends. Qed.
End HandlerWrites.

(** ** Alerts: cancelling and asking *)

Section HandlerAlerts.
Context {F : Type} `{Arith F}.

(** An alert row once it is cancelled. *)
Definition cancelled (a : AlertRow) : AlertRow :=
  {| a_id := a_id a; a_loc_id := a_loc_id a; a_item_id := a_item_id a;
     a_job_id := a_job_id a; a_timestamp := a_timestamp a; a_type := a_type a;
     a_active := 0; a_correct_loc_id := a_correct_loc_id a |}.

Lemma deactivate_alerts (cond : AlertRow -> bool) (db : Database.t F) :
  Database.alerts (Database.deactivate cond db)
  = map (fun a => if (a_job_id a =? Database.job_id db) && cond a
                  then cancelled a else a)
        (Database.alerts db).
Proof. reflexivity. Qed.

Lemma deactivate_twice (cond : AlertRow -> bool) (db : Database.t F) :
  (forall a, cond (cancelled a) = cond a) ->
  Database.deactivate cond (Database.deactivate cond db)
  = Database.deactivate cond db.
Proof.
  intros Hc.
  assert (E : forall l : list AlertRow,
             map (fun a => if (a_job_id a =? Database.job_id db) && cond a
                           then cancelled a else a)
                 (map (fun a => if (a_job_id a =? Database.job_id db) && cond a
                                then cancelled a else a) l)
             = map (fun a => if (a_job_id a =? Database.job_id db) && cond a
                             then cancelled a else a) l).
  { intros l. rewrite map_map. apply map_ext. intros a.
    destruct ((a_job_id a =? Database.job_id db) && cond a) eqn:Ea.
    - change (a_job_id (cancelled a)) with (a_job_id a).
      rewrite Hc, Ea. reflexivity.
    - rewrite Ea. reflexivity. }
  unfold Database.deactivate at 1.
  change (Database.job_id (Database.deactivate cond db)) with (Database.job_id db).
  change (Database.next_alert_id (Database.deactivate cond db))
    with (Database.next_alert_id db).
  rewrite deactivate_alerts.
  change (fun a : AlertRow =>
            if (a_job_id a =? Database.job_id db) && cond a
            then {| a_id := a_id a; a_loc_id := a_loc_id a;
                    a_item_id := a_item_id a; a_job_id := a_job_id a;
                    a_timestamp := a_timestamp a; a_type := a_type a;
                    a_active := 0; a_correct_loc_id := a_correct_loc_id a |}
            else a)
    with (fun a : AlertRow =>
            if (a_job_id a =? Database.job_id db) && cond a
            then cancelled a else a).
  rewrite E. reflexivity.
Qed.

(** X3. Cancelling is idempotent and scoped: a second [cancel_alert],
    [cancel_alerts] or [cancel_remaining_tasks_alert] with the same
    argument changes nothing, and [cancel_alert] touches no row of
    another job or with another id; the rows it touches only lose their
    [active] flag. *)
Theorem X3_cancel_is_idempotent_and_scoped (db : Database.t F) :
  (forall alert_id,
     Database.cancel_alert alert_id (Database.cancel_alert alert_id db)
     = Database.cancel_alert alert_id db)
  /\ (forall ty,
        Database.cancel_alerts ty (Database.cancel_alerts ty db)
        = Database.cancel_alerts ty db)
  /\ (forall loc,
        Database.cancel_remaining_tasks_alert loc
          (Database.cancel_remaining_tasks_alert loc db)
        = Database.cancel_remaining_tasks_alert loc db)
  /\ (forall alert_id k row,
        Database.alerts db !! k = Some row ->
        Database.alerts (Database.cancel_alert alert_id db) !! k
        = Some (if Database.active db
                   && (a_job_id row =? Database.job_id db)
                   && (a_id row =? alert_id)
                then cancelled row else row)).
Proof.
  split; [| split; [| split]].
  - intros alert_id. unfold Database.cancel_alert.
    destruct (Database.active db) eqn:Ha; simpl.
    + change (Database.active (Database.deactivate
                (fun a => a_id a =? alert_id) db)) with (Database.active db).
      rewrite Ha. simpl. now apply deactivate_twice.
    + now rewrite Ha.
  - intros ty. unfold Database.cancel_alerts.
    destruct (Database.active db) eqn:Ha; simpl.
    + change (Database.active (Database.deactivate
                (fun a => String.eqb (a_type a) ty) db)) with (Database.active db).
      rewrite Ha. simpl. now apply deactivate_twice.
    + now rewrite Ha.
  - intros loc. unfold Database.cancel_remaining_tasks_alert.
    destruct (Database.active db) eqn:Ha; simpl.
    + change (Database.active (Database.deactivate
                (fun a => String.eqb (a_type a) "remaining_tasks"
                          && (a_loc_id a =? loc)) db)) with (Database.active db).
      rewrite Ha. now apply deactivate_twice.
    + now rewrite Ha.
  - intros alert_id k row Hk. unfold Database.cancel_alert.
    destruct (Database.active db); cbn [negb]; [| exact Hk].
    rewrite deactivate_alerts, list_lookup_fmap, Hk. reflexivity.
Qed.

(** The test of [has_active_alerts] on one row. *)
Definition blocks_completion (job : Z) (a : AlertRow) : bool :=
  (a_job_id a =? job) && (a_active a =? 1)
  && negb (String.eqb (a_type a) "clamps_closed_event")
  && negb (String.eqb (a_type a) "clamps_closed_warning").

Definition is_clamp_alert_type (ty : string) : bool :=
  String.eqb ty "clamps_closed_event" || String.eqb ty "clamps_closed_warning".

Lemma clamp_alert_never_blocks (job : Z) (a : AlertRow) :
  is_clamp_alert_type (a_type a) = true -> blocks_completion job a = false.
Proof.
  unfold is_clamp_alert_type, blocks_completion. intros E.
  apply orb_prop in E. destruct E as [-> | ->]; simpl;
    rewrite ?andb_false_r; reflexivity.
Qed.

Lemma create_alert_types loc ty ws time (db : Database.t F) :
  Database.active db = true ->
  exists new,
    Database.alerts (Database.create_alert loc ty ws time db)
    = Database.alerts db ++ new
    /\ forall row, In row new -> a_type row = ty.
Proof.
  intros Ha.
  destruct (create_alert_appends loc ty ws time db Ha) as (new & E & _ & _ & Hrows).
  exists new. split; [exact E |].
  intros row Hin. apply In_lookup in Hin. destruct Hin as (k & Hk).
  destruct (Hrows k row Hk) as (_ & _ & _ & Ht & _). exact Ht.
Qed.
End HandlerAlerts.

Section HandlerAlertQueries.
Context {F : Type} `{Arith F}.

Lemma existsb_false_iff {A : Type} (f : A -> bool) (l : list A) :
  existsb f l = false <-> forall x, In x l -> f x = false.
Proof.
  induction l as [|a l IH]; simpl.
  - split; [intros _ x [] | reflexivity].
  - rewrite orb_false_iff, IH. split.
    + intros [Ha Hl] x [<- | Hin]; auto.
    + intros Hall. split; [apply Hall; now left | intros x Hin; apply Hall; now right].
Qed.

Lemma existsb_pointwise {A : Type} (f : A -> bool) (g : A -> A) (l : list A) :
  (forall x, f (g x) = f x) -> existsb f (map g l) = existsb f l.
Proof.
  intros E. induction l as [|a l IH]; simpl; [reflexivity | now rewrite E, IH].
Qed.

(** X4. A [drop_location] alert created on a writing handler is seen
    at once by [loc_has_active_dl_alerts] for its location and by
    [has_active_alerts]; and after [cancel_alerts('drop_location')] no
    location of the job has an active [drop_location] alert. *)
Theorem X4_drop_location_alert_seen_then_cancelled
    (loc : Z) (wrong_items : option (list Item.t)) (time : option Time)
    (db : Database.t F) :
  Database.active db = true ->
  Database.loc_has_active_dl_alerts loc
    (Database.create_alert loc "drop_location" wrong_items time db) = true
  /\ Database.has_active_alerts
       (Database.create_alert loc "drop_location" wrong_items time db) = true
  /\ forall loc',
       Database.loc_has_active_dl_alerts loc'
         (Database.cancel_alerts "drop_location" db) = false.
Proof.
  intros Ha.
  destruct (create_alert_appends loc "drop_location" wrong_items time db Ha)
    as (new & E & Hlen & _ & Hrows).
  assert (Hjob : Database.job_id
                   (Database.create_alert loc "drop_location" wrong_items time db)
                 = Database.job_id db).
  { unfold Database.create_alert. rewrite Ha. reflexivity. }
  destruct new as [|row new].
  { destruct wrong_items as [[|? ?] |]; discriminate Hlen. }
  destruct (Hrows 0%nat row eq_refl) as (_ & Hact & Hloc & Hty & Hj & _).
  split; [| split].
  - unfold Database.loc_has_active_dl_alerts. rewrite E, Hjob, existsb_app.
    simpl. rewrite Hact, Hloc, Hty, Hj, !Z.eqb_refl. simpl.
    apply orb_true_r.
  - unfold Database.has_active_alerts. rewrite E, Hjob, existsb_app.
    simpl. rewrite Hact, Hty, Hj, !Z.eqb_refl. simpl.
    apply orb_true_r.
  - intros loc'. unfold Database.loc_has_active_dl_alerts, Database.cancel_alerts.
    rewrite Ha. cbn [negb].
    change (Database.job_id (Database.deactivate
              (fun a => String.eqb (a_type a) "drop_location") db))
      with (Database.job_id db).
    rewrite deactivate_alerts. apply existsb_false_iff.
    intros r Hin. apply in_map_iff in Hin. destruct Hin as (a & <- & _).
    destruct (a_job_id a =? Database.job_id db) eqn:Ej; simpl.
    + destruct (String.eqb (a_type a) "drop_location") eqn:Et; simpl.
      * rewrite Ej. reflexivity.
      * rewrite Ej, Et. simpl. now rewrite andb_false_r.
    + rewrite Ej. reflexivity.
Qed.

(** X5. Clamp alerts never stand in the way of job completion:
    creating an alert of type [clamps_closed_event] or
    [clamps_closed_warning], or cancelling the alerts of such a type,
    leaves the answer of [has_active_alerts] as it was. *)
Theorem X5_clamp_alerts_do_not_block
    (loc : Z) (ty : string) (wrong_items : option (list Item.t))
    (time : option Time) (db : Database.t F) :
  is_clamp_alert_type ty = true ->
  Database.has_active_alerts (Database.create_alert loc ty wrong_items time db)
  = Database.has_active_alerts db
  /\ Database.has_active_alerts (Database.cancel_alerts ty db)
     = Database.has_active_alerts db.
Proof.
  intros Hty. split.
  - destruct (Database.active db) eqn:Ha.
    + destruct (create_alert_types loc ty wrong_items time db Ha) as (new & E & Hnew).
      assert (Hjob : Database.job_id
                       (Database.create_alert loc ty wrong_items time db)
                     = Database.job_id db).
      { unfold Database.create_alert. rewrite Ha. reflexivity. }
      unfold Database.has_active_alerts. rewrite E, Hjob, existsb_app.
      replace (existsb _ new) with false; [apply orb_false_r |].
      symmetry. apply existsb_false_iff. intros row Hin.
      apply (clamp_alert_never_blocks (Database.job_id db)).
      now rewrite (Hnew row Hin).
    + unfold Database.create_alert. rewrite Ha. reflexivity.
  - unfold Database.cancel_alerts.
    destruct (Database.active db); cbn [negb]; [| reflexivity].
    unfold Database.has_active_alerts.
    change (Database.job_id (Database.deactivate
              (fun a => String.eqb (a_type a) ty) db))
      with (Database.job_id db).
    rewrite deactivate_alerts.
    apply (existsb_pointwise (blocks_completion (Database.job_id db))).
    intros a.
    destruct ((a_job_id a =? Database.job_id db) && String.eqb (a_type a) ty) eqn:E;
      [| reflexivity].
    apply andb_prop in E. destruct E as [_ Et]. apply String.eqb_eq in Et.
    rewrite !clamp_alert_never_blocks; [reflexivity | | ]; simpl; now rewrite Et.
Qed.
End HandlerAlertQueries.

(** ** The handler's reads *)

Section HandlerReads.
Context {F : Type} `{Arith F}.

Lemma group_by_id_sound (rows : list ItemRow) :
  forall seen : list Z,
    NoDup (map i_id (Database.group_by_id seen rows))
    /\ forall r, In r (Database.group_by_id seen rows) ->
                 In r rows /\ ~ In (i_id r) seen.
Proof.
  induction rows as [|r rows IH]; intros seen; simpl.
  - split; [constructor | intros r []].
  - destruct (Z_in (i_id r) seen) eqn:Es.
    + destruct (IH seen) as [Hnd Hin]. split; [exact Hnd |].
      intros r' Hr'. destruct (Hin r' Hr'). auto.
    + destruct (IH (i_id r :: seen)) as [Hnd Hin]. split.
      * simpl. constructor; [| exact Hnd].
        intros Hmem. apply list_elem_of_In in Hmem.
        apply in_map_iff in Hmem. destruct Hmem as (r' & Eid & Hr').
        destruct (Hin r' Hr') as [_ Hnot]. apply Hnot. left. now symmetry.
      * intros r' [<- | Hr'].
        -- split; [now left |]. intros Hs. apply Z_in_In in Hs. congruence.
        -- destruct (Hin r' Hr') as [Hrows Hnot]. split; [now right |].
           intros Hs. apply Hnot. now right.
Qed.

Lemma group_by_id_complete (rows : list ItemRow) :
  forall (seen : list Z) (r : ItemRow),
    In r rows -> ~ In (i_id r) seen ->
    In (i_id r) (map i_id (Database.group_by_id seen rows)).
Proof.
  induction rows as [|a rows IH]; intros seen r Hin Hnot; [destruct Hin |].
  simpl. destruct (Z_in (i_id a) seen) eqn:Es.
  - destruct Hin as [-> | Hin]; [| now apply IH].
    apply Z_in_In in Es. contradiction.
  - simpl. destruct (Z.eq_dec (i_id a) (i_id r)) as [E | Hne]; [now left |].
    right. destruct Hin as [-> | Hin]; [congruence |].
    apply IH; [exact Hin |]. intros [E | Hs]; [congruence | contradiction].
Qed.

(** A detection of the tag of an item row by this truck in a time window. *)
Definition detected_in (db : Database.t F) (min_time max_time : Time)
    (row : ItemRow) (d : DetectedRow) : Prop :=
  In row (Database.items db) /\ In d (Database.detected_items db)
  /\ d_items_item_tag d = i_item_tag row
  /\ d_clamp_truck_id d = Database.truck_id db
  /\ min_time <= d_timestamp d <= max_time.

Lemma load_join_In (db : Database.t F) (min_time max_time : Time) (row : ItemRow) :
  In row
    (flat_map (fun d =>
       flat_map (fun item =>
         if (d_items_item_tag d =? i_item_tag item)
            && (d_clamp_truck_id d =? Database.truck_id db)
            && (min_time <=? d_timestamp d) && (d_timestamp d <=? max_time)
         then [item] else [])
         (Database.items db))
       (Database.detected_items db))
  <-> exists d, detected_in db min_time max_time row d.
Proof.
  rewrite in_flat_map. split.
  - intros (d & Hd & Hin). apply in_flat_map in Hin.
    destruct Hin as (item & Hitem & Hin).
    destruct (_ && _) eqn:E in Hin; [| destruct Hin].
    destruct Hin as [<- | []].
    apply andb_prop in E. destruct E as [E E4].
    apply andb_prop in E. destruct E as [E E3].
    apply andb_prop in E. destruct E as [E1 E2].
    exists d. unfold detected_in. repeat split; auto; lia.
  - intros (d & Hrow & Hd & Htag & Htruck & Hlo & Hhi).
    exists d. split; [exact Hd |]. apply in_flat_map.
    exists row. split; [exact Hrow |].
    replace (_ && _) with true; [now left |].
    symmetry. repeat (apply andb_true_intro; split); lia.
Qed.

(** X6. The items that [__get_load_data] returns for a time window
    have pairwise distinct ids; each is an item whose tag this truck
    detected within the window, bounds included, and comes without
    [correct_loc_id]; and every item so detected is among them. *)
Theorem X6_load_data_is_the_detected_set
    (min_time max_time : Time) (db : Database.t F) :
  NoDup (map Item.id (Database.__get_load_data min_time max_time db))
  /\ (forall item,
        In item (Database.__get_load_data min_time max_time db) ->
        Item.correct_loc_id item = None
        /\ exists row d,
             detected_in db min_time max_time row d
             /\ item = Database.item_of_row row)
  /\ (forall row d,
        detected_in db min_time max_time row d ->
        In (i_id row)
           (map Item.id (Database.__get_load_data min_time max_time db))).
Proof.
  unfold Database.__get_load_data.
  match goal with
  | |- context [Database.group_by_id [] ?j] => set (joined := j)
  end.
  destruct (group_by_id_sound joined []) as [Hnd Hsound].
  assert (Hids : forall l : list ItemRow,
             map Item.id (map Database.item_of_row l) = map i_id l).
  { intros l. rewrite map_map. reflexivity. }
  split; [| split].
  - rewrite Hids. exact Hnd.
  - intros item Hin. apply in_map_iff in Hin. destruct Hin as (row & <- & Hrow).
    split; [reflexivity |].
    destruct (Hsound row Hrow) as [Hj _].
    apply load_join_In in Hj. destruct Hj as (d & Hd).
    exists row, d. auto.
  - intros row d Hd. rewrite Hids.
    apply group_by_id_complete; [| intros []].
    apply load_join_In. eauto.
Qed.

#[local] Instance timestamp_asc_total : Total (Database.timestamp_asc (F := F)).
Proof. intros a b. unfold Database.timestamp_asc. lia. Qed.

#[local] Instance timestamp_asc_trans : Transitive (Database.timestamp_asc (F := F)).
Proof. intros a b c. unfold Database.timestamp_asc. lia. Qed.

Lemma get_loc_data_sorted_later
    (curr_loc_time : Time) (db : Database.t F) :
  StronglySorted (fun a b => Loc.timestamp a <= Loc.timestamp b)
    (Database.get_loc_data curr_loc_time db)
  /\ (forall sample,
        In sample (Database.get_loc_data curr_loc_time db) <->
        exists l gf,
          In l (Database.loc_data db) /\ In gf (Database.geo_features db)
          /\ l_geo_feature_id l = g_id gf
          /\ l_truck_id l = Database.truck_id db
          /\ curr_loc_time < l_timestamp l
          /\ sample = {| Loc.geo_feature_id := l_geo_feature_id l;
                         Loc.x := l_x l; Loc.y := l_y l;
                         Loc.timestamp := l_timestamp l; Loc.speed := l_speed l;
                         Loc.clamp_status := l_clamp_status l;
                         Loc.type := g_type gf |})
  /\ (forall sample,
        In sample (Database.get_loc_data curr_loc_time db) ->
        Loc.timestamp sample <> curr_loc_time).
Proof.
  unfold Database.get_loc_data, Database.order_by_timestamp_asc.
  match goal with
  | |- context [merge_sort _ ?j] => set (joined := j)
  end.
  assert (P := merge_sort_Permutation Database.timestamp_asc joined).
  assert (Hjoin : forall sample,
             In sample joined <->
             exists l gf,
               In l (Database.loc_data db) /\ In gf (Database.geo_features db)
               /\ l_geo_feature_id l = g_id gf
               /\ l_truck_id l = Database.truck_id db
               /\ curr_loc_time < l_timestamp l
               /\ sample = {| Loc.geo_feature_id := l_geo_feature_id l;
                              Loc.x := l_x l; Loc.y := l_y l;
                              Loc.timestamp := l_timestamp l;
                              Loc.speed := l_speed l;
                              Loc.clamp_status := l_clamp_status l;
                              Loc.type := g_type gf |}).
  { intros sample. subst joined. rewrite in_flat_map. split.
    - intros (l & Hl & Hin). apply in_flat_map in Hin.
      destruct Hin as (gf & Hgf & Hin).
      destruct (_ && _) eqn:E in Hin; [| destruct Hin].
      destruct Hin as [<- | []].
      apply andb_prop in E. destruct E as [E E3].
      apply andb_prop in E. destruct E as [E1 E2].
      exists l, gf. repeat split; auto; lia.
    - intros (l & gf & Hl & Hgf & Eg & Et & Hlt & ->).
      exists l. split; [exact Hl |]. apply in_flat_map.
      exists gf. split; [exact Hgf |].
      replace (_ && _) with true; [now left |].
      symmetry. repeat (apply andb_true_intro; split); lia. }
  split; [| split].
  - apply (StronglySorted_merge_sort Database.timestamp_asc).
  - intros sample. rewrite <- Hjoin. split.
    + apply (Permutation_in _ P).
    + apply (Permutation_in _ (Permutation_sym P)).
  - intros sample Hin. apply (Permutation_in _ P) in Hin.
    apply Hjoin in Hin. destruct Hin as (l & gf & _ & _ & _ & _ & Hlt & ->).
    simpl. lia.
Qed.

(** X7. [get_loc_data] returns the samples in ascending order of
    timestamp; they are exactly the location rows of this truck that are
    strictly later than the given time, each joined with the type of its
    geo-feature.  A row whose timestamp equals the given time is not
    returned. *)
Theorem X7_loc_data_sorted_and_later
    (curr_loc_time : Time) (db : Database.t F) :
  StronglySorted (fun a b => Loc.timestamp a <= Loc.timestamp b)
    (Database.get_loc_data curr_loc_time db)
  /\ (forall sample,
        In sample (Database.get_loc_data curr_loc_time db) <->
        exists l gf,
          In l (Database.loc_data db) /\ In gf (Database.geo_features db)
          /\ l_geo_feature_id l = g_id gf
          /\ l_truck_id l = Database.truck_id db
          /\ curr_loc_time < l_timestamp l
          /\ sample = {| Loc.geo_feature_id := l_geo_feature_id l;
                         Loc.x := l_x l; Loc.y := l_y l;
                         Loc.timestamp := l_timestamp l; Loc.speed := l_speed l;
                         Loc.clamp_status := l_clamp_status l;
                         Loc.type := g_type gf |})
  /\ (forall sample,
        In sample (Database.get_loc_data curr_loc_time db) ->
        Loc.timestamp sample <> curr_loc_time).
Proof. apply get_loc_data_sorted_later. Qed.
End HandlerReads.

(** ** The swap leaves the monitor alone *)

Section SwapFrame.
Import JobMonitor.
Context {F : Type} `{Arith F}.

Lemma swap_frame (item : Item.t) (drop_location : Z) (labels : Labels) (m : t F) :
  check_alleged_wrong_item item drop_location labels m
  = Ok (add_wrong item labels) m
  \/ exists key,
       check_alleged_wrong_item item drop_location labels m
       = Raise (KeyError key) m.
Proof.
  remember (check_alleged_wrong_item item drop_location labels m) as r eqn:Er.
  unfold check_alleged_wrong_item in Er.
  destruct (Item.serial_lock item =? 0); simpl in Er; [| now left].
  unfold bind at 1 in Er. simpl in Er.
  destruct (List.find _ _) as [[i prior] |] in Er; [| now left].
  destruct (Database.get_model_alerts item (db_connection m))
    as [|first_alert rest] eqn:Ea; [now left |].
  destruct (get_model_alerts_rows item (db_connection m) first_alert)
    as (a & ->); [rewrite Ea; now left |].
  right. destruct (Task.origin prior =? drop_location); eexists; exact Er.
Qed.

(** X8. [check_alleged_wrong_item] never carries out a swap: either it
    confirms the item as wrong, or it ends in a [KeyError]; in both
    cases the monitor, its tasks and the store are as before, and the
    item is never labeled correct or returned. *)
Theorem X8_swap_never_changes_the_monitor
    (item : Item.t) (drop_location : Z) (labels : Labels) (m : t F) :
  (check_alleged_wrong_item item drop_location labels m
   = Ok (add_wrong item labels) m
   \/ exists key,
        check_alleged_wrong_item item drop_location labels m
        = Raise (KeyError key) m)
  /\ state_of (check_alleged_wrong_item item drop_location labels m) = m
  /\ forall labels' m',
       check_alleged_wrong_item item drop_location labels m = Ok labels' m' ->
       correct_items labels' = correct_items labels
       /\ returned_items labels' = returned_items labels
       /\ wrong_items labels' = wrong_items labels ++ [item].
Proof.
  pose proof (swap_frame item drop_location labels m) as Hs.
  split; [exact Hs |].
  destruct Hs as [E | (key & E)]; rewrite E; split; try reflexivity.
  - intros labels' m' E'. injection E' as <- <-. auto.
  - intros labels' m' E'. discriminate E'.
Qed.
End SwapFrame.

(** ** Tasks keep their identity *)

Section TaskIdentity.
Import JobMonitor.
Context {F : Type} `{Arith F}.

(** What may happen to a task object: nothing once it is complete, and
    never a change of its id, model, origin or destination. *)
Definition same_task (task task' : Task.t F) : Prop :=
  Task.task_id task' = Task.task_id task
  /\ Task.model task' = Task.model task
  /\ Task.origin task' = Task.origin task
  /\ Task.dest task' = Task.dest task
  /\ (Task.complete task = true -> task' = task).

Lemma same_task_refl (task : Task.t F) : same_task task task.
Proof. repeat split. Qed.

Lemma same_task_trans (a b c : Task.t F) :
  same_task a b -> same_task b c -> same_task a c.
Proof.
  intros (I1 & M1 & O1 & D1 & C1) (I2 & M2 & O2 & D2 & C2).
  repeat split; try congruence.
  intros Ha. specialize (C1 Ha). subst b. auto.
Qed.

Lemma same_tasks_refl (l : list (Task.t F)) : Forall2 same_task l l.
Proof. induction l; constructor; [apply same_task_refl | assumption]. Qed.

Lemma same_tasks_trans (a b c : list (Task.t F)) :
  Forall2 same_task a b -> Forall2 same_task b c -> Forall2 same_task a c.
Proof.
  intros Hab. revert c. induction Hab as [|x y l k Hxy Hlk IH]; intros c Hbc.
  - inversion Hbc. constructor.
  - inversion Hbc as [|y' z k' r Hyz Hkr]; subst.
    constructor; [eapply same_task_trans; eauto | now apply IH].
Qed.

Lemma same_tasks_insert (l : list (Task.t F)) (i : nat) (task task' : Task.t F) :
  l !! i = Some task -> same_task task task' ->
  Forall2 same_task l (<[ i := task' ]> l).
Proof.
  revert i. induction l as [|a l IH]; intros [|i] Hi Hs; simpl in *;
    try discriminate.
  - injection Hi as ->. constructor; [exact Hs | apply same_tasks_refl].
  - constructor; [apply same_task_refl | now apply IH].
Qed.

(** Either a method empties the three task lists, or it keeps
    [correct_origins] and [correct_dests] and every task object. *)
Definition job_kept (m m' : t F) : Prop :=
  (tasks m' = [] /\ correct_origins m' = [] /\ correct_dests m' = [])
  \/ (correct_origins m' = correct_origins m
      /\ correct_dests m' = correct_dests m
      /\ Forall2 same_task (tasks m) (tasks m')).

Lemma job_kept_refl (m : t F) : job_kept m m.
Proof. right. repeat split. apply same_tasks_refl. Qed.

Lemma job_kept_trans (a b c : t F) : job_kept a b -> job_kept b c -> job_kept a c.
Proof.
  intros [(T1 & O1 & D1) | (O1 & D1 & S1)] [(T2 & O2 & D2) | (O2 & D2 & S2)].
  - left. auto.
  - left. rewrite O2, D2, O1, D1. rewrite T1 in S2. inversion S2. auto.
  - left. auto.
  - right. repeat split; try congruence. eapply same_tasks_trans; eauto.
Qed.
End TaskIdentity.

#[export] Hint Resolve job_kept_refl job_kept_trans : steps.

Ltac job_leaf :=
  intros ?;
  first [ right; simpl; repeat split; apply same_tasks_refl
        | left; simpl; repeat split; reflexivity ].

Section TaskIdentityMethods.
Import JobMonitor.
Context {F : Type} `{Arith F}.

Abbreviation keeps_job := (steps (F := F) job_kept).

Lemma create_alert_job ty loc ws : keeps_job (create_alert ty loc ws).
Proof. unfold create_alert. steps_auto job_leaf. Qed.
Hint Resolve create_alert_job : steps.

Lemma last_carry_job : keeps_job last_carry.
Proof. unfold last_carry. steps_auto job_leaf. Qed.
Hint Resolve last_carry_job : steps.

Lemma put_last_carry_job c : keeps_job (put_last_carry c).
Proof. unfold put_last_carry. steps_auto job_leaf. Qed.
Hint Resolve put_last_carry_job : steps.

Lemma update_carry_times_job : keeps_job update_carry_times.
Proof. unfold update_carry_times. steps_auto job_leaf. Qed.
Hint Resolve update_carry_times_job : steps.

Lemma event_distance_check_job th co : keeps_job (event_distance_check th co).
Proof. unfold event_distance_check. steps_auto job_leaf. Qed.
Hint Resolve event_distance_check_job : steps.

Lemma check_pickup_job co ti : keeps_job (check_pickup co ti).
Proof. unfold check_pickup. steps_auto job_leaf. Qed.
Hint Resolve check_pickup_job : steps.

Lemma finish_last_trip_job loc ti : keeps_job (finish_last_trip loc ti).
Proof. unfold finish_last_trip. steps_auto job_leaf. Qed.
Hint Resolve finish_last_trip_job : steps.

Lemma finalize_trip_job loc ti cf : keeps_job (finalize_trip loc ti cf).
Proof. unfold finalize_trip. steps_auto job_leaf. Qed.
Hint Resolve finalize_trip_job : steps.

Lemma finalize_carry_job loc ti n : keeps_job (finalize_carry loc ti n).
Proof. unfold finalize_carry. steps_auto job_leaf. Qed.
Hint Resolve finalize_carry_job : steps.

Lemma check_remaining_tasks_job loc : keeps_job (check_remaining_tasks loc).
Proof. unfold check_remaining_tasks. steps_auto job_leaf. Qed.
Hint Resolve check_remaining_tasks_job : steps.

Lemma check_job_job : keeps_job check_job.
Proof. unfold check_job. steps_auto job_leaf. Qed.
Hint Resolve check_job_job : steps.

Lemma is_job_active_job : keeps_job is_job_active.
Proof. unfold is_job_active. steps_auto job_leaf. Qed.
Hint Resolve is_job_active_job : steps.

Lemma set_loc_data_job loc : keeps_job (set_loc_data loc).
Proof. unfold set_loc_data. steps_auto job_leaf. Qed.
Hint Resolve set_loc_data_job : steps.

Lemma check_alleged_wrong_item_job item loc labels :
  keeps_job (check_alleged_wrong_item item loc labels).
Proof.
  intros m.
  destruct (swap_frame item loc labels m) as [E | (key & E)]; rewrite E;
    apply job_kept_refl.
Qed.
Hint Resolve check_alleged_wrong_item_job : steps.

(** The one place where a task object changes: the scan of
    [check_drop] completes an open task. *)
Lemma classify_item_job loc labels item : keeps_job (classify_item loc labels item).
Proof.
  intros m. unfold classify_item. unfold bind at 1. simpl.
  destruct (should_check_item_at_drop item m); simpl; [| apply job_kept_refl].
  pose proof (scan_tasks_first item loc (tasks m) 0) as Hscan.
  unfold open_tasks, enumerate.
  destruct (scan_tasks _ _ _) as [[[i task] noe] |].
  - destruct Hscan as (k & -> & (Lk & Pk & _) & _).
    assert (Hopen : Task.complete task = false).
    { unfold takes in Pk. apply andb_prop in Pk. destruct Pk as [Pk _].
      now apply negb_true_iff in Pk. }
    destruct noe; simpl; right; simpl; repeat split;
      apply (same_tasks_insert _ _ task); auto;
      repeat split; intros Hc; congruence.
  - destruct (negb (Item.item_origin item =? loc)).
    + apply check_alleged_wrong_item_job.
    + apply job_kept_refl.
Qed.
Hint Resolve classify_item_job : steps.

Lemma classify_items_job loc items labels : keeps_job (classify_items loc items labels).
Proof.
  revert labels. induction items as [|item items IH]; intros labels; simpl;
    steps_auto job_leaf.
Qed.
Hint Resolve classify_items_job : steps.

Lemma finish_drop_job loc co wr re : keeps_job (finish_drop loc co wr re).
Proof. unfold finish_drop. steps_auto job_leaf. Qed.
Hint Resolve finish_drop_job : steps.

Lemma after_classification_job loc labels : keeps_job (after_classification loc labels).
Proof. unfold after_classification. steps_auto job_leaf. Qed.
Hint Resolve after_classification_job : steps.

Lemma check_drop_job loc items : keeps_job (check_drop loc items).
Proof. unfold check_drop. steps_auto job_leaf. Qed.
Hint Resolve check_drop_job : steps.

Lemma append_NOE_dest_job : keeps_job append_NOE_dest.
Proof. intros m. rewrite append_NOE_dest_raises. apply job_kept_refl. Qed.
Hint Resolve append_NOE_dest_job : steps.

Lemma on_pickup_signal_job loc locals : keeps_job (on_pickup_signal loc locals).
Proof. unfold on_pickup_signal. steps_auto job_leaf. Qed.
Hint Resolve on_pickup_signal_job : steps.

Lemma on_drop_signal_job loc locals : keeps_job (on_drop_signal loc locals).
Proof. unfold on_drop_signal. steps_auto job_leaf. Qed.
Hint Resolve on_drop_signal_job : steps.

Lemma on_drop_distance_job locals : keeps_job (on_drop_distance locals).
Proof. unfold on_drop_distance. steps_auto job_leaf. Qed.
Hint Resolve on_drop_distance_job : steps.

Lemma on_pickup_distance_job locals : keeps_job (on_pickup_distance locals).
Proof. unfold on_pickup_distance. steps_auto job_leaf. Qed.
Hint Resolve on_pickup_distance_job : steps.

Lemma record_movement_job loc : keeps_job (record_movement loc).
Proof. unfold record_movement. steps_auto job_leaf. Qed.
Hint Resolve record_movement_job : steps.

Lemma dispatch_signals_job p d loc locals : keeps_job (dispatch_signals p d loc locals).
Proof. unfold dispatch_signals. steps_auto job_leaf. Qed.
Hint Resolve dispatch_signals_job : steps.

Lemma process_loc_job loc locals : keeps_job (process_loc loc locals).
Proof. unfold process_loc. steps_auto job_leaf. Qed.
Hint Resolve process_loc_job : steps.

Lemma process_all_job locs locals : keeps_job (process_all locs locals).
Proof.
  revert locals. induction locs as [|loc locs IH]; intros locals; simpl;
    steps_auto job_leaf.
Qed.
Hint Resolve process_all_job : steps.

Lemma tick_job locals : keeps_job (tick locals).
Proof. unfold tick. steps_auto job_leaf. Qed.
Hint Resolve tick_job : steps.

Lemma simulate_pickup_job ev : keeps_job (simulate_pickup ev).
Proof. unfold simulate_pickup. steps_auto job_leaf. Qed.
Hint Resolve simulate_pickup_job : steps.

Lemma simulate_drop_job ev : keeps_job (simulate_drop ev).
Proof. unfold simulate_drop. steps_auto job_leaf. Qed.
Hint Resolve simulate_drop_job : steps.

Lemma play_event_job ev : keeps_job (play_event ev).
Proof. unfold play_event. steps_auto job_leaf. Qed.
Hint Resolve play_event_job : steps.

Lemma start_scenario_job loc : keeps_job (start_scenario loc).
Proof. unfold start_scenario. steps_auto job_leaf. Qed.
Hint Resolve start_scenario_job : steps.

Lemma run_op_job (op : Op F) (st : Locals * t F) :
  job_kept (snd st) (snd (run_op op st)).
Proof.
  destruct st as [locals m].
  destruct op; unfold run_op.
  all: try match goal with
           | |- context [state_of (?c ?m0)] =>
               let E := fresh in
               assert (E : keeps_job c) by auto with steps; exact (E m0)
           end.
  - pose proof (tick_job locals m) as E.
    destruct (tick locals m); exact E.
  - pose proof (process_loc_job loc locals m) as E.
    destruct (process_loc loc locals m); exact E.
  - right. simpl. repeat split. apply same_tasks_refl.
Qed.

Lemma run_ops_job (ops : list (Op F)) (st : Locals * t F) :
  job_kept (snd st) (snd (run_ops ops st)).
Proof.
  revert st. induction ops as [|op ops IH]; intros st; simpl.
  - apply job_kept_refl.
  - eapply job_kept_trans; [apply run_op_job | apply IH].
Qed.

(** X9. Whatever the monitor does after its construction, a task
    object keeps its id, model, origin and destination, and once it is
    complete it is not written again; the only other thing that happens
    to the task list is that [check_job] empties it. *)
Theorem X9_tasks_keep_identity (ops : list (Op F)) (st : Locals * t F) :
  tasks (snd (run_ops ops st)) = []
  \/ (length (tasks (snd (run_ops ops st))) = length (tasks (snd st))
      /\ forall i task,
           tasks (snd st) !! i = Some task ->
           exists task',
             tasks (snd (run_ops ops st)) !! i = Some task'
             /\ Task.task_id task' = Task.task_id task
             /\ Task.model task' = Task.model task
             /\ Task.origin task' = Task.origin task
             /\ Task.dest task' = Task.dest task
             /\ (Task.complete task = true -> task' = task)).
Proof.
  destruct (run_ops_job ops st) as [(T & _ & _) | (_ & _ & S)]; [now left |].
  right. split; [symmetry; eapply Forall2_length; exact S |].
  intros i task Hi.
  destruct (Forall2_lookup_l _ _ _ _ _ S Hi) as (task' & Hi' & Hs).
  exists task'. split; [exact Hi' | exact Hs].
Qed.

Lemma same_tasks_map (l k : list (Task.t F)) :
  Forall2 same_task l k ->
  map Task.origin k = map Task.origin l /\ map Task.dest k = map Task.dest l.
Proof.
  induction 1 as [|x y l k (_ & _ & O & D & _) _ [IHo IHd]]; simpl;
    [auto | split; congruence].
Qed.

Lemma job_kept_lists (m m' : t F) :
  job_kept m m' ->
  correct_origins m = map Task.origin (tasks m)
  /\ correct_dests m = map Task.dest (tasks m) ->
  correct_origins m' = map Task.origin (tasks m')
  /\ correct_dests m' = map Task.dest (tasks m').
Proof.
  intros [(T & O & D) | (O & D & S)] [Ho Hd].
  - rewrite T, O, D. auto.
  - destruct (same_tasks_map _ _ S) as [Eo Ed]. split; congruence.
Qed.

Lemma init_lists (db : Database.t F) (clock : Time) :
  correct_origins (__init__ db clock) = map Task.origin (tasks (__init__ db clock))
  /\ correct_dests (__init__ db clock) = map Task.dest (tasks (__init__ db clock)).
Proof.
  unfold __init__, set_tasks, bind, get, modify, emit; simpl.
  rewrite !map_map. split; reflexivity.
Qed.

(** X10. In every state the monitor reaches, [correct_origins] and
    [correct_dests] are the origins and the destinations of its tasks,
    position by position: the location lists hold nothing else, so the
    NOE location is a correct destination only when a task leads there. *)
Theorem X10_location_lists_mirror_the_tasks (st : Locals * t F) :
  reachable st ->
  correct_origins (snd st) = map Task.origin (tasks (snd st))
  /\ correct_dests (snd st) = map Task.dest (tasks (snd st)).
Proof.
  induction 1 as [db clock | op st Hst IH].
  - apply init_lists.
  - eapply job_kept_lists; [apply run_op_job | exact IH].
Qed.
End TaskIdentityMethods.

(** ** The pickup check and the end of a drop validation *)

Section PickupAndDrop.
Import JobMonitor.
Context {F : Type} `{Arith F}.

Lemma check_pickup_Ok coords time (m m' : t F) :
  check_pickup coords time m = Ok tt m' ->
  exists new,
    m' = set_latest_pickup_item_ids (latest_pickup_item_ids m ++ new)
           (set_pickup_check false
              (set_trace (trace m ++ [Log "checking pickup load"]) m))
    /\ (new = []
        \/ (pickup_check m = true
            /\ Database.get_pickup_data coords time (db_connection m) = inr new)).
Proof.
  unfold check_pickup. unfold bind at 1. simpl. unfold bind at 1. simpl.
  destruct (pickup_check m) eqn:Ep.
  - unfold bind at 1. unfold event_distance_check. unfold bind at 1. simpl.
    unfold bind at 1.
    destruct (get_distance (curr_loc_coords m) coords) as [e | d]; simpl;
      [discriminate |].
    destruct (fgtb d (pickup_check_distance_trigger (config m))).
    + unfold bind at 1.
      destruct (Database.get_pickup_data coords time (db_connection m))
        as [e | ids] eqn:Eg; simpl; [discriminate |].
      intros E. injection E as <-. exists ids. split; [reflexivity | auto].
    + simpl. intros E. injection E as <-. exists []. split; [| auto].
      simpl. rewrite app_nil_r. reflexivity.
  - simpl. intros E. injection E as <-. exists []. split; [| auto].
    simpl. rewrite app_nil_r. reflexivity.
Qed.


(** X12. Whenever [check_drop] returns, it has called [check_job] and
    the pickup set is empty. *)
Theorem X12_check_drop_ends_with_check_job
    (drop_location : Z) (sensed_items : list Item.t) (m m' : t F) :
  check_drop drop_location sensed_items m = Ok tt m' ->
  latest_pickup_item_ids m' = []
  /\ exists tr, trace m' = trace m ++ tr /\ In (Call "check_job") tr.
Proof. apply check_drop_Ok. Qed.

(** The three lines that open the log of [check_drop]. *)
Definition drop_opening : list (Event F) :=
  [Log "checking drop load"; Log "Pickup set"; Log "Sensed items at drop"].

Lemma check_job_frame (m m' : t F) :
  check_job m = Ok tt m' ->
  carries m' = carries m
  /\ Database.alerts (db_connection m') = Database.alerts (db_connection m)
  /\ Database.items (db_connection m') = Database.items (db_connection m)
  /\ Database.job_tasks (db_connection m') = Database.job_tasks (db_connection m)
  /\ (tasks m' = tasks m \/ tasks m' = []).
Proof.
  unfold check_job, bind, emit, modify, get, ret. simpl.
  destruct (tasks m) as [|task rest] eqn:Et; simpl.
  - intros E. injection E as <-. simpl. auto 10.
  - destruct (_ || _).
    + intros E. injection E as <-. simpl. auto 10.
    + intros E. injection E as <-. simpl.
      assert (Hc : forall cs (db : Database.t F),
                 Database.alerts (Database.save_carries cs db) = Database.alerts db
                 /\ Database.items (Database.save_carries cs db) = Database.items db
                 /\ Database.job_tasks (Database.save_carries cs db)
                    = Database.job_tasks db).
      { intros cs db. unfold Database.save_carries.
        set (db1 := if Database.active db then _ else db).
        assert (H1 : Database.alerts db1 = Database.alerts db
                     /\ Database.items db1 = Database.items db
                     /\ Database.job_tasks db1 = Database.job_tasks db)
          by (subst db1; destruct (Database.active db); auto).
        clearbody db1. revert db1 H1.
        induction cs as [|c cs IH]; intros db1 H1; simpl; [exact H1 |].
        apply IH. unfold Database.__save_trips.
        destruct (Database.active db1); simpl; exact H1. }
      assert (Hj : forall s f cs (db : Database.t F),
                 Database.alerts (Database.save_job s f cs db) = Database.alerts db
                 /\ Database.items (Database.save_job s f cs db) = Database.items db
                 /\ Database.job_tasks (Database.save_job s f cs db)
                    = Database.job_tasks db).
      { intros s f cs db. unfold Database.save_job.
        destruct (Database.active db); auto. }
      destruct (Hj (job_start_time m) (now m) (carries m)
                  (Database.save_carries (carries m) (db_connection m)))
        as (A1 & I1 & T1).
      destruct (Hc (carries m) (db_connection m)) as (A2 & I2 & T2).
      repeat split; try congruence. now right.
Qed.

Lemma check_drop_discards (drop_location : Z) (sensed_items : list Item.t)
    (m : t F) :
  (forall item, In item sensed_items -> should_check_item_at_drop item m = false) ->
  exists m1,
    check_job (set_trace (trace m ++ drop_opening) m) = Ok tt m1
    /\ check_drop drop_location sensed_items m
       = Ok tt (set_latest_pickup_item_ids [] m1).
Proof.
  intros Hall.
  destruct (check_job_returns (set_trace (trace m ++ drop_opening) m))
    as (m1 & tr & E1 & _).
  exists m1. split; [exact E1 |].
  unfold check_drop. unfold bind at 1. simpl. unfold bind at 1. simpl.
  unfold bind at 1. simpl. unfold bind at 1.
  rewrite classify_items_discarded by exact Hall.
  unfold after_classification, finish_drop. simpl.
  unfold bind, when, get, modify, ret. simpl.
  replace (set_trace (((trace m ++ [Log "checking drop load"])
                       ++ [Log "Pickup set"]) ++ [Log "Sensed items at drop"])
             (set_trace ((trace m ++ [Log "checking drop load"])
                         ++ [Log "Pickup set"])
                (set_trace (trace m ++ [Log "checking drop load"]) m)))
    with (set_trace (trace m ++ drop_opening) m)
    by (unfold drop_opening, set_trace; simpl; rewrite <- !app_assoc; reflexivity).
  rewrite E1. reflexivity.
Qed.

(** Carries that [save_carries] can insert: at least one, each with a
    trip, so that both [INSERT] statements have rows. *)
Definition insertable (cs : list (Carry.t F)) : Prop :=
  cs <> [] /\ Forall (fun c => Carry.trips c <> []) cs.

End PickupAndDrop.

(** ** The run loop and its cursor *)

Section LocationFrame.
Import JobMonitor.
Context {F : Type} `{Arith F}.

(** What only [set_loc_data] assigns: the current location and the
    time of the previous sample. *)
Definition loc_kept (m m' : t F) : Prop :=
  curr_loc_time m' = curr_loc_time m
  /\ curr_loc_id m' = curr_loc_id m
  /\ curr_loc_type m' = curr_loc_type m
  /\ curr_loc_coords m' = curr_loc_coords m
  /\ prev_loc_time m' = prev_loc_time m.

Lemma loc_kept_refl (m : t F) : loc_kept m m.
Proof. repeat split. Qed.

Lemma loc_kept_trans (a b c : t F) : loc_kept a b -> loc_kept b c -> loc_kept a c.
Proof.
  intros (T1 & I1 & Y1 & C1 & P1) (T2 & I2 & Y2 & C2 & P2).
  repeat split; congruence.
Qed.
End LocationFrame.

#[export] Hint Resolve loc_kept_refl loc_kept_trans : steps.

Ltac loc_leaf := intros ?; unfold loc_kept; simpl; repeat split; reflexivity.

Section LocationFrameMethods.
Import JobMonitor.
Context {F : Type} `{Arith F}.

Abbreviation keeps_loc := (steps (F := F) loc_kept).

Lemma create_alert_loc ty loc ws : keeps_loc (create_alert ty loc ws).
Proof. unfold create_alert. steps_auto loc_leaf. Qed.
Hint Resolve create_alert_loc : steps.

Lemma last_carry_loc : keeps_loc last_carry.
Proof. unfold last_carry. steps_auto loc_leaf. Qed.
Hint Resolve last_carry_loc : steps.

Lemma put_last_carry_loc c : keeps_loc (put_last_carry c).
Proof. unfold put_last_carry. steps_auto loc_leaf. Qed.
Hint Resolve put_last_carry_loc : steps.

Lemma update_carry_times_loc : keeps_loc update_carry_times.
Proof. unfold update_carry_times. steps_auto loc_leaf. Qed.
Hint Resolve update_carry_times_loc : steps.

Lemma event_distance_check_loc th co : keeps_loc (event_distance_check th co).
Proof. unfold event_distance_check. steps_auto loc_leaf. Qed.
Hint Resolve event_distance_check_loc : steps.

Lemma check_pickup_loc co ti : keeps_loc (check_pickup co ti).
Proof. unfold check_pickup. steps_auto loc_leaf. Qed.
Hint Resolve check_pickup_loc : steps.

Lemma finish_last_trip_loc loc ti : keeps_loc (finish_last_trip loc ti).
Proof. unfold finish_last_trip. steps_auto loc_leaf. Qed.
Hint Resolve finish_last_trip_loc : steps.

Lemma finalize_trip_loc loc ti cf : keeps_loc (finalize_trip loc ti cf).
Proof. unfold finalize_trip. steps_auto loc_leaf. Qed.
Hint Resolve finalize_trip_loc : steps.

Lemma finalize_carry_loc loc ti n : keeps_loc (finalize_carry loc ti n).
Proof. unfold finalize_carry. steps_auto loc_leaf. Qed.
Hint Resolve finalize_carry_loc : steps.

Lemma check_remaining_tasks_loc loc : keeps_loc (check_remaining_tasks loc).
Proof. unfold check_remaining_tasks. steps_auto loc_leaf. Qed.
Hint Resolve check_remaining_tasks_loc : steps.

Lemma check_job_loc : keeps_loc check_job.
Proof. unfold check_job. steps_auto loc_leaf. Qed.
Hint Resolve check_job_loc : steps.

Lemma check_alleged_wrong_item_loc item loc labels :
  keeps_loc (check_alleged_wrong_item item loc labels).
Proof. unfold check_alleged_wrong_item. steps_auto loc_leaf. Qed.
Hint Resolve check_alleged_wrong_item_loc : steps.

Lemma classify_item_loc loc labels item : keeps_loc (classify_item loc labels item).
Proof. unfold classify_item. steps_auto loc_leaf. Qed.
Hint Resolve classify_item_loc : steps.

Lemma classify_items_loc loc items labels : keeps_loc (classify_items loc items labels).
Proof.
  revert labels. induction items as [|x items IH]; intros labels; simpl;
    steps_auto loc_leaf.
Qed.
Hint Resolve classify_items_loc : steps.

Lemma finish_drop_loc loc co wr re : keeps_loc (finish_drop loc co wr re).
Proof. unfold finish_drop. steps_auto loc_leaf. Qed.
Hint Resolve finish_drop_loc : steps.

Lemma after_classification_loc loc labels : keeps_loc (after_classification loc labels).
Proof. unfold after_classification. steps_auto loc_leaf. Qed.
Hint Resolve after_classification_loc : steps.

Lemma check_drop_loc loc items : keeps_loc (check_drop loc items).
Proof. unfold check_drop. steps_auto loc_leaf. Qed.
Hint Resolve check_drop_loc : steps.

Lemma append_NOE_dest_loc : keeps_loc append_NOE_dest.
Proof. intros m. rewrite append_NOE_dest_raises. apply loc_kept_refl. Qed.
Hint Resolve append_NOE_dest_loc : steps.

Lemma on_pickup_signal_loc loc locals : keeps_loc (on_pickup_signal loc locals).
Proof. unfold on_pickup_signal. steps_auto loc_leaf. Qed.
Hint Resolve on_pickup_signal_loc : steps.

Lemma on_drop_signal_loc loc locals : keeps_loc (on_drop_signal loc locals).
Proof. unfold on_drop_signal. steps_auto loc_leaf. Qed.
Hint Resolve on_drop_signal_loc : steps.

Lemma on_drop_distance_loc locals : keeps_loc (on_drop_distance locals).
Proof. unfold on_drop_distance. steps_auto loc_leaf. Qed.
Hint Resolve on_drop_distance_loc : steps.

Lemma on_pickup_distance_loc locals : keeps_loc (on_pickup_distance locals).
Proof. unfold on_pickup_distance. steps_auto loc_leaf. Qed.
Hint Resolve on_pickup_distance_loc : steps.

Lemma record_movement_loc loc : keeps_loc (record_movement loc).
Proof. unfold record_movement. steps_auto loc_leaf. Qed.
Hint Resolve record_movement_loc : steps.

Lemma dispatch_signals_loc p d loc locals : keeps_loc (dispatch_signals p d loc locals).
Proof. unfold dispatch_signals. steps_auto loc_leaf. Qed.
Hint Resolve dispatch_signals_loc : steps.

(** After [set_loc_data], nothing in the body of the loop over the
    samples assigns the current location again. *)
Lemma process_loc_time (loc : Loc.t F) (locals : Locals) (m : t F) :
  loc_kept (set_loc loc m) (state_of (process_loc loc locals m)).
Proof.
  unfold process_loc.
  match goal with
  | |- context [bind (set_loc_data loc) ?k] => set (rest := k)
  end.
  assert (Hrest : keeps_loc (rest tt)).
  { subst rest. cbv beta. steps_auto loc_leaf. }
  unfold bind at 1. simpl. apply Hrest.
Qed.

Lemma process_all_time (locs : list (Loc.t F)) :
  forall (locals locals' : Locals) (m m' : t F) (newest : Loc.t F),
    process_all locs locals m = Ok locals' m' ->
    last locs = Some newest ->
    curr_loc_time m' = Some (Loc.timestamp newest).
Proof.
  induction locs as [|loc locs IH]; intros locals locals' m m' newest E L;
    [discriminate L |].
  simpl in E. apply bind_Ok in E. destruct E as (l1 & m1 & E1 & E2).
  destruct locs as [|loc2 locs].
  - simpl in E2. injection E2 as <- <-. injection L as <-.
    pose proof (process_loc_time loc locals m) as (T & _).
    rewrite E1 in T. exact T.
  - eapply IH; [exact E2 | exact L].
Qed.

Lemma sorted_last {A : Type} (R : A -> A -> Prop) (l : list A) (x : A) :
  StronglySorted R l -> last l = Some x ->
  In x l /\ forall y, In y l -> y = x \/ R y x.
Proof.
  induction 1 as [|a l Hs IH Ha]; intros L; [discriminate L |].
  destruct l as [|b l].
  - injection L as <-. split; [now left |]. intros y [<- | []]. now left.
  - destruct (IH L) as [Hin Hall]. split; [now right |].
    intros y [<- | Hy]; [| now apply Hall].
    right. rewrite Forall_forall in Ha. apply Ha. now apply list_elem_of_In.
Qed.

Lemma tick_inactive (locals : Locals) (m : t F) :
  Database.is_job_active (db_connection m) = false ->
  tick locals m
  = Raise SystemExit (set_trace (trace m ++ [Log "DEACTIVATED"; DB_close_db]) m).
Proof.
  intros Ha. unfold tick, is_job_active, bind, get, emit, modify, raise.
  rewrite Ha. simpl. unfold set_trace. simpl. rewrite <- app_assoc. reflexivity.
Qed.

Lemma tick_Ok (locals locals' : Locals) (m m' : t F) :
  tick locals m = Ok locals' m' ->
  Database.is_job_active (db_connection m) = true
  /\ match last (Database.get_loc_data (loc_data_start_time locals)
                   (db_connection m)) with
     | Some newest =>
         loc_data_start_time locals' = Loc.timestamp newest
         /\ curr_loc_time m' = Some (Loc.timestamp newest)
         /\ loc_data_start_time locals < loc_data_start_time locals'
         /\ forall sample,
              In sample (Database.get_loc_data (loc_data_start_time locals)
                           (db_connection m)) ->
              Loc.timestamp sample <= loc_data_start_time locals'
     | None => locals' = locals /\ m' = m
     end.
Proof.
  intros E. unfold tick in E.
  apply bind_Ok in E. destruct E as ([] & m1 & E0 & E).
  assert (Ha : Database.is_job_active (db_connection m) = true /\ m1 = m).
  { unfold is_job_active, bind, get, emit, modify, raise in E0.
    destruct (Database.is_job_active (db_connection m)); [| discriminate E0].
    injection E0 as <-. auto. }
  destruct Ha as [Ha ->]. split; [exact Ha |].
  apply bind_Ok in E. destruct E as (mg & m2 & Eg & E).
  injection Eg as <- <-. cbv zeta in E.
  apply bind_Ok in E. destruct E as (l1 & m3 & Ep & E).
  apply bind_Ok in E. destruct E as (mg & m4 & Eg & E).
  injection Eg as <- <-.
  destruct (get_loc_data_sorted_later (loc_data_start_time locals)
              (db_connection m)) as (Hsorted & Hrows & _).
  destruct (Database.get_loc_data (loc_data_start_time locals) (db_connection m))
    as [|loc locs] eqn:Ed.
  - simpl in Ep. injection Ep as <- <-. injection E as <- <-. simpl. auto.
  - destruct (last (loc :: locs)) as [newest |] eqn:L.
    2:{ destruct locs; [discriminate L |].
        apply last_None in L. discriminate L. }
    rewrite (process_all_time _ _ _ _ _ _ Ep L) in E.
    injection E as <- <-. simpl.
    destruct (sorted_last _ _ _ Hsorted L) as [Hin Hmax].
    split; [reflexivity |].
    split; [exact (process_all_time _ _ _ _ _ _ Ep L) |].
    split.
    + apply Hrows in Hin. destruct Hin as (l & gf & _ & _ & _ & _ & Hlt & ->).
      exact Hlt.
    + intros sample Hs. destruct (Hmax sample Hs) as [-> | Hle]; [lia | exact Hle].
Qed.

(** X14. An iteration of the run loop that returns has found the job
    active.  If the poll brought samples, the cursor
    [loc_data_start_time] and the current location time are afterwards
    the timestamp of the newest of them, which is later than the cursor
    was and not earlier than any sample of the poll; if it brought none,
    the iteration changed nothing. *)
Theorem X14_tick_moves_the_cursor (locals locals' : Locals) (m m' : t F) :
  tick locals m = Ok locals' m' ->
  Database.is_job_active (db_connection m) = true
  /\ match last (Database.get_loc_data (loc_data_start_time locals)
                   (db_connection m)) with
     | Some newest =>
         loc_data_start_time locals' = Loc.timestamp newest
         /\ curr_loc_time m' = Some (Loc.timestamp newest)
         /\ loc_data_start_time locals < loc_data_start_time locals'
         /\ forall sample,
              In sample (Database.get_loc_data (loc_data_start_time locals)
                           (db_connection m)) ->
              Loc.timestamp sample <= loc_data_start_time locals'
     | None => locals' = locals /\ m' = m
     end.
Proof. apply tick_Ok. Qed.

(** X15. Once the job is deactivated in the store, an iteration of the
    run loop processes no sample: it logs the deactivation, closes the
    handler and ends in [SystemExit], with the monitor otherwise as it
    was. *)
Theorem X15_tick_exits_when_deactivated (locals : Locals) (m : t F) :
  Database.is_job_active (db_connection m) = false ->
  tick locals m
  = Raise SystemExit (set_trace (trace m ++ [Log "DEACTIVATED"; DB_close_db]) m).
Proof. apply tick_inactive. Qed.
End LocationFrameMethods.

(** ** A dry handler under the monitor *)

Section DryRun.
Import JobMonitor.
Context {F : Type} `{Arith F}.

(** With a handler that runs dry, the store stays as it is. *)
Definition dry_kept (m m' : t F) : Prop :=
  Database.active (db_connection m) = false ->
  db_connection m' = db_connection m.

Lemma dry_kept_refl (m : t F) : dry_kept m m.
Proof. intros _. reflexivity. Qed.

Lemma dry_kept_trans (a b c : t F) : dry_kept a b -> dry_kept b c -> dry_kept a c.
Proof.
  intros Hab Hbc Ha. specialize (Hab Ha). rewrite <- Hab.
  apply Hbc. now rewrite Hab.
Qed.

Lemma dry_write (e : Event F) (f : Database.t F -> Database.t F) (m : t F) :
  (forall db, Database.active db = false -> f db = db) ->
  dry_kept m (set_db (f (db_connection m)) (set_trace (trace m ++ [e]) m)).
Proof. intros Hf Ha. simpl. now apply Hf. Qed.
End DryRun.

#[export] Hint Resolve dry_kept_refl dry_kept_trans : steps.

Ltac dry_leaf :=
  intros ?;
  first [ intros _; reflexivity
        | apply dry_write; intros db Hdb;
          destruct (handler_dry db Hdb)
            as (W1 & W2 & W3 & W4 & W5 & W6 & W7 & W8 & W9 & W10);
          first [ apply W1 | apply W2 | apply W3 | apply W4 | apply W5
                | apply W6 | apply W7 | apply W8 | apply W9 | apply W10 ] ].

Section DryRunMethods.
Import JobMonitor.
Context {F : Type} `{Arith F}.

Abbreviation keeps_store := (steps (F := F) dry_kept).

Lemma create_alert_dry ty loc ws : keeps_store (create_alert ty loc ws).
Proof. unfold create_alert. steps_auto dry_leaf. Qed.
Hint Resolve create_alert_dry : steps.

Lemma last_carry_dry : keeps_store last_carry.
Proof. unfold last_carry. steps_auto dry_leaf. Qed.
Hint Resolve last_carry_dry : steps.

Lemma put_last_carry_dry c : keeps_store (put_last_carry c).
Proof. unfold put_last_carry. steps_auto dry_leaf. Qed.
Hint Resolve put_last_carry_dry : steps.

Lemma update_carry_times_dry : keeps_store update_carry_times.
Proof. unfold update_carry_times. steps_auto dry_leaf. Qed.
Hint Resolve update_carry_times_dry : steps.

Lemma event_distance_check_dry th co : keeps_store (event_distance_check th co).
Proof. unfold event_distance_check. steps_auto dry_leaf. Qed.
Hint Resolve event_distance_check_dry : steps.

Lemma check_pickup_dry co ti : keeps_store (check_pickup co ti).
Proof. unfold check_pickup. steps_auto dry_leaf. Qed.
Hint Resolve check_pickup_dry : steps.

Lemma finish_last_trip_dry loc ti : keeps_store (finish_last_trip loc ti).
Proof. unfold finish_last_trip. steps_auto dry_leaf. Qed.
Hint Resolve finish_last_trip_dry : steps.

Lemma finalize_trip_dry loc ti cf : keeps_store (finalize_trip loc ti cf).
Proof. unfold finalize_trip. steps_auto dry_leaf. Qed.
Hint Resolve finalize_trip_dry : steps.

Lemma finalize_carry_dry loc ti n : keeps_store (finalize_carry loc ti n).
Proof. unfold finalize_carry. steps_auto dry_leaf. Qed.
Hint Resolve finalize_carry_dry : steps.

Lemma check_remaining_tasks_dry loc : keeps_store (check_remaining_tasks loc).
Proof. unfold check_remaining_tasks. steps_auto dry_leaf. Qed.
Hint Resolve check_remaining_tasks_dry : steps.

Lemma check_job_dry : keeps_store check_job.
Proof. unfold check_job. steps_auto dry_leaf. Qed.
Hint Resolve check_job_dry : steps.

Lemma is_job_active_dry : keeps_store is_job_active.
Proof. unfold is_job_active. steps_auto dry_leaf. Qed.
Hint Resolve is_job_active_dry : steps.

Lemma set_loc_data_dry loc : keeps_store (set_loc_data loc).
Proof. unfold set_loc_data. steps_auto dry_leaf. Qed.
Hint Resolve set_loc_data_dry : steps.

Lemma check_alleged_wrong_item_dry item loc labels :
  keeps_store (check_alleged_wrong_item item loc labels).
Proof. unfold check_alleged_wrong_item. steps_auto dry_leaf. Qed.
Hint Resolve check_alleged_wrong_item_dry : steps.

Lemma classify_item_dry loc labels item : keeps_store (classify_item loc labels item).
Proof. unfold classify_item. steps_auto dry_leaf. Qed.
Hint Resolve classify_item_dry : steps.

Lemma classify_items_dry loc items labels :
  keeps_store (classify_items loc items labels).
Proof.
  revert labels. induction items as [|x items IH]; intros labels; simpl;
    steps_auto dry_leaf.
Qed.
Hint Resolve classify_items_dry : steps.

Lemma finish_drop_dry loc co wr re : keeps_store (finish_drop loc co wr re).
Proof. unfold finish_drop. steps_auto dry_leaf. Qed.
Hint Resolve finish_drop_dry : steps.

Lemma after_classification_dry loc labels :
  keeps_store (after_classification loc labels).
Proof. unfold after_classification. steps_auto dry_leaf. Qed.
Hint Resolve after_classification_dry : steps.

Lemma check_drop_dry loc items : keeps_store (check_drop loc items).
Proof. unfold check_drop. steps_auto dry_leaf. Qed.
Hint Resolve check_drop_dry : steps.

Lemma append_NOE_dest_dry : keeps_store append_NOE_dest.
Proof. intros m. rewrite append_NOE_dest_raises. apply dry_kept_refl. Qed.
Hint Resolve append_NOE_dest_dry : steps.

Lemma on_pickup_signal_dry loc locals : keeps_store (on_pickup_signal loc locals).
Proof. unfold on_pickup_signal. steps_auto dry_leaf. Qed.
Hint Resolve on_pickup_signal_dry : steps.

Lemma on_drop_signal_dry loc locals : keeps_store (on_drop_signal loc locals).
Proof. unfold on_drop_signal. steps_auto dry_leaf. Qed.
Hint Resolve on_drop_signal_dry : steps.

Lemma on_drop_distance_dry locals : keeps_store (on_drop_distance locals).
Proof. unfold on_drop_distance. steps_auto dry_leaf. Qed.
Hint Resolve on_drop_distance_dry : steps.

Lemma on_pickup_distance_dry locals : keeps_store (on_pickup_distance locals).
Proof. unfold on_pickup_distance. steps_auto dry_leaf. Qed.
Hint Resolve on_pickup_distance_dry : steps.

Lemma record_movement_dry loc : keeps_store (record_movement loc).
Proof. unfold record_movement. steps_auto dry_leaf. Qed.
Hint Resolve record_movement_dry : steps.

Lemma dispatch_signals_dry p d loc locals :
  keeps_store (dispatch_signals p d loc locals).
Proof. unfold dispatch_signals. steps_auto dry_leaf. Qed.
Hint Resolve dispatch_signals_dry : steps.

Lemma process_loc_dry loc locals : keeps_store (process_loc loc locals).
Proof. unfold process_loc. steps_auto dry_leaf. Qed.
Hint Resolve process_loc_dry : steps.

Lemma process_all_dry locs locals : keeps_store (process_all locs locals).
Proof.
  revert locals. induction locs as [|x locs IH]; intros locals; simpl;
    steps_auto dry_leaf.
Qed.
Hint Resolve process_all_dry : steps.

Lemma tick_dry locals : keeps_store (tick locals).
Proof. unfold tick. steps_auto dry_leaf. Qed.
Hint Resolve tick_dry : steps.

Lemma simulate_pickup_dry ev : keeps_store (simulate_pickup ev).
Proof. unfold simulate_pickup. steps_auto dry_leaf. Qed.
Hint Resolve simulate_pickup_dry : steps.

Lemma simulate_drop_dry ev : keeps_store (simulate_drop ev).
Proof. unfold simulate_drop. steps_auto dry_leaf. Qed.
Hint Resolve simulate_drop_dry : steps.

Lemma play_event_dry ev : keeps_store (play_event ev).
Proof. unfold play_event. steps_auto dry_leaf. Qed.
Hint Resolve play_event_dry : steps.

Lemma start_scenario_dry loc : keeps_store (start_scenario loc).
Proof. unfold start_scenario. steps_auto dry_leaf. Qed.
Hint Resolve start_scenario_dry : steps.

(** An operation other than a change of the environment. *)
Definition is_environment (op : Op F) : bool :=
  match op with
  | OpEnvironment _ _ => true
  | _ => false
  end.

Lemma run_op_dry (op : Op F) (st : Locals * t F) :
  is_environment op = false -> dry_kept (snd st) (snd (run_op op st)).
Proof.
  intros Hop. destruct st as [locals m].
  destruct op; try discriminate Hop; unfold run_op.
  all: try match goal with
           | |- context [state_of (?c ?m0)] =>
               let E := fresh in
               assert (E : keeps_store c) by auto with steps; exact (E m0)
           end.
  - pose proof (tick_dry locals m) as E.
    destruct (tick locals m); exact E.
  - pose proof (process_loc_dry loc locals m) as E.
    destruct (process_loc loc locals m); exact E.
Qed.

Lemma run_ops_dry (ops : list (Op F)) (st : Locals * t F) :
  forallb (fun op => negb (is_environment op)) ops = true ->
  dry_kept (snd st) (snd (run_ops ops st)).
Proof.
  revert st. induction ops as [|op ops IH]; intros st Hops; simpl.
  - apply dry_kept_refl.
  - simpl in Hops. apply andb_prop in Hops. destruct Hops as [Hop Hops].
    apply negb_true_iff in Hop.
    eapply dry_kept_trans; [exact (run_op_dry op st Hop) | exact (IH _ Hops)].
Qed.

(** X16. A monitor whose handler was built with [activate_queries]
    false never changes the store, whatever it does: after any sequence
    of its operations the tables are as they were, even where its tasks
    have been completed in memory. *)
Theorem X16_dry_monitor_leaves_the_store (ops : list (Op F)) (st : Locals * t F) :
  Database.active (db_connection (snd st)) = false ->
  forallb (fun op => negb (is_environment op)) ops = true ->
  db_connection (snd (run_ops ops st)) = db_connection (snd st).
Proof. intros Ha Hops. now apply run_ops_dry. Qed.
End DryRunMethods.

(** ** The job is saved once *)

Section SavedOnce.
Import JobMonitor.
Context {F : Type} `{Arith F}.

Definition is_save_job (e : Event F) : bool :=
  match e with
  | DB_save_job _ _ _ => true
  | _ => false
  end.

(** The number of calls of [save_job] so far. *)
Definition job_saves (m : t F) : nat :=
  length (List.filter is_save_job (trace m)).

(** A method either does not call [save_job], and then it leaves an
    empty task list empty, or it calls it once, on a monitor that has
    tasks, and leaves the task list empty. *)
Definition once_kept (m m' : t F) : Prop :=
  (job_saves m' = job_saves m /\ (tasks m = [] -> tasks m' = []))
  \/ (tasks m <> [] /\ tasks m' = [] /\ job_saves m' = S (job_saves m)).

Lemma once_kept_refl (m : t F) : once_kept m m.
Proof. left. auto. Qed.

Lemma once_kept_trans (a b c : t F) :
  once_kept a b -> once_kept b c -> once_kept a c.
Proof.
  intros [(S1 & T1) | (N1 & T1 & S1)] [(S2 & T2) | (N2 & T2 & S2)].
  - left. split; [congruence | auto].
  - right. split; [intros Ea; apply N2; auto |]. split; [exact T2 | congruence].
  - right. split; [exact N1 |]. split; [auto | congruence].
  - contradiction.
Qed.
End SavedOnce.

#[export] Hint Resolve once_kept_refl once_kept_trans : steps.

Ltac once_leaf :=
  intros ?; left; unfold job_saves; simpl; split;
  [ rewrite ?List.filter_app; simpl; rewrite ?app_nil_r; reflexivity
  | first [ exact (fun E => E) | intros ->; reflexivity ] ].

Section SavedOnceMethods.
Import JobMonitor.
Context {F : Type} `{Arith F}.

Abbreviation saves_once := (steps (F := F) once_kept).

Lemma create_alert_once ty loc ws : saves_once (create_alert ty loc ws).
Proof. unfold create_alert. steps_auto once_leaf. Qed.
Hint Resolve create_alert_once : steps.

Lemma last_carry_once : saves_once last_carry.
Proof. unfold last_carry. steps_auto once_leaf. Qed.
Hint Resolve last_carry_once : steps.

Lemma put_last_carry_once c : saves_once (put_last_carry c).
Proof. unfold put_last_carry. steps_auto once_leaf. Qed.
Hint Resolve put_last_carry_once : steps.

Lemma update_carry_times_once : saves_once update_carry_times.
Proof. unfold update_carry_times. steps_auto once_leaf. Qed.
Hint Resolve update_carry_times_once : steps.

Lemma event_distance_check_once th co : saves_once (event_distance_check th co).
Proof. unfold event_distance_check. steps_auto once_leaf. Qed.
Hint Resolve event_distance_check_once : steps.

Lemma check_pickup_once co ti : saves_once (check_pickup co ti).
Proof. unfold check_pickup. steps_auto once_leaf. Qed.
Hint Resolve check_pickup_once : steps.

Lemma finish_last_trip_once loc ti : saves_once (finish_last_trip loc ti).
Proof. unfold finish_last_trip. steps_auto once_leaf. Qed.
Hint Resolve finish_last_trip_once : steps.

Lemma finalize_trip_once loc ti cf : saves_once (finalize_trip loc ti cf).
Proof. unfold finalize_trip. steps_auto once_leaf. Qed.
Hint Resolve finalize_trip_once : steps.

Lemma finalize_carry_once loc ti n : saves_once (finalize_carry loc ti n).
Proof. unfold finalize_carry. steps_auto once_leaf. Qed.
Hint Resolve finalize_carry_once : steps.

Lemma check_remaining_tasks_once loc : saves_once (check_remaining_tasks loc).
Proof. unfold check_remaining_tasks. steps_auto once_leaf. Qed.
Hint Resolve check_remaining_tasks_once : steps.

Lemma check_job_once : saves_once check_job.
Proof.
  intros m. unfold check_job, bind, emit, modify, get, ret. simpl.
  destruct (tasks m) as [|task rest] eqn:Et; simpl.
  - left. unfold job_saves. simpl. rewrite List.filter_app, length_app. simpl.
    split; [lia | intros _; exact Et].
  - destruct (_ || _); simpl.
    + left. unfold job_saves. simpl. rewrite List.filter_app, length_app. simpl.
      split; [lia | rewrite Et; discriminate].
    + right. unfold job_saves. simpl.
      rewrite !List.filter_app, !length_app. simpl.
      split; [rewrite Et; discriminate |]. split; [reflexivity | lia].
Qed.
Hint Resolve check_job_once : steps.

Lemma is_job_active_once : saves_once is_job_active.
Proof. unfold is_job_active. steps_auto once_leaf. Qed.
Hint Resolve is_job_active_once : steps.

Lemma set_loc_data_once loc : saves_once (set_loc_data loc).
Proof. unfold set_loc_data. steps_auto once_leaf. Qed.
Hint Resolve set_loc_data_once : steps.

Lemma check_alleged_wrong_item_once item loc labels :
  saves_once (check_alleged_wrong_item item loc labels).
Proof. unfold check_alleged_wrong_item. steps_auto once_leaf. Qed.
Hint Resolve check_alleged_wrong_item_once : steps.

Lemma classify_item_once loc labels item : saves_once (classify_item loc labels item).
Proof. unfold classify_item. steps_auto once_leaf. Qed.
Hint Resolve classify_item_once : steps.

Lemma classify_items_once loc items labels :
  saves_once (classify_items loc items labels).
Proof.
  revert labels. induction items as [|x items IH]; intros labels; simpl;
    steps_auto once_leaf.
Qed.
Hint Resolve classify_items_once : steps.

Lemma finish_drop_once loc co wr re : saves_once (finish_drop loc co wr re).
Proof. unfold finish_drop. steps_auto once_leaf. Qed.
Hint Resolve finish_drop_once : steps.

Lemma after_classification_once loc labels :
  saves_once (after_classification loc labels).
Proof. unfold after_classification. steps_auto once_leaf. Qed.
Hint Resolve after_classification_once : steps.

Lemma check_drop_once loc items : saves_once (check_drop loc items).
Proof. unfold check_drop. steps_auto once_leaf. Qed.
Hint Resolve check_drop_once : steps.

Lemma append_NOE_dest_once : saves_once append_NOE_dest.
Proof. intros m. rewrite append_NOE_dest_raises. apply once_kept_refl. Qed.
Hint Resolve append_NOE_dest_once : steps.

Lemma on_pickup_signal_once loc locals : saves_once (on_pickup_signal loc locals).
Proof. unfold on_pickup_signal. steps_auto once_leaf. Qed.
Hint Resolve on_pickup_signal_once : steps.

Lemma on_drop_signal_once loc locals : saves_once (on_drop_signal loc locals).
Proof. unfold on_drop_signal. steps_auto once_leaf. Qed.
Hint Resolve on_drop_signal_once : steps.

Lemma on_drop_distance_once locals : saves_once (on_drop_distance locals).
Proof. unfold on_drop_distance. steps_auto once_leaf. Qed.
Hint Resolve on_drop_distance_once : steps.

Lemma on_pickup_distance_once locals : saves_once (on_pickup_distance locals).
Proof. unfold on_pickup_distance. steps_auto once_leaf. Qed.
Hint Resolve on_pickup_distance_once : steps.

Lemma record_movement_once loc : saves_once (record_movement loc).
Proof. unfold record_movement. steps_auto once_leaf. Qed.
Hint Resolve record_movement_once : steps.

Lemma dispatch_signals_once p d loc locals :
  saves_once (dispatch_signals p d loc locals).
Proof. unfold dispatch_signals. steps_auto once_leaf. Qed.
Hint Resolve dispatch_signals_once : steps.

Lemma process_loc_once loc locals : saves_once (process_loc loc locals).
Proof. unfold process_loc. steps_auto once_leaf. Qed.
Hint Resolve process_loc_once : steps.

Lemma process_all_once locs locals : saves_once (process_all locs locals).
Proof.
  revert locals. induction locs as [|x locs IH]; intros locals; simpl;
    steps_auto once_leaf.
Qed.
Hint Resolve process_all_once : steps.

Lemma tick_once locals : saves_once (tick locals).
Proof. unfold tick. steps_auto once_leaf. Qed.
Hint Resolve tick_once : steps.

Lemma simulate_pickup_once ev : saves_once (simulate_pickup ev).
Proof. unfold simulate_pickup. steps_auto once_leaf. Qed.
Hint Resolve simulate_pickup_once : steps.

Lemma simulate_drop_once ev : saves_once (simulate_drop ev).
Proof. unfold simulate_drop. steps_auto once_leaf. Qed.
Hint Resolve simulate_drop_once : steps.

Lemma play_event_once ev : saves_once (play_event ev).
Proof. unfold play_event. steps_auto once_leaf. Qed.
Hint Resolve play_event_once : steps.

Lemma start_scenario_once loc : saves_once (start_scenario loc).
Proof. unfold start_scenario. steps_auto once_leaf. Qed.
Hint Resolve start_scenario_once : steps.

Lemma run_op_once (op : Op F) (st : Locals * t F) :
  once_kept (snd st) (snd (run_op op st)).
Proof.
  destruct st as [locals m].
  destruct op; unfold run_op.
  all: try match goal with
           | |- context [state_of (?c ?m0)] =>
               let E := fresh in
               assert (E : saves_once c) by auto with steps; exact (E m0)
           end.
  - pose proof (tick_once locals m) as E.
    destruct (tick locals m); exact E.
  - pose proof (process_loc_once loc locals m) as E.
    destruct (process_loc loc locals m); exact E.
  - left. simpl. auto.
Qed.

Lemma reachable_once (st : Locals * t F) :
  reachable st ->
  job_saves (snd st) = 0%nat \/ (job_saves (snd st) = 1%nat /\ tasks (snd st) = []).
Proof.
  induction 1 as [db clock | op st Hst IH].
  - left. reflexivity.
  - destruct (run_op_once op st) as [(S1 & T1) | (N1 & T1 & S1)].
    + destruct IH as [E | [E T]]; [left | right; split; auto]; congruence.
    + destruct IH as [E | [_ T]]; [| contradiction].
      right. split; [congruence | exact T1].
Qed.

(** X17. A monitor calls [save_job] at most once after its
    construction, and from that call on it has no tasks. *)
Theorem X17_job_saved_at_most_once (st : Locals * t F) :
  reachable st ->
  (job_saves (snd st) <= 1)%nat
  /\ (job_saves (snd st) = 1%nat -> tasks (snd st) = []).
Proof.
  intros Hst. destruct (reachable_once st Hst) as [E | [E T]]; rewrite E.
  - split; [lia | discriminate].
  - split; [lia | auto].
Qed.
End SavedOnceMethods.

(** ** What the run loop returns *)

Section Returns.
Import JobMonitor.
Context {F : Type} `{Arith F}.

(** Every value that a method returns satisfies [P]. *)
Definition returns {A : Type} (P : A -> Prop) (c : M (F := F) A) : Prop :=
  forall m a m', c m = Ok a m' -> P a.

Lemma returns_ret {A : Type} (P : A -> Prop) (a : A) : P a -> returns P (ret a).
Proof. intros Ha m a' m' E. injection E as <- _. exact Ha. Qed.

Lemma returns_bind {A B : Type} (Q : A -> Prop) (P : B -> Prop)
    (c : M A) (k : A -> M B) :
  returns Q c -> (forall a, Q a -> returns P (k a)) -> returns P (bind c k).
Proof.
  intros Hc Hk m b m' E. apply bind_Ok in E. destruct E as (a & m1 & E1 & E2).
  exact (Hk a (Hc _ _ _ E1) _ _ _ E2).
Qed.

Lemma returns_any {A : Type} (c : M (F := F) A) : returns (fun _ => True) c.
Proof. intros m a m' _. exact I. Qed.

Lemma returns_then {A B : Type} (P : B -> Prop) (c : M A) (k : A -> M B) :
  (forall a, returns P (k a)) -> returns P (bind c k).
Proof.
  intros Hk. apply (returns_bind (fun _ => True)); [apply returns_any | auto].
Qed.

(** The drop branch of the loop: where items can be and no drop
    validation is pending it raises, otherwise it only logs the signal. *)
Lemma on_drop_signal_armed (loc_id : Z) (locals : Locals) (m : t F) :
  clamp_check_enabled m && negb (drop_check locals) = true ->
  exists e m', on_drop_signal loc_id locals m = Raise e m'.
Proof.
  intros Hb. apply andb_prop in Hb. destruct Hb as [Hc Hd].
  unfold on_drop_signal. unfold bind at 1. simpl. unfold bind at 1. simpl.
  replace (clamp_check_enabled (set_trace (trace m ++ [Log "DROP"]) m))
    with (clamp_check_enabled m) by reflexivity.
  rewrite Hc, Hd. simpl. unfold bind at 1.
  destruct (check_pickup _ _ _) as [[] m1 | e m1].
  - eexists _, _. reflexivity.
  - eexists _, _. reflexivity.
Qed.

Lemma on_drop_signal_idle (loc_id : Z) (locals : Locals) (m : t F) :
  clamp_check_enabled m && negb (drop_check locals) = false ->
  on_drop_signal loc_id locals m
  = Ok locals (set_trace (trace m ++ [Log "DROP"]) m).
Proof.
  intros Hb.
  unfold on_drop_signal. unfold bind at 1. simpl. unfold bind at 1. simpl.
  replace (clamp_check_enabled (set_trace (trace m ++ [Log "DROP"]) m))
    with (clamp_check_enabled m) by reflexivity.
  destruct (clamp_check_enabled m), (drop_check locals);
    try discriminate Hb; reflexivity.
Qed.

Lemma on_drop_signal_cases (loc_id : Z) (locals : Locals) (m : t F) :
  (clamp_check_enabled m && negb (drop_check locals) = true ->
   exists e m', on_drop_signal loc_id locals m = Raise e m')
  /\ (clamp_check_enabled m && negb (drop_check locals) = false ->
      on_drop_signal loc_id locals m
      = Ok locals (set_trace (trace m ++ [Log "DROP"]) m)).
Proof.
  split; [apply on_drop_signal_armed | apply on_drop_signal_idle].
Qed.

Lemma on_pickup_signal_returns (loc_id : Z) (locals : Locals) :
  returns (fun l => drop_check l = drop_check locals)
          (on_pickup_signal loc_id locals).
Proof.
  unfold on_pickup_signal.
  apply returns_then; intros _. apply returns_then; intros m.
  destruct (clamp_check_enabled m); [| now apply returns_ret].
  do 4 (apply returns_then; intros _). cbv zeta.
  destruct (Z_in loc_id (correct_origins m)); [| now apply returns_ret].
  do 2 (apply returns_then; intros _). now apply returns_ret.
Qed.

Lemma on_drop_signal_returns (loc_id : Z) (locals : Locals) :
  drop_check locals = false ->
  returns (fun l => drop_check l = false) (on_drop_signal loc_id locals).
Proof.
  intros Hd m l m' E.
  destruct (on_drop_signal_cases loc_id locals m) as [Hraise Hlog].
  destruct (clamp_check_enabled m && negb (drop_check locals)) eqn:Eb.
  - destruct (Hraise eq_refl) as (e & m1 & E'). congruence.
  - rewrite (Hlog eq_refl) in E. injection E as <- _. exact Hd.
Qed.

Lemma on_drop_distance_idle (locals : Locals) (m : t F) :
  drop_check locals = false -> on_drop_distance locals m = Ok locals m.
Proof.
  intros Hd. unfold on_drop_distance, bind, get, ret. rewrite Hd. reflexivity.
Qed.

Lemma on_pickup_distance_returns (locals : Locals) :
  returns (fun l => drop_check l = drop_check locals) (on_pickup_distance locals).
Proof.
  unfold on_pickup_distance.
  apply returns_then; intros m. apply returns_then; intros [|].
  - apply returns_then; intros _. now apply returns_ret.
  - now apply returns_ret.
Qed.

Lemma process_loc_returns (loc : Loc.t F) (locals : Locals) :
  drop_check locals = false ->
  returns (fun l => drop_check l = false) (process_loc loc locals).
Proof.
  intros Hd. unfold process_loc.
  apply returns_then; intros _. cbv zeta. apply returns_then; intros m.
  do 4 (apply returns_then; intros _).
  apply (returns_bind (fun l => drop_check l = false)).
  - unfold dispatch_signals.
    apply (returns_bind (fun l => drop_check l = false)).
    + destruct (pickup_signal _ _).
      * intros m0 l m' E. rewrite (on_pickup_signal_returns _ _ _ _ _ E). exact Hd.
      * now apply returns_ret.
    + intros l1 H1. destruct (drop_signal _ _).
      * now apply on_drop_signal_returns.
      * now apply returns_ret.
  - intros l2 H2. apply (returns_bind (fun l => drop_check l = false)).
    + intros m0 l m' E. rewrite on_drop_distance_idle in E by exact H2.
      injection E as <- _. exact H2.
    + intros l3 H3 m0 l m' E.
      rewrite (on_pickup_distance_returns _ _ _ _ E). exact H3.
Qed.

Lemma process_all_returns (locs : list (Loc.t F)) :
  forall locals,
    drop_check locals = false ->
    returns (fun l => drop_check l = false) (process_all locs locals).
Proof.
  induction locs as [|loc locs IH]; intros locals Hd; simpl.
  - now apply returns_ret.
  - eapply returns_bind; [now apply process_loc_returns | exact IH].
Qed.

Lemma tick_returns (locals : Locals) :
  drop_check locals = false ->
  returns (fun l => drop_check l = false) (tick locals).
Proof.
  intros Hd. unfold tick.
  apply returns_then; intros _. apply returns_then; intros m. cbv zeta.
  eapply returns_bind; [now apply process_all_returns |].
  intros l1 H1. apply returns_then; intros m1. apply returns_ret.
  destruct (Database.get_loc_data _ _); [exact H1 |].
  destruct (curr_loc_time m1); [exact H1 | exact H1].
Qed.

Lemma run_op_drop_check (op : Op F) (st : Locals * t F) :
  drop_check (fst st) = false -> drop_check (fst (run_op op st)) = false.
Proof.
  destruct st as [locals m]. simpl. intros Hd.
  destruct op; unfold run_op; try exact Hd.
  - pose proof (tick_returns locals Hd m) as R.
    destruct (tick locals m) as [l m' | e m']; [exact (R _ _ eq_refl) | exact Hd].
  - pose proof (process_loc_returns loc locals Hd m) as R.
    destruct (process_loc loc locals m) as [l m' | e m'];
      [exact (R _ _ eq_refl) | exact Hd].
Qed.

Lemma reachable_drop_check (st : Locals * t F) :
  reachable st -> drop_check (fst st) = false.
Proof.
  induction 1 as [db clock | op st Hst IH]; [reflexivity |].
  now apply run_op_drop_check.
Qed.


Lemma on_pickup_signal_idle (loc_id : Z) (locals : Locals) (m : t F) :
  clamp_check_enabled m = false ->
  on_pickup_signal loc_id locals m
  = Ok locals (set_trace (trace m ++ [Log "PICKUP"]) m).
Proof.
  intros Hc.
  unfold on_pickup_signal. unfold bind at 1. simpl. unfold bind at 1. simpl.
  replace (clamp_check_enabled (set_trace (trace m ++ [Log "PICKUP"]) m))
    with (clamp_check_enabled m) by reflexivity.
  rewrite Hc. reflexivity.
Qed.

(** X19. Clamp events in an aisle or in the charging area are logged
    and otherwise ignored: a pickup signal, a drop signal, or both on
    one sample, leave the histories, the pickup check, the alerts and the
    locals of the loop as they are. *)
Theorem X19_signals_ignored_in_aisles
    (loc_id : Z) (locals : Locals) (m : t F) :
  curr_loc_type m = Some "aisle" \/ curr_loc_type m = Some "charging" ->
  on_pickup_signal loc_id locals m
  = Ok locals (set_trace (trace m ++ [Log "PICKUP"]) m)
  /\ on_drop_signal loc_id locals m
     = Ok locals (set_trace (trace m ++ [Log "DROP"]) m)
  /\ dispatch_signals true true loc_id locals m
     = Ok locals (set_trace (trace m ++ [Log "PICKUP"; Log "DROP"]) m).
Proof.
  intros Hty.
  assert (Hc : clamp_check_enabled m = false).
  { unfold clamp_check_enabled. destruct Hty as [-> | ->]; reflexivity. }
  assert (Hp : on_pickup_signal loc_id locals m
               = Ok locals (set_trace (trace m ++ [Log "PICKUP"]) m))
    by now apply on_pickup_signal_idle.
  assert (Hd : forall m0 : t F,
             clamp_check_enabled m0 = false ->
             on_drop_signal loc_id locals m0
             = Ok locals (set_trace (trace m0 ++ [Log "DROP"]) m0)).
  { intros m0 H0. apply on_drop_signal_idle. now rewrite H0. }
  split; [exact Hp |]. split; [now apply Hd |].
  unfold dispatch_signals, bind. rewrite Hp, Hd by exact Hc.
  unfold set_trace. simpl. rewrite <- app_assoc. reflexivity.
Qed.
End Returns.

(** ** Trips *)

Section Trips.
Context {F : Type} `{Arith F}.

(** The length of the leg between two coordinates, as [get_distance]
    computes it. *)
Definition leg (c1 c2 : Coords F) : F :=
  fsqrt (fadd (fsq (fsub (cx c1) (cx c2))) (fsq (fsub (cy c1) (cy c2)))).

(** The legs of a path. *)
Fixpoint legs (c : Coords F) (path : list (Coords F)) : list F :=
  match path with
  | [] => []
  | c' :: rest => leg c c' :: legs c' rest
  end.

(** [append_coords] called with each coordinate of a path in turn. *)
Fixpoint append_path (path : list (Coords F)) (trip : Trip.t F) : exn + Trip.t F :=
  match path with
  | [] => inr trip
  | c :: rest =>
      match Trip.append_coords (Some c) trip with
      | inl e => inl e
      | inr trip' => append_path rest trip'
      end
  end.

(** What [append_coords] leaves alone. *)
Definition same_journey (trip trip' : Trip.t F) : Prop :=
  Trip.carry_num trip' = Trip.carry_num trip
  /\ Trip.start_time trip' = Trip.start_time trip
  /\ Trip.finish_time trip' = Trip.finish_time trip
  /\ Trip.origin trip' = Trip.origin trip
  /\ Trip.dest trip' = Trip.dest trip
  /\ Trip.travel_time trip' = Trip.travel_time trip
  /\ Trip.avg_speed trip' = Trip.avg_speed trip
  /\ Trip.speeds trip' = Trip.speeds trip.

Lemma append_path_from (path : list (Coords F)) :
  forall (trip : Trip.t F) (c : Coords F),
    Trip.latest_coords trip = Some c ->
    exists trip',
      append_path path trip = inr trip'
      /\ Trip.distance trip' = fold_left fadd (legs c path) (Trip.distance trip)
      /\ Trip.latest_coords trip' = last (c :: path)
      /\ same_journey trip trip'.
Proof.
  induction path as [|c' rest IH]; intros trip c Hc; simpl.
  - exists trip. repeat split; auto.
  - unfold Trip.append_coords. rewrite Hc. simpl.
    match goal with
    | |- context [append_path rest ?t1] =>
        destruct (IH t1 c' eq_refl) as (trip' & E & D & L & J)
    end.
    exists trip'. split; [exact E |]. split; [exact D |].
    split; [exact L | exact J].
Qed.


End Trips.

(** ** Starting a job *)

Section StartJob.
Import JobManager.
Context {F : Type} `{Arith F}.

(** The driver of a job drives this truck. *)
Definition on_truck (truck_id : Z) (tb : Tables F) (driver_id : Z) : bool :=
  existsb (fun d => (driver_id =? cd_id d) && (cd_clamp_id d =? truck_id))
          (clamp_driver tb).

(** A row of [jobs] after a successful [start_job]. *)
Definition restarted (job_id truck_id : Z) (tb : Tables F) (j : JobRow)
    (driver_id : Z) : JobRow :=
  if j_id j =? job_id then set_active 1 j
  else if on_truck truck_id tb driver_id && (j_active j =? 1) then set_active 0 j
  else j.

Lemma stop_condition (truck_id : Z) (tb : Tables F) (j : JobRow) (driver_id : Z) :
  existsb (fun d => (driver_id =? cd_id d) && (cd_clamp_id d =? truck_id)
                    && (j_active j =? 1))
          (clamp_driver tb)
  = on_truck truck_id tb driver_id && (j_active j =? 1).
Proof.
  unfold on_truck. induction (clamp_driver tb) as [|d l IH]; simpl;
    [reflexivity |].
  rewrite IH. destruct (j_active j =? 1); rewrite ?andb_true_r, ?andb_false_r;
    reflexivity.
Qed.

Lemma restart_jobs (job_id truck_id : Z) (tb : Tables F) :
  jobs (fst (start_job_monitor job_id truck_id
               (stop_previous_job_monitor truck_id tb)))
  = map (fun '(j, driver_id) => (restarted job_id truck_id tb j driver_id, driver_id))
        (jobs tb).
Proof.
  unfold start_job_monitor, stop_previous_job_monitor. simpl.
  rewrite map_map. apply map_ext. intros [j driver_id].
  rewrite stop_condition. unfold restarted.
  destruct (on_truck truck_id tb driver_id && (j_active j =? 1)); simpl;
    destruct (j_id j =? job_id); reflexivity.
Qed.

Lemma start_job_Started (job_data : option Row) (tb : Tables F) :
  reply (start_job job_data tb) = Started ->
  exists body job_id truck_id,
    job_data = Some body
    /\ dict_get "job_id" body = Some job_id /\ job_id <> 0
    /\ get_job_truck job_id tb = Some truck_id /\ truck_id <> 0
    /\ check_for_active_tasks truck_id tb = false
    /\ start_job job_data tb
       = mkOutcome Started
           (fst (start_job_monitor job_id truck_id
                   (stop_previous_job_monitor truck_id tb)))
           Closed (Some (job_id, truck_id)).
Proof.
  unfold start_job. destruct job_data as [body |]; [| discriminate].
  destruct (dict_get "job_id" body) as [job_id |] eqn:Ej; [| discriminate].
  destruct (Z.eq_dec job_id 0) as [-> | Hj]; [discriminate |].
  replace (match job_id with 0 => _ | _ => _ end)
    with (match get_job_truck job_id tb with
          | Some 0 | None => mkOutcome (F := F) MissingTruckId tb LeftOpen None
          | Some truck_id =>
              if check_for_active_tasks truck_id tb
              then mkOutcome TruckHasActiveTasks tb Closed None
              else
                let tb1 := stop_previous_job_monitor truck_id tb in
                let '(tb2, started) := start_job_monitor job_id truck_id tb1 in
                mkOutcome Started tb2 Closed (Some started)
          end)
    by (destruct job_id; [contradiction | reflexivity | reflexivity]).
  destruct (get_job_truck job_id tb) as [truck_id |] eqn:Et; [| discriminate].
  destruct (Z.eq_dec truck_id 0) as [-> | Ht]; [discriminate |].
  replace (match truck_id with 0 => _ | _ => _ end)
    with (if check_for_active_tasks truck_id tb
          then mkOutcome (F := F) TruckHasActiveTasks tb Closed None
          else
            let tb1 := stop_previous_job_monitor truck_id tb in
            let '(tb2, started) := start_job_monitor job_id truck_id tb1 in
            mkOutcome Started tb2 Closed (Some started))
    by (destruct truck_id; [contradiction | reflexivity | reflexivity]).
  destruct (check_for_active_tasks truck_id tb) eqn:Ec; [discriminate |].
  intros _. exists body, job_id, truck_id. auto 10.
Qed.

Lemma start_job_refused (job_data : option Row) (tb : Tables F) :
  reply (start_job job_data tb) <> Started ->
  tables (start_job job_data tb) = tb
  /\ monitor (start_job job_data tb) = None
  /\ (reply (start_job job_data tb) = MissingTruckId ->
      handle (start_job job_data tb) = LeftOpen).
Proof.
  unfold start_job. destruct job_data as [body |]; [| now auto].
  destruct (dict_get "job_id" body) as [[| job_id | job_id] |];
    try (simpl; intuition discriminate);
    (destruct (get_job_truck _ tb) as [[| truck_id | truck_id] |];
     try (simpl; intuition discriminate);
     (destruct (check_for_active_tasks _ tb);
      simpl; intuition discriminate)).
Qed.

(** X22. [start_job] changes the tables only when it replies with
    success, and the reply for a job without truck leaves the database
    handle open.  It succeeds exactly for a job id other than 0 whose
    truck has an id other than 0 and no open task in an active job; then
    the handle is closed, a monitor is started for the job and its truck,
    every row of the job is active, every other active job of a driver
    of that truck is deactivated, and the other rows are as before: the
    started job is the only active job of the truck. *)
Theorem X22_start_job_outcomes (job_data : option Row) (tb : Tables F) :
  (reply (start_job job_data tb) <> Started ->
   tables (start_job job_data tb) = tb
   /\ monitor (start_job job_data tb) = None
   /\ (reply (start_job job_data tb) = MissingTruckId ->
       handle (start_job job_data tb) = LeftOpen))
  /\ (reply (start_job job_data tb) = Started ->
      exists body job_id truck_id,
        job_data = Some body
        /\ dict_get "job_id" body = Some job_id /\ job_id <> 0
        /\ get_job_truck job_id tb = Some truck_id /\ truck_id <> 0
        /\ check_for_active_tasks truck_id tb = false
        /\ handle (start_job job_data tb) = Closed
        /\ monitor (start_job job_data tb) = Some (job_id, truck_id)
        /\ clamp_driver (tables (start_job job_data tb)) = clamp_driver tb
        /\ job_tasks (tables (start_job job_data tb)) = job_tasks tb
        /\ jobs (tables (start_job job_data tb))
           = map (fun '(j, driver_id) =>
                    (restarted job_id truck_id tb j driver_id, driver_id))
                 (jobs tb)
        /\ forall j driver_id,
             In (j, driver_id) (jobs (tables (start_job job_data tb))) ->
             (j_id j = job_id -> j_active j = 1)
             /\ (on_truck truck_id tb driver_id = true -> j_active j = 1 ->
                 j_id j = job_id))
  /\ (forall body job_id truck_id,
        job_data = Some body ->
        dict_get "job_id" body = Some job_id -> job_id <> 0 ->
        get_job_truck job_id tb = Some truck_id -> truck_id <> 0 ->
        check_for_active_tasks truck_id tb = false ->
        reply (start_job job_data tb) = Started).
Proof.
  split; [apply start_job_refused |].
  split.
  2:{ intros body job_id truck_id -> Ej Hj Et Ht Ec.
      unfold start_job. rewrite Ej.
      destruct job_id; [contradiction | |];
        (rewrite Et; destruct truck_id; [contradiction | |];
         rewrite Ec; reflexivity). }
  intros Hs.
  destruct (start_job_Started job_data tb Hs)
    as (body & job_id & truck_id & Eb & Ej & Hj & Et & Ht & Ec & ->).
  exists body, job_id, truck_id. simpl.
  repeat (split; [assumption || reflexivity |]).
  split; [apply restart_jobs |].
  intros j driver_id Hin.
  change (In (j, driver_id)
            (jobs (fst (start_job_monitor job_id truck_id
                          (stop_previous_job_monitor truck_id tb))))) in Hin.
  rewrite restart_jobs in Hin. apply in_map_iff in Hin.
  destruct Hin as ([j0 d0] & E & _). injection E as <- <-.
  unfold restarted.
  destruct (j_id j0 =? job_id) eqn:Ei; simpl.
  - split; [reflexivity |]. intros _ _. now apply Z.eqb_eq.
  - apply Z.eqb_neq in Ei.
    destruct (on_truck truck_id tb d0) eqn:Eo; simpl.
    + destruct (j_active j0 =? 1) eqn:Ea; simpl.
      * split; [contradiction | discriminate].
      * apply Z.eqb_neq in Ea. split; [contradiction | contradiction].
    + split; [contradiction | discriminate].
Qed.

(** X23. Starting a job stops the monitor of the truck's previous
    job: a monitor of another job, whose row in [jobs] belongs to a
    driver of the same truck, finds its job inactive at its next
    iteration, whether it was active or not, and ends in [SystemExit]
    without processing a sample. *)
Theorem X23_start_job_stops_the_previous_monitor
    (job_data : option Row) (tb : Tables F) (job_id truck_id : Z)
    (locals : JobMonitor.Locals) (m : JobMonitor.t F) :
  reply (start_job job_data tb) = Started ->
  monitor (start_job job_data tb) = Some (job_id, truck_id) ->
  Database.jobs (JobMonitor.db_connection m)
  = map fst (jobs (tables (start_job job_data tb))) ->
  Database.job_id (JobMonitor.db_connection m) <> job_id ->
  (forall j driver_id,
     In (j, driver_id) (jobs tb) ->
     j_id j = Database.job_id (JobMonitor.db_connection m) ->
     on_truck truck_id tb driver_id = true) ->
  Database.is_job_active (JobMonitor.db_connection m) = false
  /\ JobMonitor.tick locals m
     = JobMonitor.Raise SystemExit
         (JobMonitor.set_trace
            (JobMonitor.trace m
             ++ [JobMonitor.Log "DEACTIVATED"; JobMonitor.DB_close_db]) m).
Proof.
  intros Hs Hm Hjobs Hne Htruck.
  destruct (start_job_Started job_data tb Hs)
    as (body & job' & truck' & Eb & Ej & Hj & Et & Ht & Ec & Eout).
  rewrite Eout in Hm, Hjobs. cbn [tables monitor] in Hm, Hjobs.
  injection Hm as -> ->.
  rewrite restart_jobs, map_map in Hjobs.
  assert (Ha : Database.is_job_active (JobMonitor.db_connection m) = false).
  { unfold Database.is_job_active. rewrite Hjobs.
    set (mine := Database.job_id (JobMonitor.db_connection m)) in *.
    clear Hjobs.
    induction (jobs tb) as [|[j d] rows IH]; simpl; [reflexivity |].
    destruct (j_id (restarted job_id truck_id tb j d) =? mine) eqn:Ei.
    - assert (Eid : j_id j = mine).
      { apply Z.eqb_eq in Ei. rewrite <- Ei. unfold restarted.
        destruct (j_id j =? job_id); [reflexivity |].
        destruct (_ && _); reflexivity. }
      assert (Ho : on_truck truck_id tb d = true)
        by (apply (Htruck j d); [now left | exact Eid]).
      unfold restarted.
      assert (En : (j_id j =? job_id) = false) by (apply Z.eqb_neq; congruence).
      rewrite En, Ho. simpl.
      destruct (j_active j =? 1) eqn:Ea; [reflexivity | exact Ea].
    - apply IH. intros j' d' Hin. apply Htruck. now right. }
  split; [exact Ha | now apply tick_inactive].
Qed.
End StartJob.

(** ** More of the handler's writes *)

Section HandlerWritesMore.
Context {F : Type} `{Arith F}.

(** The alert refers to one of the items. *)
Definition about_items (items : list Item.t) (a : AlertRow) : bool :=
  existsb (fun item => match a_item_id a with
                       | Some iid => iid =? Item.id item
                       | None => false
                       end) items.

Lemma cancel_each_item (items : list Item.t) :
  forall db : Database.t F,
    Database.alerts
      (fold_left (fun db item =>
                    Database.deactivate
                      (fun a => match a_item_id a with
                                | Some iid => iid =? Item.id item
                                | None => false
                                end) db)
                 items db)
    = map (fun a => if (a_job_id a =? Database.job_id db) && about_items items a
                    then cancelled a else a)
          (Database.alerts db).
Proof.
  induction items as [|item items IH]; intros db; simpl.
  - rewrite <- (map_id (Database.alerts db)) at 1. apply map_ext. intros a.
    now rewrite andb_false_r.
  - rewrite IH.
    change (Database.job_id (Database.deactivate _ db)) with (Database.job_id db).
    rewrite deactivate_alerts, map_map. apply map_ext. intros a.
    unfold about_items. simpl.
    destruct (a_job_id a =? Database.job_id db) eqn:Ej; simpl.
    + destruct (match a_item_id a with
                | Some iid => iid =? Item.id item
                | None => false
                end) eqn:Ei; simpl.
      * rewrite Ej. simpl. destruct (existsb _ items); reflexivity.
      * rewrite Ej. reflexivity.
    + rewrite Ej. reflexivity.
Qed.

(** X24. On a writing handler [cancel_item_alerts] deactivates exactly
    the alerts of the handler's job that refer to one of the given
    items, whatever their type and location, and leaves every other row
    as it is; alerts without an item are never among them, and with an
    empty list nothing changes. *)
Theorem X24_cancel_item_alerts_rows
    (items : list Item.t) (db : Database.t F) :
  Database.active db = true ->
  Database.alerts (Database.cancel_item_alerts items db)
  = map (fun a => if (a_job_id a =? Database.job_id db) && about_items items a
                  then cancelled a else a)
        (Database.alerts db)
  /\ (forall a, a_item_id a = None -> about_items items a = false)
  /\ Database.cancel_item_alerts [] db = db
  /\ forall a i,
       In a (Database.alerts (Database.cancel_item_alerts items db)) ->
       a_job_id a = Database.job_id db ->
       a_item_id a = Some i -> In i (map Item.id items) ->
       a_active a = 0.
Proof.
  intros Ha.
  assert (E : Database.alerts (Database.cancel_item_alerts items db)
              = map (fun a => if (a_job_id a =? Database.job_id db)
                                 && about_items items a
                              then cancelled a else a)
                    (Database.alerts db)).
  { unfold Database.cancel_item_alerts. rewrite Ha. simpl. apply cancel_each_item. }
  split; [exact E |]. split; [| split].
  - intros a Hn. unfold about_items. rewrite Hn. clear E.
    induction items as [|item items IH]; simpl; [reflexivity | exact IH].
  - unfold Database.cancel_item_alerts. rewrite Ha. reflexivity.
  - intros a i Hin Hj Hi Hmem. rewrite E in Hin. apply in_map_iff in Hin.
    destruct Hin as (a0 & Ea & _).
    assert (Hab : about_items items a0 = true -> a = cancelled a0 -> a_active a = 0)
      by (intros _ ->; reflexivity).
    destruct ((a_job_id a0 =? Database.job_id db) && about_items items a0) eqn:Ec.
    + subst a. reflexivity.
    + subst a0. rewrite Hj, Z.eqb_refl in Ec. simpl in Ec.
      unfold about_items in Ec. rewrite Hi in Ec.
      apply in_map_iff in Hmem. destruct Hmem as (item & <- & Hitem).
      rewrite existsb_false_iff in Ec. specialize (Ec item Hitem).
      rewrite Z.eqb_refl in Ec. discriminate.
Qed.

Lemma save_each_trip (cs : list (Carry.t F)) :
  forall db : Database.t F,
    Database.active db = true ->
    let db' := fold_left (fun db carry => Database.__save_trips carry db) cs db in
    Database.carry_trips db'
    = Database.carry_trips db
      ++ flat_map (fun c => map (fun trip => (Database.job_id db, trip))
                                (Carry.trips c)) cs
    /\ Database.carries db' = Database.carries db
    /\ Database.jobs db' = Database.jobs db
    /\ Database.alerts db' = Database.alerts db.
Proof.
  induction cs as [|c cs IH]; intros db Ha; simpl.
  - rewrite app_nil_r. auto.
  - assert (Ha' : Database.active (Database.__save_trips c db) = true).
    { unfold Database.__save_trips. rewrite Ha. exact Ha. }
    destruct (IH _ Ha') as (T & C & J & A). cbv zeta in T, C, J, A.
    rewrite T, C, J, A. unfold Database.__save_trips. rewrite Ha. simpl.
    rewrite <- app_assoc. auto.
Qed.

End HandlerWritesMore.

(** * The further properties at the scenarios *)

Section FurtherScenarios.
Import JobMonitor.

(** The store of the scenarios with two location samples of truck 1 at
    the stow location 1, clamps open, one and two seconds after the job
    started. *)
Definition ex_db_moving : Database.t Q :=
  {| Database.config := ex_config; Database.job_id := 1; Database.truck_id := 1;
     Database.active := true;
     Database.alerts := []; Database.next_alert_id := 1;
     Database.items := Database.items (ex_db [2]);
     Database.detected_items := [];
     Database.loc_data :=
       [mkLocRow 1 1 1%Q 0%Q 2000000 1%Q 0; mkLocRow 1 1 0%Q 0%Q 1000000 1%Q 0];
     Database.geo_features := Database.geo_features (ex_db [2]);
     Database.jobs := Database.jobs (ex_db [2]);
     Database.job_tasks := Database.job_tasks (ex_db [2]);
     Database.tasks := Database.tasks (ex_db [2]);
     Database.tasks_lists := [1];
     Database.carries := []; Database.carry_trips := [] |}.

Definition ex_moving : Locals * t Q :=
  (initial_locals (__init__ ex_db_moving 0), __init__ ex_db_moving 0).

(** The monitor of the scenarios once its job is deactivated. *)
Definition ex_stopped : t Q :=
  set_environment
    (Database.set_jobs [mkJob 1 0 0 None None 0 0] (ex_db [2])) 5
    (snd (ex_monitor [2])).

(** A sample in an aisle. *)
Definition ex_aisle_sample : Loc.t Q :=
  {| Loc.geo_feature_id := 4; Loc.x := 0%Q; Loc.y := 0%Q; Loc.timestamp := 1000000;
     Loc.speed := 1%Q; Loc.clamp_status := 0x40; Loc.type := "aisle" |}.

(** An active alert for item 8 at location 2, and one without item. *)
Definition ex_db_alerted : Database.t Q :=
  Database.create_alert 2 "remaining_tasks" None (Some 0)
    (Database.create_alert 2 "drop_items" (Some [ex_item7; ex_item7_at_2]) (Some 0)
       (ex_db [2])).

(** Job 1 of driver 31 is active and done, job 2 of the same driver
    waits; driver 31 drives truck 1. *)
Definition ex_tables : JobManager.Tables Q :=
  {| JobManager.jobs := [(mkJob 1 1 1 None None 0 0, 31); (mkJob 2 0 0 None None 0 0, 31)];
     JobManager.clamp_driver := [JobManager.mkClampDriver 31 1];
     JobManager.job_tasks := [mkJobTask 11 1 21 (Some 7) 1 None None None;
                              mkJobTask 12 2 22 None 0 None None None] |}.

Definition ex_request : option Row := Some [("job_id", 2)].

(** The monitor of job 1 when it reads the table after the request. *)
Definition ex_previous_monitor : t Q :=
  set_environment
    (Database.set_jobs
       (map fst (JobManager.jobs
                   (JobManager.tables (JobManager.start_job ex_request ex_tables))))
       (ex_db [2])) 5
    (snd (ex_monitor [2])).

Lemma X1_witness :
  Database.active (ex_db_with false [2]) = false
  /\ forall ty, Database.cancel_alerts ty (ex_db_with false [2])
                = ex_db_with false [2].
Proof.
  assert (H1 : Database.active (ex_db_with false [2]) = false) by reflexivity.
  split; [exact H1 |].
  destruct (X1_dry_run_changes_nothing (ex_db_with false [2]) H1)
    as (_ & _ & _ & W & _).
  exact W.
Defined.

Lemma X2_witness :
  Database.active (ex_db [2]) = true
  /\ exists new,
       Database.alerts (Database.create_alert 2 "drop_items" (Some [ex_item7])
                          (Some 0) (ex_db [2]))
       = Database.alerts (ex_db [2]) ++ new
       /\ length new = 1%nat.
Proof.
  assert (H1 : Database.active (ex_db [2]) = true) by reflexivity.
  split; [exact H1 |].
  destruct (X2_create_alert_rows 2 "drop_items" (Some [ex_item7]) (Some 0)
              (ex_db [2]) H1) as (new & E & L & _).
  exists new. split; [exact E | exact L].
Defined.

Lemma X4_witness :
  Database.active (ex_db [2]) = true
  /\ Database.loc_has_active_dl_alerts 3
       (Database.create_alert 3 "drop_location" (Some [ex_item7]) (Some 0)
          (ex_db [2])) = true.
Proof.
  assert (H1 : Database.active (ex_db [2]) = true) by reflexivity.
  split; [exact H1 |].
  exact (proj1 (X4_drop_location_alert_seen_then_cancelled 3 (Some [ex_item7])
                  (Some 0) (ex_db [2]) H1)).
Defined.

Lemma X5_witness :
  is_clamp_alert_type "clamps_closed_warning" = true
  /\ Database.has_active_alerts
       (Database.create_alert 1 "clamps_closed_warning" None (Some 0) (ex_db [2]))
     = Database.has_active_alerts (ex_db [2]).
Proof.
  assert (H1 : is_clamp_alert_type "clamps_closed_warning" = true) by reflexivity.
  split; [exact H1 |].
  exact (proj1 (X5_clamp_alerts_do_not_block 1 "clamps_closed_warning" None
                  (Some 0) (ex_db [2]) H1)).
Defined.

Lemma X10_witness :
  reachable (ex_loaded [2; 5])
  /\ correct_dests (snd (ex_loaded [2; 5]))
     = map Task.dest (tasks (snd (ex_loaded [2; 5]))).
Proof.
  assert (H1 : reachable (ex_loaded [2; 5])) by exact (ex_loaded_reachable _).
  split; [exact H1 |].
  exact (proj2 (X10_location_lists_mirror_the_tasks (ex_loaded [2; 5]) H1)).
Defined.


Lemma X12_witness :
  exists m',
    check_drop 2 [] (snd (ex_loaded [2])) = Ok tt m'
    /\ latest_pickup_item_ids m' = [].
Proof.
  assert (E : exists m', check_drop 2 [] (snd (ex_loaded [2])) = Ok tt m')
    by (eexists; vm_compute; reflexivity).
  destruct E as (m' & E). exists m'. split; [exact E |].
  exact (proj1 (X12_check_drop_ends_with_check_job 2 [] (snd (ex_loaded [2])) m' E)).
Defined.


Lemma X14_witness :
  exists locals' m',
    tick (fst ex_moving) (snd ex_moving) = Ok locals' m'
    /\ Database.is_job_active (db_connection (snd ex_moving)) = true.
Proof.
  assert (E : exists locals' m',
             tick (fst ex_moving) (snd ex_moving) = Ok locals' m')
    by (eexists _, _; vm_compute; reflexivity).
  destruct E as (locals' & m' & E). exists locals', m'. split; [exact E |].
  exact (proj1 (X14_tick_moves_the_cursor (fst ex_moving) locals'
                  (snd ex_moving) m' E)).
Defined.

Lemma X15_witness :
  Database.is_job_active (db_connection ex_stopped) = false
  /\ exists m', tick (fst (ex_monitor [2])) ex_stopped = Raise SystemExit m'.
Proof.
  assert (H1 : Database.is_job_active (db_connection ex_stopped) = false)
    by reflexivity.
  split; [exact H1 |].
  eexists. exact (X15_tick_exits_when_deactivated (fst (ex_monitor [2])) ex_stopped H1).
Defined.

Lemma X16_witness :
  Database.active (db_connection (snd (ex_loaded_dry [2]))) = false
  /\ forallb (fun op => negb (is_environment op)) [ex_drop 2 [7]] = true
  /\ db_connection (snd (run_ops [ex_drop 2 [7]] (ex_loaded_dry [2])))
     = db_connection (snd (ex_loaded_dry [2])).
Proof.
  assert (H1 : Database.active (db_connection (snd (ex_loaded_dry [2]))) = false)
    by (vm_compute; reflexivity).
  assert (H2 : forallb (fun op : Op Q => negb (is_environment op)) [ex_drop 2 [7]]
               = true) by reflexivity.
  split; [exact H1 |]. split; [exact H2 |].
  exact (X16_dry_monitor_leaves_the_store [ex_drop 2 [7]] (ex_loaded_dry [2]) H1 H2).
Defined.

Lemma X17_witness :
  reachable ex_unblocked
  /\ (job_saves (snd ex_unblocked) <= 1)%nat.
Proof.
  assert (H1 : reachable ex_unblocked) by exact ex_unblocked_reachable.
  split; [exact H1 |].
  exact (proj1 (X17_job_saved_at_most_once ex_unblocked H1)).
Defined.


Lemma X19_witness :
  (curr_loc_type (set_loc ex_aisle_sample (snd (ex_monitor [2]))) = Some "aisle"
   \/ curr_loc_type (set_loc ex_aisle_sample (snd (ex_monitor [2])))
      = Some "charging")
  /\ exists m',
       on_drop_signal 4 (fst (ex_monitor [2]))
         (set_loc ex_aisle_sample (snd (ex_monitor [2])))
       = Ok (fst (ex_monitor [2])) m'.
Proof.
  assert (H1 : curr_loc_type (set_loc ex_aisle_sample (snd (ex_monitor [2])))
               = Some "aisle"
               \/ curr_loc_type (set_loc ex_aisle_sample (snd (ex_monitor [2])))
                  = Some "charging") by (left; reflexivity).
  split; [exact H1 |].
  destruct (X19_signals_ignored_in_aisles 4 (fst (ex_monitor [2]))
              (set_loc ex_aisle_sample (snd (ex_monitor [2]))) H1) as (_ & E & _).
  eexists. exact E.
Defined.


Lemma X23_witness :
  JobManager.reply (JobManager.start_job ex_request ex_tables) = JobManager.Started
  /\ JobManager.monitor (JobManager.start_job ex_request ex_tables) = Some (2, 1)
  /\ Database.is_job_active (db_connection ex_previous_monitor) = false.
Proof.
  assert (H1 : JobManager.reply (JobManager.start_job ex_request ex_tables)
               = JobManager.Started) by reflexivity.
  assert (H2 : JobManager.monitor (JobManager.start_job ex_request ex_tables)
               = Some (2, 1)) by reflexivity.
  assert (H3 : Database.jobs (db_connection ex_previous_monitor)
               = map fst (JobManager.jobs
                            (JobManager.tables
                               (JobManager.start_job ex_request ex_tables))))
    by reflexivity.
  assert (H4 : Database.job_id (db_connection ex_previous_monitor) <> 2)
    by (vm_compute; discriminate).
  assert (H5 : forall j driver_id,
             In (j, driver_id) (JobManager.jobs ex_tables) ->
             j_id j = Database.job_id (db_connection ex_previous_monitor) ->
             on_truck 1 ex_tables driver_id = true).
  { intros j driver_id [E | [E | []]] _; injection E as <- <-; reflexivity. }
  split; [exact H1 |]. split; [exact H2 |].
  exact (proj1 (X23_start_job_stops_the_previous_monitor ex_request ex_tables 2 1
                  (fst (ex_monitor [2])) ex_previous_monitor H1 H2 H3 H4 H5)).
Defined.

Lemma X24_witness :
  Database.active ex_db_alerted = true
  /\ map a_active
         (Database.alerts (Database.cancel_item_alerts [ex_item7] ex_db_alerted))
     = map a_active
         (map (fun a => if (a_job_id a =? Database.job_id ex_db_alerted)
                           && about_items [ex_item7] a
                        then cancelled a else a)
              (Database.alerts ex_db_alerted)).
Proof.
  assert (H1 : Database.active ex_db_alerted = true) by reflexivity.
  split; [exact H1 |].
  exact (f_equal (map a_active)
           (proj1 (X24_cancel_item_alerts_rows [ex_item7] ex_db_alerted H1))).
Defined.

End FurtherScenarios.

(** ** The labels of a drop validation *)

Section Labels.
Import JobMonitor.
Context {F : Type} `{Arith F}.

(** What [should_check_item_at_drop] reads. *)
Definition filter_kept (m m' : t F) : Prop :=
  latest_pickup_item_ids m' = latest_pickup_item_ids m
  /\ correct_origins m' = correct_origins m
  /\ pickup_history m' = pickup_history m
  /\ Database.alerts (db_connection m') = Database.alerts (db_connection m)
  /\ Database.job_id (db_connection m') = Database.job_id (db_connection m).

Lemma filter_kept_check (m m' : t F) (item : Item.t) :
  filter_kept m m' ->
  should_check_item_at_drop item m' = should_check_item_at_drop item m.
Proof.
  intros (I & O & P & A & J).
  unfold should_check_item_at_drop, Database.loc_has_active_dl_alerts.
  now rewrite I, O, P, A, J.
Qed.

Lemma save_item_loc_alerts item loc (db : Database.t F) :
  Database.alerts (Database.save_item_loc item loc db) = Database.alerts db
  /\ Database.job_id (Database.save_item_loc item loc db) = Database.job_id db.
Proof. unfold Database.save_item_loc. destruct (Database.active db); auto. Qed.

Lemma save_task_alerts task (db : Database.t F) :
  Database.alerts (Database.save_task task db) = Database.alerts db
  /\ Database.job_id (Database.save_task task db) = Database.job_id db.
Proof. unfold Database.save_task. destruct (Database.active db); auto. Qed.

(** One sensed item: it is skipped, or it receives one label. *)
Lemma classify_item_label (drop_location : Z) (labels labels' : Labels)
    (item : Item.t) (m m' : t F) :
  classify_item drop_location labels item m = Ok labels' m' ->
  filter_kept m m'
  /\ if should_check_item_at_drop item m
     then labels' = add_correct item labels
          \/ (labels' = add_wrong item labels
              /\ Item.item_origin item <> drop_location)
          \/ (labels' = add_returned item labels
              /\ Item.item_origin item = drop_location)
     else labels' = labels.
Proof.
  unfold classify_item. unfold bind at 1. simpl.
  destruct (should_check_item_at_drop item m); simpl.
  2:{ intros E. injection E as <- <-. split; [repeat split | reflexivity]. }
  destruct (scan_tasks _ _ _) as [[[i task] noe] |].
  - intros E.
    assert (Hm : filter_kept m m' /\ labels' = add_correct item labels).
    { destruct noe; unfold bind, when, emit, db_write, modify, ret in E;
        simpl in E; injection E as <- <-; (split; [| reflexivity]);
        unfold filter_kept; simpl;
        destruct (save_item_loc_alerts item drop_location (db_connection m))
          as [A1 J1];
        destruct (save_task_alerts (finalize_task task item m)
                    (Database.save_item_loc item drop_location (db_connection m)))
          as [A2 J2];
        repeat split; congruence. }
    destruct Hm as [Hk ->]. split; [exact Hk | now left].
  - destruct (Item.item_origin item =? drop_location) eqn:Eo; simpl.
    + intros E. injection E as <- <-. apply Z.eqb_eq in Eo.
      split; [repeat split | right; right; auto].
    + intros E. apply Z.eqb_neq in Eo.
      destruct (swap_frame item drop_location labels m) as [E' | (key & E')];
        rewrite E' in E; [| discriminate E].
      injection E as <- <-. split; [repeat split | right; left; auto].
Qed.

Lemma classify_items_labels (drop_location : Z) (sensed_items : list Item.t) :
  forall (labels labels' : Labels) (m m' : t F),
    classify_items drop_location sensed_items labels m = Ok labels' m' ->
    filter_kept m m'
    /\ exists c w r,
         correct_items labels' = correct_items labels ++ c
         /\ wrong_items labels' = wrong_items labels ++ w
         /\ returned_items labels' = returned_items labels ++ r
         /\ Permutation (c ++ w ++ r)
              (List.filter (fun item => should_check_item_at_drop item m)
                           sensed_items)
         /\ (forall item, In item w -> Item.item_origin item <> drop_location)
         /\ (forall item, In item r -> Item.item_origin item = drop_location).
Proof.
  induction sensed_items as [|item items IH]; intros labels labels' m m' E;
    simpl in E.
  - injection E as <- <-. split; [repeat split |].
    exists [], [], []. rewrite !app_nil_r. simpl.
    repeat split; auto; intros item [].
  - apply bind_Ok in E. destruct E as (labels1 & m1 & E1 & E2).
    destruct (classify_item_label _ _ _ _ _ _ E1) as [K1 L1].
    destruct (IH _ _ _ _ E2) as (K2 & c & w & r & Ec & Ew & Er & P & Hw & Hr).
    assert (K : filter_kept m m').
    { destruct K1 as (a1 & b1 & c1 & d1 & e1), K2 as (a2 & b2 & c2 & d2 & e2).
      repeat split; congruence. }
    split; [exact K |].
    assert (Hf : List.filter (fun it => should_check_item_at_drop it m1) items
                 = List.filter (fun it => should_check_item_at_drop it m) items).
    { apply List.filter_ext. intros it. now apply filter_kept_check. }
    rewrite Hf in P. simpl.
    destruct (should_check_item_at_drop item m).
    + destruct L1 as [-> | [[-> Ho] | [-> Ho]]]; simpl in Ec, Ew, Er.
      * exists (item :: c), w, r. rewrite Ec, Ew, Er, <- !app_assoc. simpl.
        repeat split; auto.
      * exists c, (item :: w), r. rewrite Ec, Ew, Er, <- !app_assoc. simpl.
        repeat split; auto.
        -- etransitivity; [symmetry; apply Permutation_middle |].
           now constructor.
        -- intros it [<- | Hin]; auto.
      * exists c, w, (item :: r). rewrite Ec, Ew, Er, <- !app_assoc. simpl.
        repeat split; auto.
        -- rewrite app_assoc.
           etransitivity; [symmetry; apply Permutation_middle |].
           rewrite <- app_assoc. now constructor.
        -- intros it [<- | Hin]; auto.
    + subst labels1. exists c, w, r. repeat split; auto.
Qed.

(** X26. When the classification loop of [check_drop] returns, every
    sensed item that passes [should_check_item_at_drop] has received
    exactly one of the three labels and the other items none; the filter
    gives the same answers throughout the loop; a wrong item was dropped
    away from its origin and a returned item at its origin. *)
Theorem X26_checked_items_get_one_label
    (drop_location : Z) (sensed_items : list Item.t)
    (labels' : Labels) (m m' : t F) :
  classify_items drop_location sensed_items no_labels m = Ok labels' m' ->
  Permutation
    (correct_items labels' ++ wrong_items labels' ++ returned_items labels')
    (List.filter (fun item => should_check_item_at_drop item m) sensed_items)
  /\ (forall item, should_check_item_at_drop item m'
                   = should_check_item_at_drop item m)
  /\ (forall item, In item (wrong_items labels') ->
                   Item.item_origin item <> drop_location)
  /\ (forall item, In item (returned_items labels') ->
                   Item.item_origin item = drop_location).
Proof.
  intros E.
  destruct (classify_items_labels _ _ _ _ _ _ E)
    as (K & c & w & r & Ec & Ew & Er & P & Hw & Hr).
  simpl in Ec, Ew, Er. rewrite Ec, Ew, Er.
  split; [exact P |]. split; [| split; assumption].
  intros item. now apply filter_kept_check.
Qed.
End Labels.

(** ** What is saved can be read back *)

Section RoundTrips.
Context {F : Type} `{Arith F}.

(** A row of [job_tasks] once [save_task] has stored the task in it. *)
Definition stored (task : Task.t F) (r : JobTaskRow F) : JobTaskRow F :=
  {| jt_id := jt_id r; jt_job_id := jt_job_id r; jt_task_id := jt_task_id r;
     jt_item_id := Task.item_id task; jt_status := 1;
     jt_start_time := Task.start_time task;
     jt_finish_time := Task.finish_time task;
     jt_avg_speed := Task.avg_speed task |}.


(** An item read from the store after it was moved. *)
Definition moved_to (loc : Z) (item : Item.t) : Item.t :=
  {| Item.id := Item.id item; Item.model := Item.model item;
     Item.item_origin := loc; Item.serial_lock := Item.serial_lock item;
     Item.correct_loc_id := Item.correct_loc_id item |}.

Lemma filter_map_same {A : Type} (p : A -> bool) (g : A -> A) (l : list A) :
  (forall x, p (g x) = p x) ->
  List.filter p (map g l) = map g (List.filter p l).
Proof.
  intros Hp. induction l as [|a l IH]; simpl; [reflexivity |].
  rewrite Hp. destruct (p a); simpl; now rewrite IH.
Qed.

End RoundTrips.

Section LabelScenarios.
Import JobMonitor.

(** Items 7 and 8 as the reader senses them when both are dropped. *)
Definition ex_both_sensed : list Item.t :=
  Database.get_item_data [7; 8] (db_connection (snd (ex_loaded [2]))).

Lemma X26_witness :
  exists labels' m',
    classify_items 2 ex_both_sensed no_labels (snd (ex_loaded [2]))
    = Ok labels' m'
    /\ Permutation
         (correct_items labels' ++ wrong_items labels' ++ returned_items labels')
         (List.filter
            (fun item => should_check_item_at_drop item (snd (ex_loaded [2])))
            ex_both_sensed).
Proof.
  assert (E : exists labels' m',
             classify_items 2 ex_both_sensed no_labels (snd (ex_loaded [2]))
             = Ok labels' m')
    by (eexists _, _; vm_compute; reflexivity).
  destruct E as (labels' & m' & E). exists labels', m'. split; [exact E |].
  exact (proj1 (X26_checked_items_get_one_label 2 ex_both_sensed labels'
                  (snd (ex_loaded [2])) m' E)).
Defined.


End LabelScenarios.

(** ** Carries and their trips *)

Section CarryInvariant.
Import JobMonitor.
Context {F : Type} `{Arith F}.

(** A carry has a trip, and its trips bear its number. *)
Definition sound_carry (c : Carry.t F) : Prop :=
  Carry.trips c <> []
  /\ Forall (fun trip => Trip.carry_num trip = Carry.carry_num c) (Carry.trips c).

Definition sound_carries (m : t F) : Prop := Forall sound_carry (carries m).

Lemma last_In {A : Type} (l : list A) (x : A) : last l = Some x -> In x l.
Proof.
  induction l as [|a l IH]; [discriminate |].
  destruct l as [|b l]; simpl.
  - intros E. injection E as <-. now left.
  - intros E. right. now apply IH.
Qed.

Lemma py_last_In {A : Type} (what : string) (l : list A) (x : A) :
  py_last what l = inr x -> In x l.
Proof.
  unfold py_last. destruct (last l) as [y |] eqn:L; [| discriminate].
  intros E. injection E as <-. now apply last_In.
Qed.

Lemma sound_init (n : Z) (time : option Time) (loc : Z) :
  sound_carry (Carry.__init__ n time loc).
Proof.
  split; [discriminate |]. simpl. constructor; [reflexivity | constructor].
Qed.

Lemma sound_append_trip (time : option Time) (loc : Z) (c : Carry.t F) :
  sound_carry c -> sound_carry (Carry.append_trip time loc c).
Proof.
  intros [Hn Hall]. split; simpl.
  - intros E. apply app_eq_nil in E. destruct E as [_ E]. discriminate.
  - apply Forall_app. split; [exact Hall |].
    constructor; [reflexivity | constructor].
Qed.

Lemma sound_finished (loc : Z) (n : nat) (time : option Time) (c : Carry.t F) :
  sound_carry c -> sound_carry (Carry.finished loc n time c).
Proof.
  intros [Hn Hall]. unfold Carry.finished.
  destruct (Carry.accumulate _ _ _) as [total acc]. split; assumption.
Qed.

Lemma sound_add_stow_time (p q : option Time) (c c' : Carry.t F) :
  Carry.add_stow_time p q c = inr c' -> sound_carry c -> sound_carry c'.
Proof.
  unfold Carry.add_stow_time. destruct (get_time_delta p q); [discriminate |].
  intros E. injection E as <-. intros [Hn Hall]. split; assumption.
Qed.

Lemma sound_add_dock_time (p q : option Time) (c c' : Carry.t F) :
  Carry.add_dock_time p q c = inr c' -> sound_carry c -> sound_carry c'.
Proof.
  unfold Carry.add_dock_time. destruct (get_time_delta p q); [discriminate |].
  intros E. injection E as <-. intros [Hn Hall]. split; assumption.
Qed.

Lemma sound_set_last_trip (c : Carry.t F) (trip' : Trip.t F) :
  sound_carry c -> Trip.carry_num trip' = Carry.carry_num c ->
  sound_carry (Carry.set_trips (set_last trip' (Carry.trips c)) c).
Proof.
  intros [Hn Hall] E. split; simpl.
  - intros En. apply (f_equal (@length _)) in En.
    unfold set_last in En. rewrite length_insert in En.
    destruct (Carry.trips c); [congruence | discriminate].
  - unfold set_last. now apply Forall_insert.
Qed.

Lemma finished_carry_num (loc : Z) (time : option Time) (trip : Trip.t F) :
  forall r, Trip.finished loc time trip = r ->
            Trip.carry_num (match r with inl (_, t') => t' | inr t' => t' end)
            = Trip.carry_num trip.
Proof.
  intros r <-. unfold Trip.finished. simpl.
  destruct time; [destruct (Trip.start_time trip) |]; reflexivity.
Qed.

Lemma append_coords_carry_num (coords : option (Coords F)) (trip trip' : Trip.t F) :
  Trip.append_coords coords trip = inr trip' ->
  Trip.carry_num trip' = Trip.carry_num trip.
Proof.
  unfold Trip.append_coords.
  destruct (Trip.latest_coords trip);
    [destruct (get_distance _ _); [discriminate |] |];
    intros E; injection E as <-; reflexivity.
Qed.

(** A method keeps the carries sound, whether it returns or raises, and
    what it returns satisfies [Q]. *)
Definition keeps_carries {A : Type} (Q : A -> Prop) (c : M (F := F) A) : Prop :=
  forall m, sound_carries m ->
            match c m with
            | Ok a m' => Q a /\ sound_carries m'
            | Raise _ m' => sound_carries m'
            end.

Lemma keeps_ret {A : Type} (Q : A -> Prop) (a : A) : Q a -> keeps_carries Q (ret a).
Proof. intros Ha m Hm. split; assumption. Qed.

Lemma keeps_raise {A : Type} (Q : A -> Prop) (e : exn) :
  keeps_carries Q (raise e).
Proof. intros m Hm. exact Hm. Qed.

Lemma keeps_get : keeps_carries sound_carries get.
Proof. intros m Hm. split; assumption. Qed.

Lemma keeps_lift {A : Type} (r : exn + A) :
  keeps_carries (fun a => r = inr a) (lift r).
Proof. intros m Hm. destruct r; simpl; auto. Qed.

Lemma keeps_bind {A B : Type} (Q : A -> Prop) (P : B -> Prop)
    (c : M A) (k : A -> M B) :
  keeps_carries Q c -> (forall a, Q a -> keeps_carries P (k a)) ->
  keeps_carries P (bind c k).
Proof.
  intros Hc Hk m Hm. unfold bind. specialize (Hc m Hm).
  destruct (c m) as [a m1 | e m1]; [| exact Hc].
  destruct Hc as [Ha H1]. exact (Hk a Ha m1 H1).
Qed.

Lemma keeps_modify (f : t F -> t F) :
  (forall m, sound_carries m -> sound_carries (f m)) ->
  keeps_carries (fun _ => True) (modify f).
Proof. intros Hf m Hm. split; [exact I | now apply Hf]. Qed.

Lemma keeps_frame (f : t F -> t F) :
  (forall m, carries (f m) = carries m) ->
  keeps_carries (fun _ => True) (modify f).
Proof.
  intros Hf. apply keeps_modify. intros m Hm.
  unfold sound_carries. now rewrite Hf.
Qed.

Lemma keeps_when (b : bool) (c : M unit) :
  keeps_carries (fun _ => True) c -> keeps_carries (fun _ => True) (when b c).
Proof. intros Hc. destruct b; [exact Hc | now apply keeps_ret]. Qed.

Lemma keeps_any {A : Type} (Q : A -> Prop) (c : M A) :
  keeps_carries Q c -> keeps_carries (fun _ => True) c.
Proof.
  intros Hc m Hm. specialize (Hc m Hm).
  destruct (c m); [destruct Hc; auto | exact Hc].
Qed.

Lemma last_carry_sound : keeps_carries sound_carry last_carry.
Proof.
  unfold last_carry.
  eapply keeps_bind; [apply keeps_get | intros m Hm].
  intros m0 H0. destruct (py_last "carries" (carries m)) as [e | c] eqn:E; simpl.
  - exact H0.
  - split; [| exact H0].
    unfold sound_carries in Hm. rewrite Forall_forall in Hm. apply Hm.
    apply list_elem_of_In. eapply py_last_In. exact E.
Qed.

Lemma put_last_carry_sound (c : Carry.t F) :
  sound_carry c -> keeps_carries (fun _ => True) (put_last_carry c).
Proof.
  intros Hc. unfold put_last_carry. apply keeps_modify. intros m Hm.
  unfold sound_carries, set_last. simpl. now apply Forall_insert.
Qed.
End CarryInvariant.

Create HintDb carries.

Ltac carry_step :=
  lazymatch goal with
  | |- keeps_carries _ (JobMonitor.bind JobMonitor.get _) =>
      eapply keeps_bind; [apply keeps_get | intros ? ?]
  | |- keeps_carries _ (JobMonitor.bind (JobMonitor.lift _) _) =>
      eapply keeps_bind; [apply keeps_lift | intros ? ?]
  | |- keeps_carries _ (JobMonitor.bind JobMonitor.last_carry _) =>
      eapply keeps_bind; [apply last_carry_sound | intros ? ?]
  | |- keeps_carries _ (JobMonitor.bind _ _) =>
      eapply (keeps_bind (fun _ => True)); [| intros ? _]
  | |- keeps_carries _ (JobMonitor.ret _) => apply keeps_ret; exact I
  | |- keeps_carries _ (JobMonitor.raise _) => apply keeps_raise
  | |- keeps_carries _ (JobMonitor.when _ _) => apply keeps_when
  | |- keeps_carries _ (JobMonitor.emit _) =>
      apply keeps_frame; intros ?; reflexivity
  | |- keeps_carries _ (JobMonitor.db_write _ _) =>
      apply keeps_frame; intros ?; reflexivity
  | |- keeps_carries _ (JobMonitor.modify _) =>
      apply keeps_frame; intros ?; reflexivity
  | |- keeps_carries _ (JobMonitor.lift _) => eapply keeps_any; apply keeps_lift
  | |- keeps_carries _ JobMonitor.get => eapply keeps_any; apply keeps_get
  | |- keeps_carries _ (if ?b then _ else _) => destruct b
  | |- keeps_carries _ (match ?x with _ => _ end) => destruct x
  | |- keeps_carries _ (let _ := _ in _) => cbv zeta
  | |- keeps_carries _ _ => solve [eauto with carries]
  end.

Ltac carry_auto := repeat carry_step.

Section CarryInvariantMethods.
Import JobMonitor.
Context {F : Type} `{Arith F}.

Abbreviation carries_ok := (keeps_carries (F := F) (fun _ => True)).

Lemma create_alert_carries ty loc ws : carries_ok (create_alert ty loc ws).
Proof. unfold create_alert. carry_auto. Qed.
Hint Resolve create_alert_carries : carries.

Lemma update_carry_times_carries : carries_ok update_carry_times.
Proof.
  unfold update_carry_times.
  eapply keeps_bind; [apply keeps_get | intros m Hm].
  destruct (prev_loc_time m); [| carry_auto].
  destruct (match curr_loc_type m with Some ty => String.eqb ty "stow" | None => false end).
  - eapply keeps_bind; [apply last_carry_sound | intros carry Hc].
    eapply keeps_bind; [apply keeps_lift | intros carry' E].
    apply put_last_carry_sound. exact (sound_add_stow_time _ _ _ _ E Hc).
  - destruct (match curr_loc_type m with
              | Some ty => String.eqb ty "dock" || String.eqb ty "dockOS"
              | None => false
              end); [| carry_auto].
    eapply keeps_bind; [apply last_carry_sound | intros carry Hc].
    eapply keeps_bind; [apply keeps_lift | intros carry' E].
    apply put_last_carry_sound. exact (sound_add_dock_time _ _ _ _ E Hc).
Qed.
Hint Resolve update_carry_times_carries : carries.

Lemma event_distance_check_carries th co : carries_ok (event_distance_check th co).
Proof. unfold event_distance_check. carry_auto. Qed.
Hint Resolve event_distance_check_carries : carries.

Lemma check_pickup_carries co ti : carries_ok (check_pickup co ti).
Proof. unfold check_pickup. carry_auto. Qed.
Hint Resolve check_pickup_carries : carries.

Lemma finish_last_trip_carries loc ti : carries_ok (finish_last_trip loc ti).
Proof.
  unfold finish_last_trip.
  eapply keeps_bind; [apply last_carry_sound | intros carry Hc].
  eapply keeps_bind; [apply keeps_lift | intros trip E].
  assert (Hn : Trip.carry_num trip = Carry.carry_num carry).
  { destruct Hc as [_ Hall]. rewrite Forall_forall in Hall. apply Hall.
    apply list_elem_of_In. eapply py_last_In. exact E. }
  destruct (Trip.finished loc ti trip) as [[e trip'] | trip'] eqn:Ef.
  - eapply (keeps_bind (fun _ => True)); [| intros ? _; apply keeps_raise].
    apply put_last_carry_sound. apply sound_set_last_trip; [exact Hc |].
    rewrite <- Hn. exact (finished_carry_num _ _ _ _ Ef).
  - apply put_last_carry_sound. apply sound_set_last_trip; [exact Hc |].
    rewrite <- Hn. exact (finished_carry_num _ _ _ _ Ef).
Qed.
Hint Resolve finish_last_trip_carries : carries.

Lemma finalize_trip_carries loc ti cf : carries_ok (finalize_trip loc ti cf).
Proof.
  unfold finalize_trip.
  eapply keeps_bind; [apply keeps_get | intros m Hm].
  destruct (last (carries m)) as [carry |]; [| carry_auto].
  destruct (last (Carry.trips carry)) as [trip |]; [| carry_auto].
  destruct ((Trip.origin trip =? loc) && negb cf); [carry_auto |].
  eapply (keeps_bind (fun _ => True)); [apply finish_last_trip_carries | intros ? _].
  eapply keeps_bind; [apply keeps_get | intros m1 Hm1].
  apply keeps_when.
  eapply keeps_bind; [apply last_carry_sound | intros carry1 Hc1].
  apply put_last_carry_sound. now apply sound_append_trip.
Qed.
Hint Resolve finalize_trip_carries : carries.

Lemma finalize_carry_carries loc ti n : carries_ok (finalize_carry loc ti n).
Proof.
  unfold finalize_carry.
  eapply keeps_bind; [apply keeps_get | intros m Hm].
  eapply (keeps_bind (fun _ => True)).
  - destruct (last (carries m)) as [carry |] eqn:L; [| carry_auto].
    apply put_last_carry_sound. apply sound_finished.
    unfold sound_carries in Hm. rewrite Forall_forall in Hm. apply Hm.
    apply list_elem_of_In. now apply last_In.
  - intros ? _. eapply keeps_bind; [apply keeps_get | intros m1 Hm1].
    apply keeps_when. apply keeps_modify. intros m2 Hm2.
    unfold sound_carries. simpl. apply Forall_app. split; [exact Hm2 |].
    constructor; [apply sound_init | constructor].
Qed.
Hint Resolve finalize_carry_carries : carries.

Lemma check_remaining_tasks_carries loc : carries_ok (check_remaining_tasks loc).
Proof. unfold check_remaining_tasks. carry_auto. Qed.
Hint Resolve check_remaining_tasks_carries : carries.

Lemma check_job_carries : carries_ok check_job.
Proof. unfold check_job. carry_auto. Qed.
Hint Resolve check_job_carries : carries.

Lemma is_job_active_carries : carries_ok is_job_active.
Proof. unfold is_job_active. carry_auto. Qed.
Hint Resolve is_job_active_carries : carries.

Lemma set_loc_data_carries loc : carries_ok (set_loc_data loc).
Proof. unfold set_loc_data. carry_auto. Qed.
Hint Resolve set_loc_data_carries : carries.

Lemma check_alleged_wrong_item_carries item loc labels :
  carries_ok (check_alleged_wrong_item item loc labels).
Proof. unfold check_alleged_wrong_item. carry_auto. Qed.
Hint Resolve check_alleged_wrong_item_carries : carries.

Lemma classify_item_carries loc labels item :
  carries_ok (classify_item loc labels item).
Proof. unfold classify_item. carry_auto. Qed.
Hint Resolve classify_item_carries : carries.

Lemma classify_items_carries loc items labels :
  carries_ok (classify_items loc items labels).
Proof.
  revert labels. induction items as [|x items IH]; intros labels; simpl;
    carry_auto.
Qed.
Hint Resolve classify_items_carries : carries.

Lemma finish_drop_carries loc co wr re : carries_ok (finish_drop loc co wr re).
Proof. unfold finish_drop. carry_auto. Qed.
Hint Resolve finish_drop_carries : carries.

Lemma after_classification_carries loc labels :
  carries_ok (after_classification loc labels).
Proof. unfold after_classification. carry_auto. Qed.
Hint Resolve after_classification_carries : carries.

Lemma check_drop_carries loc items : carries_ok (check_drop loc items).
Proof. unfold check_drop. carry_auto. Qed.
Hint Resolve check_drop_carries : carries.

Lemma append_NOE_dest_carries : carries_ok append_NOE_dest.
Proof.
  intros m Hm. rewrite append_NOE_dest_raises. exact Hm.
Qed.
Hint Resolve append_NOE_dest_carries : carries.

Lemma on_pickup_signal_carries loc locals : carries_ok (on_pickup_signal loc locals).
Proof. unfold on_pickup_signal. carry_auto. Qed.
Hint Resolve on_pickup_signal_carries : carries.

Lemma on_drop_signal_carries loc locals : carries_ok (on_drop_signal loc locals).
Proof. unfold on_drop_signal. carry_auto. Qed.
Hint Resolve on_drop_signal_carries : carries.

Lemma on_drop_distance_carries locals : carries_ok (on_drop_distance locals).
Proof. unfold on_drop_distance. carry_auto. Qed.
Hint Resolve on_drop_distance_carries : carries.

Lemma on_pickup_distance_carries locals : carries_ok (on_pickup_distance locals).
Proof. unfold on_pickup_distance. carry_auto. Qed.
Hint Resolve on_pickup_distance_carries : carries.

Lemma record_movement_carries loc : carries_ok (record_movement loc).
Proof.
  unfold record_movement.
  eapply keeps_bind; [apply keeps_get | intros m Hm].
  eapply keeps_bind; [apply last_carry_sound | intros carry Hc].
  eapply keeps_bind; [apply keeps_lift | intros trip E].
  assert (Hn : Trip.carry_num trip = Carry.carry_num carry).
  { destruct Hc as [_ Hall]. rewrite Forall_forall in Hall. apply Hall.
    apply list_elem_of_In. eapply py_last_In. exact E. }
  cbv zeta.
  eapply (keeps_bind (fun _ => True)).
  - apply put_last_carry_sound. apply sound_set_last_trip; [exact Hc | exact Hn].
  - intros ? _. eapply keeps_bind; [apply keeps_lift | intros trip2 E2].
    apply put_last_carry_sound. apply sound_set_last_trip; [exact Hc |].
    rewrite <- Hn. apply (append_coords_carry_num _ _ _ E2).
Qed.
Hint Resolve record_movement_carries : carries.

Lemma dispatch_signals_carries p d loc locals :
  carries_ok (dispatch_signals p d loc locals).
Proof. unfold dispatch_signals. carry_auto. Qed.
Hint Resolve dispatch_signals_carries : carries.

Lemma process_loc_carries loc locals : carries_ok (process_loc loc locals).
Proof.
  unfold process_loc.
  eapply (keeps_bind (fun _ => True)); [carry_auto | intros ? _]. cbv zeta.
  eapply keeps_bind; [apply keeps_get | intros m Hm].
  eapply (keeps_bind (fun _ => True)).
  - apply keeps_when. apply keeps_modify. intros m2 _.
    unfold sound_carries. simpl. apply Forall_app. split; [exact Hm |].
    constructor; [apply sound_init | constructor].
  - intros ? _. carry_auto.
Qed.
Hint Resolve process_loc_carries : carries.

Lemma process_all_carries locs locals : carries_ok (process_all locs locals).
Proof.
  revert locals. induction locs as [|x locs IH]; intros locals; simpl;
    carry_auto.
Qed.
Hint Resolve process_all_carries : carries.

Lemma tick_carries locals : carries_ok (tick locals).
Proof. unfold tick. carry_auto. Qed.
Hint Resolve tick_carries : carries.

Lemma simulate_pickup_carries ev : carries_ok (simulate_pickup ev).
Proof. unfold simulate_pickup. carry_auto. Qed.
Hint Resolve simulate_pickup_carries : carries.

Lemma simulate_drop_carries ev : carries_ok (simulate_drop ev).
Proof. unfold simulate_drop. carry_auto. Qed.
Hint Resolve simulate_drop_carries : carries.

Lemma play_event_carries ev : carries_ok (play_event ev).
Proof. unfold play_event. carry_auto. Qed.
Hint Resolve play_event_carries : carries.

Lemma start_scenario_carries loc : carries_ok (start_scenario loc).
Proof.
  unfold start_scenario. apply keeps_modify. intros m Hm.
  unfold sound_carries. simpl. apply Forall_app. split; [exact Hm |].
  constructor; [apply sound_init | constructor].
Qed.
Hint Resolve start_scenario_carries : carries.

Lemma run_op_carries (op : Op F) (st : Locals * t F) :
  sound_carries (snd st) -> sound_carries (snd (run_op op st)).
Proof.
  destruct st as [locals m]. intros Hm. change (sound_carries m) in Hm.
  assert (Hk : forall (A : Type) (c : M A),
             carries_ok c -> sound_carries (state_of (c m))).
  { intros A c Hc. specialize (Hc m Hm). destruct (c m); [apply Hc | exact Hc]. }
  destruct op; unfold run_op.
  all: try match goal with
           | |- context [state_of (?c ?m0)] =>
               let E := fresh in
               assert (E : carries_ok c) by auto with carries;
               exact (Hk _ c E)
           end.
  - pose proof (Hk _ _ (tick_carries locals)) as E.
    destruct (tick locals m); exact E.
  - pose proof (Hk _ _ (process_loc_carries loc locals)) as E.
    destruct (process_loc loc locals m); exact E.
  - exact Hm.
Qed.

Lemma reachable_carries (st : Locals * t F) :
  reachable st -> sound_carries (snd st).
Proof.
  induction 1 as [db clock | op st Hst IH].
  - constructor.
  - now apply run_op_carries.
Qed.

End CarryInvariantMethods.

Section CarryScenarios.
Import JobMonitor.

End CarryScenarios.
